(** * Rasa Core: policy ensemble, domain and evaluation store

    A shallow embedding of
      - [rasa/core/policies/ensemble.py]  (PolicyEnsemble, SimplePolicyEnsemble),
      - [rasa/core/domain.py]             (Domain),
      - [rasa/core/test.py]               (EvaluationStore),
    followed by the properties of these functions.

    Conventions.  Python floats that occur here are finite action
    probabilities and confidences; they are only compared, maximised and
    overwritten by the literal [0.0], never added or multiplied, so they are
    represented by canonical rationals [Qc], whose order and (Leibniz)
    equality agree with [<] and [==] on finite floats.  A Python function
    that can raise returns a [result]; a [dict] whose order is observable is
    an association list, a [set] is a [gset]. *)

From Stdlib Require Import QArith Qcanon.
From stdpp Require Import gmap strings list pretty sorting numbers.

Open Scope string_scope.
Open Scope list_scope.

(** ** Python runtime: exceptions *)

Inductive PyError : Type :=
| NameError (message : string)
| IndexError
| ValueError
| TypeError
| KeyError (key : string)
| AttributeError
| InvalidVersion (version : string)
| InvalidDomain (message : string)
| UnsupportedDialogueModelError (message : string) (model_version : string).

Inductive result (A : Type) : Type :=
| Ok (a : A)
| Raise (e : PyError).
Arguments Ok {A} a.
Arguments Raise {A} e.

#[export] Instance result_ret : MRet result := @Ok.
#[export] Instance result_bind : MBind result :=
  λ A B f m, match m with Ok a => f a | Raise e => Raise e end.

Definition is_Ok {A} (r : result A) : Prop := ∃ a, r = Ok a.

(** ** Python runtime: lists of floats *)

(** [l[i] = x]; an index past the end raises [IndexError]. *)
Definition set_item {A} (l : list A) (i : nat) (x : A) : result (list A) :=
  if decide (i < length l) then Ok (<[i := x]> l) else Raise IndexError.

(** [l.index(x)]: first position holding a value equal to [x]. *)
Definition list_index `{EqDecision A} (x : A) (l : list A) : result nat :=
  match list_find (λ y, y = x) l with
  | Some (i, _) => Ok i
  | None => Raise ValueError
  end.

Definition Qc_max (a b : Qc) : Qc :=
  match (a ?= b)%Qc with Lt => b | _ => a end.

(** [numpy.max]: the largest element; the empty sequence raises. *)
Definition np_max (l : list Qc) : result Qc :=
  match l with
  | [] => Raise ValueError
  | x :: xs => Ok (foldl Qc_max x xs)
  end.

(** [s.endswith(suffix)] *)
Fixpoint endswith (s suffix : string) : bool :=
  String.eqb s suffix
  || match s with
     | EmptyString => false
     | String _ s' => endswith s' suffix
     end.

(** ** Python runtime: insertion-ordered dictionaries *)

Section PyDict.
Context {V : Type}.

Fixpoint dict_get (d : list (string * V)) (k : string) : option V :=
  match d with
  | [] => None
  | (k', v) :: d' => if decide (k' = k) then Some v else dict_get d' k
  end.

(** [d[k] = v]: an existing key keeps its position. *)
Fixpoint dict_set (d : list (string * V)) (k : string) (v : V)
  : list (string * V) :=
  match d with
  | [] => [(k, v)]
  | (k', v') :: d' =>
      if decide (k' = k) then (k, v) :: d' else (k', v') :: dict_set d' k v
  end.

(** [a.update(b)] *)
Definition dict_update (a b : list (string * V)) : list (string * V) :=
  foldl (λ acc kv, dict_set acc kv.1 kv.2) a b.

Definition dict_keys (d : list (string * V)) : list string := d.*1.

(** a dict display / comprehension [{k: v for (k, v) in items}] *)
Definition dict_of_items (items : list (string * V)) : list (string * V) :=
  dict_update [] items.
End PyDict.

(** ** Events and the tracker (read-only view used by Domain and ensemble) *)

(** An entity found in a user message: a dict such as
    [{"entity": "city", "value": "Berlin", "start": ..., "end": ...}];
    values are kept as text. *)
Abbreviation EntityDict := (gmap string string).

Record Intent : Type := {
  intent_name : option string;        (* intent.get("name") *)
  intent_confidence : option Qc       (* intent.get("confidence") *)
}.

Record UserUttered : Type := {
  msg_text : option string;
  msg_intent : Intent;
  msg_entities : list EntityDict;
  msg_intent_ranking : option (list Intent)  (* parse_data["intent_ranking"] *)
}.

Inductive Event : Type :=
| EvUserUttered (m : UserUttered)
| ActionExecuted (action_name : string)
| ActionExecutionRejected (action_name : string)
| SlotSet (key : string)
| OtherEvent.

Record DialogueStateTracker : Type := {
  events : list Event;
  latest_action_name : option string;
  latest_message : option UserUttered;
  (* slot name -> slot.as_feature(), [None] for an unset entry *)
  tracker_slots : list (string * option (list Qc));
  active_form : option string             (* active_form.get("name") *)
}.

(** ** Domain: data model ([rasa/core/domain.py]) *)

Definition PREV_PREFIX : string := "prev_".
Definition ACTIVE_FORM_PREFIX : string := "active_form_".

Definition newline : string := String (Ascii.ascii_of_nat 10) "".
Definition tab : string := String (Ascii.ascii_of_nat 9) "".

(** Python [sorted] on strings (code-point order). *)
Definition str_le (a b : string) : Prop := String.leb a b = true.
#[export] Instance str_le_dec a b : Decision (str_le a b).
Proof. unfold str_le. apply _. Defined.

Definition sorted (l : list string) : list string := merge_sort str_le l.

(** [list(set(l))] followed by [sorted]: the order in which the set is
    enumerated is not observable after sorting. *)
Definition sorted_set (l : list string) : list string :=
  sorted (elements (list_to_set l : gset string)).

(** the [use_entities] entry of an intent: [True] or an explicit list *)
Inductive UseEntities : Type :=
| UseAll
| UseList (l : list string).

(** the value as written in a domain file, before normalisation *)
Inductive RawUseEntities : Type :=
| RawAbsent
| RawNone
| RawBool (b : bool)
| RawList (l : list string).

Record IntentProperties : Type := {
  use_entities : UseEntities;
  ignore_entities : list string;
  triggers : option string
}.

Record RawIntentProperties : Type := {
  raw_use_entities : RawUseEntities;
  raw_ignore_entities : option (list string);
  raw_triggers : option string
}.

(** an element of the [intents] list: a name or a one-key dict *)
Inductive IntentSpec : Type :=
| IntentText (name : string)
| IntentDict (name : string) (properties : RawIntentProperties).

Record SlotInfo : Type := {
  slot_type : string;
  feature_dimensionality : nat;
  auto_fill : bool
}.

Record Slot : Type := {
  slot_name : string;
  slot_info : SlotInfo            (* persistence_info() *)
}.

(** one response variant of an utterance template *)
Inductive Template : Type :=
| TemplateText (t : string)           (* a bare string (deprecated) *)
| TemplateDict (d : gmap string string).

Record SessionConfig : Type := {
  session_expiration_time : Qc;
  carry_over_slots : bool
}.

#[export] Instance SessionConfig_eq_dec : EqDecision SessionConfig.
Proof. solve_decision. Defined.

Record Domain : Type := {
  intent_properties : list (string * IntentProperties);
  entities : list string;
  form_names : list string;
  slots : list Slot;
  templates : list (string * list Template);
  session_config : SessionConfig;
  user_actions : list string;
  action_names : list string;
  store_entities_as_slots : bool
}.

(** the dictionary produced by [as_dict] and consumed by [from_dict] *)
Record DomainDict : Type := {
  dd_store_entities_as_slots : bool;                 (* "config" *)
  dd_session_expiration_time : option Qc;            (* "session_config" *)
  dd_carry_over_slots : option bool;
  dd_intents : list IntentSpec;                      (* "intents" *)
  dd_entities : list string;                         (* "entities" *)
  dd_slots : list (string * SlotInfo);               (* "slots" *)
  dd_responses : list (string * option (list Template)); (* "responses" *)
  dd_actions : list string;                          (* "actions" *)
  dd_forms : list string                             (* "forms" *)
}.

Inductive Warning : Type :=
| AmbiguousEntitiesWarning (intent_name : option string)
                           (ambiguous_entities : gset string)
| TemplateStringWarning (template_key : string)
| NoSessionConfigWarning.

(** *** Derived state schema *)

Definition num_actions (d : Domain) : nat := length (action_names d).

Definition intents (d : Domain) : list string :=
  sorted (dict_keys (intent_properties d)).

Definition slot_states (d : Domain) : list string :=
  s ← slots d;
  (λ i : nat, "slot_" +:+ slot_name s +:+ "_" +:+ pretty i)
    <$> seq 0 (feature_dimensionality (slot_info s)).

Definition prev_action_states (d : Domain) : list string :=
  (λ a, PREV_PREFIX +:+ a) <$> action_names d.

Definition intent_states (d : Domain) : list string :=
  (λ i, "intent_" +:+ i) <$> intents d.

Definition entity_states (d : Domain) : list string :=
  (λ e, "entity_" +:+ e) <$> entities d.

Definition form_states (d : Domain) : list string :=
  (λ f, "active_form_" +:+ f) <$> form_names d.

Definition input_states (d : Domain) : list string :=
  intent_states d ++ entity_states d ++ slot_states d
  ++ prev_action_states d ++ form_states d.

Definition num_states (d : Domain) : nat := length (input_states d).

(** [{f: i for i, f in enumerate(self.input_states)}]: a later duplicate
    overwrites an earlier one. *)
Definition enumerate {A} (l : list A) : list (nat * A) := imap pair l.

Definition input_state_map (d : Domain) : gmap string nat :=
  foldl (λ m p, <[p.2 := p.1]> m) ∅ (enumerate (input_states d)).

Definition index_of_state (d : Domain) (state_name : string) : option nat :=
  input_state_map d !! state_name.

(** *** Actions *)

Definition _raise_action_not_found_exception {A}
    (d : Domain) (action_name : string) : result A :=
  Raise (NameError
    ("Cannot access action '" +:+ action_name +:+ "', as that name is not a "
     +:+ "registered action for this domain. Available actions are: "
     +:+ newline
     +:+ String.concat newline
           ((λ a, tab +:+ " - " +:+ a) <$> action_names d))).

Definition index_for_action (d : Domain) (action_name : string) : result nat :=
  match list_find (λ a, a = action_name) (action_names d) with
  | Some (i, _) => Ok i
  | None => _raise_action_not_found_exception d action_name
  end.

(** *** Active states of a tracker *)

(** Python truthiness of an optional text: [None] and [""] are false. *)
Definition truthy (s : option string) : bool :=
  match s with
  | Some s => negb (String.eqb s "")
  | None => false
  end.

Definition intent_config (d : Domain) (intent_name : option string)
  : option IntentProperties :=
  n ← intent_name; dict_get (intent_properties d) n.

(** Returns the featurized entity names together with the warnings raised
    on the way ([raise_warning] does not alter control flow). *)
Definition _get_featurized_entities (d : Domain) (latest_message : UserUttered)
  : gset string * list Warning :=
  let intent_name := intent_name (msg_intent latest_message) in
  let intent_config := intent_config d intent_name in
  let entity_names : gset string :=
    list_to_set (omap (λ e : EntityDict, e !! "entity")
                      (msg_entities latest_message)) in
  let include := from_option use_entities UseAll intent_config in
  let included_entities : gset string :=
    match include with
    | UseAll => entity_names
    | UseList l => list_to_set l
    end in
  let excluded_entities : gset string :=
    list_to_set (from_option ignore_entities [] intent_config) in
  let wanted_entities := included_entities ∖ excluded_entities in
  let explicitly_included :=
    match include with UseList _ => true | UseAll => false end in
  let ambiguous_entities := included_entities ∩ excluded_entities in
  let warnings :=
    if explicitly_included && bool_decide (ambiguous_entities ≠ ∅)
    then [AmbiguousEntitiesWarning intent_name ambiguous_entities]
    else [] in
  (entity_names ∩ wanted_entities, warnings).

Definition set_entity_states (names : list string) (state_dict : gmap string Qc)
  : gmap string Qc :=
  foldl (λ sd entity_name, <["entity_" +:+ entity_name := 1%Qc]> sd)
        state_dict names.

Definition set_slot_states (tracker_slots : list (string * option (list Qc)))
    (state_dict : gmap string Qc) : gmap string Qc :=
  foldl (λ sd ks,
           match ks.2 with
           | Some features =>
               foldl (λ sd' iv,
                        if decide (iv.2 ≠ 0%Qc)
                        then <["slot_" +:+ ks.1 +:+ "_" +:+ pretty iv.1 := iv.2]> sd'
                        else sd')
                     sd (enumerate features)
           | None => sd
           end)
        state_dict tracker_slots.

Fixpoint set_ranking_states (ranking : list Intent) (state_dict : gmap string Qc)
  : result (gmap string Qc) :=
  match ranking with
  | [] => Ok state_dict
  | i :: ranking' =>
      if truthy (intent_name i) then
        match intent_confidence i with
        | Some c =>
            set_ranking_states ranking'
              (<["intent_" +:+ default "" (intent_name i) := c]> state_dict)
        | None => Raise (KeyError "confidence")
        end
      else set_ranking_states ranking' state_dict
  end.

Definition get_parsing_states (d : Domain) (tracker : DialogueStateTracker)
  : result (gmap string Qc * list Warning) :=
  match latest_message tracker with
  | None => Ok (∅, [])
  | Some latest_message =>
      let intent_name := intent_name (msg_intent latest_message) in
      let '(state_dict, warnings) :=
        if truthy intent_name then
          let '(names, ws) := _get_featurized_entities d latest_message in
          (set_entity_states (elements names) ∅, ws)
        else (∅, []) in
      let state_dict := set_slot_states (tracker_slots tracker) state_dict in
      match msg_intent_ranking latest_message with
      | Some ranking =>
          state_dict ← set_ranking_states ranking state_dict;
          Ok (state_dict, warnings)
      | None =>
          if truthy intent_name then
            Ok (<["intent_" +:+ default "" intent_name :=
                    default 1%Qc (intent_confidence (msg_intent latest_message))]>
                  state_dict, warnings)
          else Ok (state_dict, warnings)
      end
  end.

Definition get_prev_action_states (d : Domain) (tracker : DialogueStateTracker)
  : gmap string Qc :=
  if truthy (latest_action_name tracker) then
    let prev_action_name :=
      PREV_PREFIX +:+ default "" (latest_action_name tracker) in
    if decide (is_Some (input_state_map d !! prev_action_name))
    then {[ prev_action_name := 1%Qc ]}
    else ∅
  else ∅.

Definition get_active_form (tracker : DialogueStateTracker) : gmap string Qc :=
  match active_form tracker with
  | Some form => {[ ACTIVE_FORM_PREFIX +:+ form := 1%Qc ]}
  | None => ∅
  end.

(** [a.update(b)] on unordered maps: entries of [b] win. *)
Definition map_update (a b : gmap string Qc) : gmap string Qc := b ∪ a.

Definition get_active_states (d : Domain) (tracker : DialogueStateTracker)
  : result (gmap string Qc * list Warning) :=
  '(state_dict, warnings) ← get_parsing_states d tracker;
  let state_dict := map_update state_dict (get_prev_action_states d tracker) in
  let state_dict := map_update state_dict (get_active_form tracker) in
  Ok (state_dict, warnings).

(** *** Persisted specification *)



(** *** Construction and merge *)

Section DomainConstruction.
(** [rasa.constants.DEFAULT_CARRY_OVER_SLOTS_TO_NEW_SESSION] and the two
    helpers of [rasa.core.actions.action] that [Domain.__init__] calls are
    defined outside the files at hand; they are parameters here. *)
Variable DEFAULT_CARRY_OVER_SLOTS_TO_NEW_SESSION : bool.
Variable combine_with_templates :
  list string → list (string * list Template) → list string.
Variable combine_user_with_default_actions : list string → list string.

Definition SessionConfig_default : SessionConfig :=
  {| session_expiration_time := 0%Qc;
     carry_over_slots := DEFAULT_CARRY_OVER_SLOTS_TO_NEW_SESSION |}.

Definition normalise_properties (p : RawIntentProperties) : IntentProperties :=
  {| use_entities :=
       match raw_use_entities p with
       | RawAbsent => UseAll                    (* setdefault(..., True) *)
       | RawBool true => UseAll
       | RawNone | RawBool false => UseList []
       | RawList l => UseList l
       end;
     ignore_entities := default [] (raw_ignore_entities p);
     triggers := raw_triggers p |}.

Fixpoint collect_intent_properties_from
    (intent_properties : list (string * IntentProperties))
    (intents : list IntentSpec)
  : result (list (string * IntentProperties)) :=
  match intents with
  | [] => Ok intent_properties
  | intent :: intents' =>
      let '(name, properties) :=
        match intent with
        | IntentDict name properties => (name, normalise_properties properties)
        | IntentText name =>
            (name, {| use_entities := UseAll; ignore_entities := [];
                      triggers := None |})
        end in
      if decide (name ∈ dict_keys intent_properties) then
        Raise (InvalidDomain
          ("Intents are not unique! Found two intents with name '" +:+ name
           +:+ "'. Either rename or remove one of them."))
      else
        collect_intent_properties_from
          (dict_set intent_properties name properties) intents'
  end.

Definition collect_intent_properties (intents : list IntentSpec)
  : result (list (string * IntentProperties)) :=
  collect_intent_properties_from [] intents.

Fixpoint validate_variations (template_key : string) (variations : list Template)
  : result (list Template * list Warning) :=
  match variations with
  | [] => Ok ([], [])
  | t :: variations' =>
      '(validated, ws) ←
        match t with
        | TemplateText s =>
            Ok (TemplateDict ({[ "text" := s ]} : gmap string string),
                [TemplateStringWarning template_key])
        | TemplateDict d =>
            if decide (d !! "text" = None ∧ d !! "custom" = None) then
              Raise (InvalidDomain
                ("Utter template '" +:+ template_key
                 +:+ "' needs to contain either '- text: ' or '- custom: ' "
                 +:+ "attribute to be a proper template."))
            else Ok (t, [])
        end;
      '(rest, ws') ← validate_variations template_key variations';
      Ok (validated :: rest, (ws ++ ws')%list)
  end.

Fixpoint collect_templates_from
    (templates : list (string * list Template))
    (yml_templates : list (string * option (list Template)))
  : result (list (string * list Template) * list Warning) :=
  match yml_templates with
  | [] => Ok (templates, [])
  | (template_key, template_variations) :: yml' =>
      match template_variations with
      | None =>
          Raise (InvalidDomain
            ("Utterance '" +:+ template_key
             +:+ "' does not have any defined templates."))
      | Some variations =>
          '(validated_variations, ws) ←
            validate_variations template_key variations;
          '(templates', ws') ←
            collect_templates_from
              (dict_set templates template_key validated_variations) yml';
          Ok (templates', (ws ++ ws')%list)
      end
  end.

Definition collect_templates
    (yml_templates : list (string * option (list Template)))
  : result (list (string * list Template) * list Warning) :=
  collect_templates_from [] yml_templates.

Definition collect_slots (slot_dict : list (string * SlotInfo)) : list Slot :=
  omap (λ slot_name,
          (λ info, {| slot_name := slot_name; slot_info := info |})
            <$> dict_get slot_dict slot_name)
       (sorted (dict_keys slot_dict)).

(** [collections.Counter(my_items).items()] lists each item once, in order
    of first occurrence. *)
Fixpoint first_occurrences (l : list string) : list string :=
  match l with
  | [] => []
  | x :: l' => x :: filter (λ y, y ≠ x) (first_occurrences l')
  end.

Definition get_duplicates (my_items : list string) : list string :=
  filter (λ item, 1 < length (filter (λ y, y = item) my_items))
         (first_occurrences my_items).

Definition check_mappings (action_names : list string)
    (intent_properties : list (string * IntentProperties))
  : list (string * string) :=
  omap (λ ip : string * IntentProperties,
          match triggers ip.2 with
          | Some triggered_action =>
              if decide (triggered_action ∈ action_names) then None
              else Some (ip.1, triggered_action)
          | None => None
          end)
       intent_properties.

(** appends [part] to [message], separated by a newline unless [message]
    is still empty *)
Definition add_line (message part : string) : string :=
  if String.eqb message "" then part else message +:+ newline +:+ part.

Definition get_duplicate_exception_message
    (duplicates : list (list string * string)) : string :=
  foldl (λ message dn,
           match dn.1 with
           | [] => message
           | _ =>
               add_line message
                 ("Duplicate " +:+ dn.2 +:+ " in domain. These " +:+ dn.2
                  +:+ " occur more than once in the domain: '"
                  +:+ String.concat ", " dn.1 +:+ "'.")
           end)
        "" duplicates.

Definition get_mapping_exception_message
    (mappings : list (string * string)) : string :=
  foldl (λ message na,
           add_line message
             ("Intent '" +:+ na.1 +:+ "' is set to trigger action '" +:+ na.2
              +:+ "', which is not defined in the domain."))
        "" mappings.

Definition get_exception_message
    (duplicates : list (list string * string))
    (mappings : list (string * string)) : string :=
  let message :=
    match duplicates with
    | [] => ""
    | _ => get_duplicate_exception_message duplicates
    end in
  match mappings with
  | [] => message
  | _ => add_line message (get_mapping_exception_message mappings)
  end.

Definition _check_domain_sanity (d : Domain) : result unit :=
  let duplicate_actions := get_duplicates (action_names d) in
  let duplicate_slots := get_duplicates (slot_name <$> slots d) in
  let duplicate_entities := get_duplicates (entities d) in
  let incorrect_mappings :=
    check_mappings (action_names d) (intent_properties d) in
  match duplicate_actions, duplicate_slots, duplicate_entities,
        incorrect_mappings with
  | [], [], [], [] => Ok ()
  | _, _, _, _ =>
      Raise (InvalidDomain
        (get_exception_message
           [(duplicate_actions, "actions");
            (duplicate_slots, "slots");
            (duplicate_entities, "entities")]
           incorrect_mappings))
  end.

(** [Domain.__init__] *)
Definition Domain_init
    (intents : list IntentSpec) (entities : list string) (slots : list Slot)
    (templates : list (string * list Template))
    (action_names form_names : list string)
    (store_entities_as_slots : bool) (session_config : SessionConfig)
  : result Domain :=
  intent_properties ← collect_intent_properties intents;
  let user_actions := combine_with_templates action_names templates in
  let self :=
    {| intent_properties := intent_properties;
       entities := entities;
       form_names := form_names;
       slots := slots;
       templates := templates;
       session_config := session_config;
       user_actions := user_actions;
       action_names :=
         combine_user_with_default_actions user_actions ++ form_names;
       store_entities_as_slots := store_entities_as_slots |} in
  _ ← _check_domain_sanity self;
  Ok self.

(** [Domain._get_session_config] *)
Definition _get_session_config
    (session_expiration_time : option Qc) (carry_over_slots : option bool)
  : SessionConfig * list Warning :=
  let '(session_expiration_time, ws) :=
    match session_expiration_time with
    | Some t => (t, [])
    | None => (0%Qc, [NoSessionConfigWarning])
    end in
  ({| session_expiration_time := session_expiration_time;
      carry_over_slots :=
        default DEFAULT_CARRY_OVER_SLOTS_TO_NEW_SESSION carry_over_slots |},
   ws).

(** [Domain.from_dict], for a document without the deprecated [templates]
    key. *)
Definition from_dict (data : DomainDict) : result (Domain * list Warning) :=
  '(utter_templates, ws) ← collect_templates (dd_responses data);
  let slots := collect_slots (dd_slots data) in
  let '(session_config, ws') :=
    _get_session_config (dd_session_expiration_time data)
                        (dd_carry_over_slots data) in
  d ← Domain_init (dd_intents data) (dd_entities data) slots utter_templates
        (dd_actions data) (dd_forms data)
        (dd_store_entities_as_slots data) session_config;
  Ok (d, (ws ++ ws')%list).

Definition _slot_definitions (d : Domain) : list (string * SlotInfo) :=
  dict_of_items ((λ s, (slot_name s, slot_info s)) <$> slots d).

Definition raw_of_properties (p : IntentProperties) : RawIntentProperties :=
  {| raw_use_entities :=
       match use_entities p with
       | UseAll => RawBool true
       | UseList l => RawList l
       end;
     raw_ignore_entities := Some (ignore_entities p);
     raw_triggers := triggers p |}.

Definition as_dict (d : Domain) : DomainDict :=
  {| dd_store_entities_as_slots := store_entities_as_slots d;
     dd_session_expiration_time :=
       Some (session_expiration_time (session_config d));
     dd_carry_over_slots := Some (carry_over_slots (session_config d));
     dd_intents :=
       (λ kv, IntentDict kv.1 (raw_of_properties kv.2))
         <$> intent_properties d;
     dd_entities := entities d;
     dd_slots := _slot_definitions d;
     dd_responses := (λ kv, (kv.1, Some kv.2)) <$> templates d;
     dd_actions := user_actions d;
     dd_forms := form_names d |}.

(** the local helpers of [merge] *)
Definition merge_dicts {V} (d1 d2 : list (string * V))
    (override_existing_values : bool) : list (string * V) :=
  if override_existing_values then dict_update d1 d2 else dict_update d2 d1.

Definition merge_lists (l1 l2 : list string) : list string :=
  sorted_set (l1 ++ l2).

(** [l.remove(x)] for an [x] known to occur: drops the first occurrence *)
Fixpoint list_remove (x : string) (l : list string) : list string :=
  match l with
  | [] => []
  | y :: l' => if decide (y = x) then l' else y :: list_remove x l'
  end.

Definition intent_spec_name (i : IntentSpec) : string :=
  match i with IntentText n | IntentDict n _ => n end.

(** "remove existing forms from new actions": the loop over
    [combined["forms"]] *)
Definition remove_existing_forms (forms actions : list string) : list string :=
  foldl (λ actions form,
           if decide (form ∈ actions) then list_remove form actions
           else actions)
        actions forms.

(** [d] after its list [user_actions] was changed in place *)
Definition with_user_actions (d : Domain) (user_actions : list string)
  : Domain :=
  {| intent_properties := intent_properties d;
     entities := entities d;
     form_names := form_names d;
     slots := slots d;
     templates := templates d;
     session_config := session_config d;
     user_actions := user_actions;
     action_names := action_names d;
     store_entities_as_slots := store_entities_as_slots d |}.

(** [Domain.merge].  [as_dict] hands out [domain.user_actions] itself, not a
    copy, so removing the forms of [self] from [domain_dict["actions"]]
    changes the argument [domain] as well: the result is the merged domain
    paired with [domain] as the call leaves it.  ([self] and [domain] are
    taken to be distinct objects.) *)
Definition merge (self : Domain) (domain : option Domain) (override : bool)
  : result (Domain * option Domain * list Warning) :=
  match domain with
  | None => Ok (self, None, [])
  | Some domain =>
      let domain_dict := as_dict domain in
      let combined := as_dict self in
      let combined_store :=
        if override then dd_store_entities_as_slots domain_dict
        else dd_store_entities_as_slots combined in
      let '(combined_expiration, combined_carry_over) :=
        if override
           || bool_decide (session_config self = SessionConfig_default)
        then (dd_session_expiration_time domain_dict,
              dd_carry_over_slots domain_dict)
        else (dd_session_expiration_time combined,
              dd_carry_over_slots combined) in
      let intents_1 :=
        dict_of_items ((λ i, (intent_spec_name i, i)) <$> dd_intents combined) in
      let intents_2 :=
        dict_of_items
          ((λ i, (intent_spec_name i, i)) <$> dd_intents domain_dict) in
      let merged_intents := merge_dicts intents_1 intents_2 override in
      let domain_actions :=
        remove_existing_forms (dd_forms combined) (dd_actions domain_dict) in
      let combined' :=
        {| dd_store_entities_as_slots := combined_store;
           dd_session_expiration_time := combined_expiration;
           dd_carry_over_slots := combined_carry_over;
           dd_intents := merged_intents.*2;
           dd_entities :=
             merge_lists (dd_entities combined) (dd_entities domain_dict);
           dd_slots :=
             merge_dicts (dd_slots combined) (dd_slots domain_dict) override;
           dd_responses :=
             merge_dicts (dd_responses combined) (dd_responses domain_dict)
                         override;
           dd_actions := merge_lists (dd_actions combined) domain_actions;
           dd_forms := merge_lists (dd_forms combined) (dd_forms domain_dict)
        |} in
      let domain' := with_user_actions domain domain_actions in
      '(merged, ws) ← from_dict combined';
      Ok (merged, Some domain', ws)
  end.
End DomainConstruction.

(** ** Policies and the ensemble ([rasa/core/policies/ensemble.py]) *)

(** What the ensemble reads of a policy object.  [fallback_action_name] is
    [Some] exactly for instances of [FallbackPolicy] (subclasses included). *)
Record Policy : Type := {
  type_name : string;                      (* type(p).__name__ *)
  priority : Z;
  predict_action_probabilities :
    DialogueStateTracker → Domain → list Qc;
  fallback_action_name : option string
}.

Definition isinstance_FallbackPolicy (p : Policy) : bool :=
  bool_decide (is_Some (fallback_action_name p)).

(** Modelled from the spec: [FallbackPolicy.fallback_scores]
    ([rasa/core/policies/fallback.py] is not among the sources): "a fixed
    distribution concentrated on a designated fallback action", over the
    full action index space. *)
Definition fallback_scores (fallback_action_name : string) (domain : Domain)
  : result (list Qc) :=
  idx ← index_for_action domain fallback_action_name;
  set_item (replicate (num_actions domain) 0%Qc) idx 1%Qc.

(** ["policy_{}_{}".format(i, type(p).__name__)] *)
Definition policy_name (i : nat) (p : Policy) : string :=
  "policy_" +:+ pretty i +:+ "_" +:+ type_name p.

Definition is_not_memo_policy (best_policy_name : string) : bool :=
  let is_memo := endswith best_policy_name ("_" +:+ "MemoizationPolicy") in
  let is_augmented :=
    endswith best_policy_name ("_" +:+ "AugmentedMemoizationPolicy") in
  negb (is_memo || is_augmented).

(** [(a1, a2) > (b1, b2)] on a (float, int) pair *)
Definition tuple_gt (a1 : Qc) (a2 : Z) (b1 : Qc) (b2 : Z) : bool :=
  match (a1 ?= b1)%Qc with
  | Eq => bool_decide (b2 < a2)%Z
  | Gt => true
  | Lt => false
  end.

(** the variables of the selection loop *)
Record Best : Type := {
  result_ : option (list Qc);
  max_confidence : Qc;
  best_policy_name : option string;
  best_policy_priority : Z
}.

Definition Best_init : Best :=
  {| result_ := None;
     max_confidence := (-1)%Qc;
     best_policy_name := None;
     best_policy_priority := (-1)%Z |}.

(** one iteration of [for i, p in enumerate(self.policies)] *)
Definition select_step (tracker : DialogueStateTracker) (domain : Domain)
    (best : Best) (i : nat) (p : Policy) : result Best :=
  let probabilities := predict_action_probabilities p tracker domain in
  probabilities ←
    match list.last (events tracker) with
    | Some (ActionExecutionRejected action_name) =>
        idx ← index_for_action domain action_name;
        set_item probabilities idx 0%Qc
    | _ => Ok probabilities
    end;
  confidence ← np_max probabilities;
  if tuple_gt confidence (priority p)
              (max_confidence best) (best_policy_priority best)
  then Ok {| result_ := Some probabilities;
             max_confidence := confidence;
             best_policy_name := Some (policy_name i p);
             best_policy_priority := priority p |}
  else Ok best.

Fixpoint select_loop (tracker : DialogueStateTracker) (domain : Domain)
    (best : Best) (i : nat) (policies : list Policy) : result Best :=
  match policies with
  | [] => Ok best
  | p :: policies' =>
      best' ← select_step tracker domain best i p;
      select_loop tracker domain best' (S i) policies'
  end.

(** [[(i, p) for i, p in enumerate(self.policies)
      if isinstance(p, FallbackPolicy)]] *)
Definition fallback_idx_policy (policies : list Policy) : list (nat * Policy) :=
  filter (λ ip, isinstance_FallbackPolicy ip.2 = true) (enumerate policies).

Section SimplePolicyEnsemble.
(** [rasa.core.actions.action.ACTION_LISTEN_NAME] *)
Variable ACTION_LISTEN_NAME : string.

Definition probabilities_using_best_policy (policies : list Policy)
    (tracker : DialogueStateTracker) (domain : Domain)
  : result (option (list Qc) * option string) :=
  best ← select_loop tracker domain Best_init 0 policies;
  match result_ best with
  | None => Ok (None, best_policy_name best)
  | Some result_list =>
      result_index ← list_index (max_confidence best) result_list;
      listen_index ← index_for_action domain ACTION_LISTEN_NAME;
      is_not_memo ←
        ((if bool_decide (result_index = listen_index)
            && bool_decide
                 (latest_action_name tracker = Some ACTION_LISTEN_NAME)
         then match best_policy_name best with
              | Some name => Ok (is_not_memo_policy name)
              | None => Raise AttributeError
              end
         else Ok false) : result bool);
      if (is_not_memo : bool) then
        match fallback_idx_policy policies with
        | (fallback_idx, fallback_policy) :: _ =>
            scores ←
              fallback_scores
                (default "" (fallback_action_name fallback_policy)) domain;
            Ok (Some scores, Some (policy_name fallback_idx fallback_policy))
        | [] => Ok (Some result_list, best_policy_name best)
        end
      else Ok (Some result_list, best_policy_name best)
  end.
End SimplePolicyEnsemble.

(** *** Model compatibility *)


Section ModelCompatibility.
(** [rasa.constants.MINIMUM_COMPATIBLE_VERSION], [rasa.__version__] and the
    third-party [packaging.version] (its [parse] and the order [<] on what
    it returns). *)
Variable MINIMUM_COMPATIBLE_VERSION : string.
Variable rasa_version : string.
Variable Version : Type.
Variable version_parse : string → option Version.
Variable version_lt : Version → Version → bool.




End ModelCompatibility.

(** ** Evaluation store ([rasa/core/test.py]) *)

(** an element of the prediction and target lists: text, or [None] *)
Inductive PyText : Type :=
| PyNone
| PyStr (s : string).

#[export] Instance PyText_eq_dec : EqDecision PyText.
Proof. solve_decision. Defined.

(** an argument of [add_to_store]: absent, a list of items, or one item *)
Inductive StoreArg (A : Type) : Type :=
| ArgNone
| ArgList (l : list A)
| ArgItem (a : A).
Arguments ArgNone {A}.
Arguments ArgList {A} l.
Arguments ArgItem {A} a.

(** Python truthiness of the items a store holds *)
Class Truthy (A : Type) : Type := is_truthy : A → bool.

#[export] Instance PyText_truthy : Truthy PyText :=
  λ t, match t with PyNone => false | PyStr s => negb (String.eqb s "") end.
#[export] Instance EntityDict_truthy : Truthy EntityDict :=
  λ d, bool_decide (d ≠ ∅).
#[export] Instance StoreArg_truthy `{Truthy A} : Truthy (StoreArg A) :=
  λ v, match v with
       | ArgNone => false
       | ArgList l => bool_decide (l ≠ [])
       | ArgItem a => is_truthy a
       end.

Record EvaluationStore : Type := {
  action_predictions : list PyText;
  action_targets : list PyText;
  intent_predictions : list PyText;
  intent_targets : list PyText;
  entity_predictions : list EntityDict;
  entity_targets : list EntityDict
}.

(** [EvaluationStore.__init__] with no arguments *)
Definition EvaluationStore_empty : EvaluationStore :=
  {| action_predictions := []; action_targets := [];
     intent_predictions := []; intent_targets := [];
     entity_predictions := []; entity_targets := [] |}.

(** the body of the loop over [locals()] for one attribute *)
Definition add_arg `{Truthy A} (attr : list A) (v : StoreArg A) : list A :=
  if is_truthy v then
    match v with
    | ArgList l => attr ++ l
    | ArgItem a => attr ++ [a]
    | ArgNone => attr
    end
  else attr.

Definition add_to_store (self : EvaluationStore)
    (action_predictions' action_targets' : StoreArg PyText)
    (intent_predictions' intent_targets' : StoreArg PyText)
    (entity_predictions' entity_targets' : StoreArg EntityDict)
  : EvaluationStore :=
  {| action_predictions := add_arg (action_predictions self) action_predictions';
     action_targets := add_arg (action_targets self) action_targets';
     intent_predictions := add_arg (intent_predictions self) intent_predictions';
     intent_targets := add_arg (intent_targets self) intent_targets';
     entity_predictions := add_arg (entity_predictions self) entity_predictions';
     entity_targets := add_arg (entity_targets self) entity_targets' |}.

Definition merge_store (self other : EvaluationStore) : EvaluationStore :=
  add_to_store self
    (ArgList (action_predictions other)) (ArgList (action_targets other))
    (ArgList (intent_predictions other)) (ArgList (intent_targets other))
    (ArgList (entity_predictions other)) (ArgList (entity_targets other)).

Definition has_prediction_target_mismatch (self : EvaluationStore) : bool :=
  bool_decide (intent_predictions self ≠ intent_targets self)
  || bool_decide (entity_predictions self ≠ entity_targets self)
  || bool_decide (action_predictions self ≠ action_targets self).

(** Modelled from the spec: [rasa.core.utils.pad_lists_to_size]
    ([rasa/core/utils.py] is not among the sources): "pads unequal-length
    prediction/target sequences with a sentinel so [len(targets) ==
    len(predictions)] always holds"; the shorter list is extended with the
    padding value up to the length of the longer one. *)
Definition pad_lists_to_size {A} (list_x list_y : list A) (padding_value : A)
  : list A * list A :=
  (list_x ++ replicate (length list_y - length list_x) padding_value,
   list_y ++ replicate (length list_x - length list_y) padding_value).

Section Serialise.
(** [MarkdownWriter.generate_entity_md] of [rasa.nlu], applied to the text
    and the entity.  It is defined outside the files at hand; it indexes
    both of its arguments and so may raise. *)
Variable generate_entity_md : option string → EntityDict → result string.

(** The list comprehension of the targets is evaluated before that of the
    predictions, each from left to right. *)
Definition serialise (self : EvaluationStore)
  : result (list PyText * list PyText) :=
  target_entities ←
    mapM (λ gold : EntityDict, generate_entity_md (gold !! "text") gold)
         (entity_targets self);
  let targets :=
    action_targets self ++ intent_targets self
    ++ (PyStr <$> target_entities) in
  predicted_entities ←
    mapM (λ predicted : EntityDict,
            generate_entity_md (predicted !! "text") predicted)
         (entity_predictions self);
  let predictions :=
    action_predictions self ++ intent_predictions self
    ++ (PyStr <$> predicted_entities) in
  Ok (pad_lists_to_size targets predictions (PyStr "None")).
End Serialise.

(** ** Notions used to state the properties *)

(** *** Evaluation store: sequences of operations *)

Inductive StoreOp : Type :=
| OpAddToStore (action_predictions' action_targets' : StoreArg PyText)
               (intent_predictions' intent_targets' : StoreArg PyText)
               (entity_predictions' entity_targets' : StoreArg EntityDict)
| OpMergeStore (other : EvaluationStore).

Definition run_op (self : EvaluationStore) (op : StoreOp) : EvaluationStore :=
  match op with
  | OpAddToStore ap at' ip it ep et => add_to_store self ap at' ip it ep et
  | OpMergeStore other => merge_store self other
  end.

Definition run_ops (self : EvaluationStore) (ops : list StoreOp)
  : EvaluationStore :=
  foldl run_op self ops.

(** the combined target and prediction sequences before padding, given the
    markdown texts of the entities *)
Definition combined_targets (s : EvaluationStore)
    (target_entities : list string) : list PyText :=
  action_targets s ++ intent_targets s ++ (PyStr <$> target_entities).

Definition combined_predictions (s : EvaluationStore)
    (predicted_entities : list string) : list PyText :=
  action_predictions s ++ intent_predictions s
  ++ (PyStr <$> predicted_entities).

(** [generate_entity_md] returns [md] for the entity [e] *)
Definition entity_md (generate_entity_md : option string → EntityDict → result string)
    (e : EntityDict) (md : string) : Prop :=
  generate_entity_md (e !! "text") e = Ok md.

(** *** Domain: intents, and the contracts of the external helpers *)

(** the entry [collect_intent_properties] records for one intent *)
Definition intent_entry (i : IntentSpec) : string * IntentProperties :=
  match i with
  | IntentDict name properties => (name, normalise_properties properties)
  | IntentText name =>
      (name, {| use_entities := UseAll; ignore_entities := [];
                triggers := None |})
  end.

(** a warning other than the one about ambiguous entities *)
Definition not_ambiguity_warning (w : Warning) : Prop :=
  match w with
  | AmbiguousEntitiesWarning _ _ => False
  | _ => True
  end.

(** an intent with its include and exclude lists left out *)
Definition without_entity_lists (i : IntentSpec) : IntentSpec :=
  match i with
  | IntentDict name properties =>
      IntentDict name {| raw_use_entities := RawAbsent;
                         raw_ignore_entities := None;
                         raw_triggers := raw_triggers properties |}
  | IntentText name => IntentText name
  end.

(** [combine_with_templates]: the user actions are the listed actions and
    the utterance actions named by the templates. *)
Definition combine_with_templates_contract
    (combine_with_templates :
       list string → list (string * list Template) → list string) : Prop :=
  ∀ actions templates x,
    x ∈ combine_with_templates actions templates
    ↔ x ∈ actions ∨ x ∈ dict_keys templates.

(** [combine_user_with_default_actions]: the fixed default actions and the
    user actions. *)
Definition combine_user_with_default_actions_contract
    (default_action_names : list string)
    (combine_user_with_default_actions : list string → list string) : Prop :=
  ∀ user_actions x,
    x ∈ combine_user_with_default_actions user_actions
    ↔ x ∈ default_action_names ∨ x ∈ user_actions.

(** two lists hold the same elements *)
Definition same_set (l1 l2 : list string) : Prop := ∀ x, x ∈ l1 ↔ x ∈ l2.

(** *** Ensemble: keys, winners and the loop invariant *)

(** the lexicographic order on (confidence, priority) *)
Definition key_lt (a b : Qc * Z) : Prop :=
  (a.1 < b.1)%Qc ∨ (a.1 = b.1 ∧ (a.2 < b.2)%Z).

(** the key the loop starts from *)
Definition sentinel_key : Qc * Z := ((-1)%Qc, (-1)%Z).

(** the rejection rule applied to one distribution *)
Definition zero_rejected (tracker : DialogueStateTracker) (domain : Domain)
    (probabilities : list Qc) : result (list Qc) :=
  match list.last (events tracker) with
  | Some (ActionExecutionRejected action_name) =>
      idx ← index_for_action domain action_name;
      set_item probabilities idx 0%Qc
  | _ => Ok probabilities
  end.

(** what a policy enters the comparison with: its distribution after the
    rejection rule, and the key (max(distribution), priority) *)
Definition policy_entry (tracker : DialogueStateTracker) (domain : Domain)
    (p : Policy) : result (list Qc * (Qc * Z)) :=
  probabilities ←
    zero_rejected tracker domain
      (predict_action_probabilities p tracker domain);
  confidence ← np_max probabilities;
  Ok (probabilities, (confidence, priority p)).

(** policy [p] at position [i] holds the first maximal key, above the
    sentinel *)
Definition is_winner (tracker : DialogueStateTracker) (domain : Domain)
    (policies : list Policy) (i : nat) (p : Policy)
    (probabilities : list Qc) (key : Qc * Z) : Prop :=
  policies !! i = Some p
  ∧ policy_entry tracker domain p = Ok (probabilities, key)
  ∧ key_lt sentinel_key key
  ∧ (∀ j q e, policies !! j = Some q →
       policy_entry tracker domain q = Ok e → ¬ key_lt key e.2)
  ∧ (∀ j q e, j < i → policies !! j = Some q →
       policy_entry tracker domain q = Ok e → key_lt e.2 key).

(** index of the top probability of a distribution (the first one on a
    tie), as [result.index(max_confidence)] finds it *)
Definition top_action (probabilities : list Qc) : result nat :=
  confidence ← np_max probabilities;
  list_index confidence probabilities.

(** the key held by the loop variables *)
Definition best_key (best : Best) : Qc * Z :=
  (max_confidence best, best_policy_priority best).

(** what the loop variables hold after the policies [seen] *)
Definition select_invariant (tracker : DialogueStateTracker) (domain : Domain)
    (seen : list Policy) (best : Best) : Prop :=
  match result_ best with
  | None =>
      best = Best_init
      ∧ ∀ j q e, seen !! j = Some q →
          policy_entry tracker domain q = Ok e → ¬ key_lt sentinel_key e.2
  | Some probabilities =>
      ∃ i p, is_winner tracker domain seen i p probabilities (best_key best)
             ∧ best_policy_name best = Some (policy_name i p)
  end.

(** [fp], at position [k], is the first fallback policy of the ensemble and
    [fa] is its fallback action *)
Definition first_fallback_policy (policies : list Policy) (k : nat)
    (fp : Policy) (fa : string) : Prop :=
  policies !! k = Some fp
  ∧ fallback_action_name fp = Some fa
  ∧ ∀ j q, j < k → policies !! j = Some q → fallback_action_name q = None.

(** the ensemble has a fallback policy *)
Definition has_fallback_policy (policies : list Policy) : Prop :=
  ∃ q, q ∈ policies ∧ is_Some (fallback_action_name q).

(** the test of the override step on the policy [p] that the loop kept from
    position [i], with its distribution: the tracker's latest action is
    [action_listen], the top probability of the distribution is at the
    index of [action_listen], and the name of [p] is not that of a
    memoization policy *)
Definition listen_predicted_after_user_message
    (ACTION_LISTEN_NAME : string) (tracker : DialogueStateTracker)
    (domain : Domain) (i : nat) (p : Policy) (probabilities : list Qc)
  : Prop :=
  latest_action_name tracker = Some ACTION_LISTEN_NAME
  ∧ (∃ listen_index,
       index_for_action domain ACTION_LISTEN_NAME = Ok listen_index
       ∧ top_action probabilities = Ok listen_index)
  ∧ is_not_memo_policy (policy_name i p) = true.

(** the override step applies, and the first fallback policy of the
    ensemble has [fa] as its fallback action *)
Definition overridden_by_fallback_action
    (ACTION_LISTEN_NAME : string) (policies : list Policy)
    (tracker : DialogueStateTracker) (domain : Domain) (fa : string) : Prop :=
  (∃ i p probabilities key,
     is_winner tracker domain policies i p probabilities key
     ∧ listen_predicted_after_user_message ACTION_LISTEN_NAME tracker domain
         i p probabilities)
  ∧ ∃ k fp, first_fallback_policy policies k fp fa.

(** ** Example data *)

(** *** Domains and messages *)

Definition example_default_action_names : list string :=
  ["action_listen"; "action_restart"; "action_default_fallback"].

Definition example_combine_user_with_default_actions
    (user_actions : list string) : list string :=
  example_default_action_names
  ++ filter (λ a, a ∉ example_default_action_names) user_actions.

Definition example_combine_with_templates (actions : list string)
    (templates : list (string * list Template)) : list string :=
  actions ++ filter (λ a, a ∉ actions) (sorted (dict_keys templates)).

Definition example_session_config : SessionConfig :=
  {| session_expiration_time := 0%Qc; carry_over_slots := true |}.

Definition example_domain : Domain :=
  {| intent_properties :=
       [("greet", {| use_entities := UseList ["city"; "name"];
                     ignore_entities := ["city"];
                     triggers := None |})];
     entities := ["city"; "name"];
     form_names := [];
     slots := [{| slot_name := "mood";
                  slot_info := {| slot_type := "categorical";
                                  feature_dimensionality := 2;
                                  auto_fill := true |} |}];
     templates := [];
     session_config := example_session_config;
     user_actions := ["utter_greet"];
     action_names :=
       ["action_listen"; "action_default_fallback"; "utter_greet"];
     store_entities_as_slots := true |}.

Definition example_intents : list IntentSpec :=
  [IntentDict "greet" {| raw_use_entities := RawList ["city"; "name"];
                         raw_ignore_entities := Some ["city"];
                         raw_triggers := None |};
   IntentText "bye"].

Definition example_constructed_domain : Domain :=
  {| intent_properties :=
       [("greet", {| use_entities := UseList ["city"; "name"];
                     ignore_entities := ["city"];
                     triggers := None |});
        ("bye", {| use_entities := UseAll; ignore_entities := [];
                   triggers := None |})];
     entities := ["city"; "name"];
     form_names := [];
     slots := [];
     templates := [];
     session_config := example_session_config;
     user_actions := ["utter_greet"];
     action_names :=
       ["action_listen"; "action_restart"; "action_default_fallback";
        "utter_greet"];
     store_entities_as_slots := true |}.

(** a domain document whose intent [greet] lists the entity [city] both
    under [use_entities] and under [ignore_entities]; it has a session
    configuration and no response written as a plain string *)
Definition example_ambiguous_domain_dict : DomainDict :=
  {| dd_store_entities_as_slots := true;
     dd_session_expiration_time := Some 0%Qc;
     dd_carry_over_slots := Some true;
     dd_intents := example_intents;
     dd_entities := ["city"; "name"];
     dd_slots := [];
     dd_responses := [];
     dd_actions := ["utter_greet"];
     dd_forms := [] |}.

Definition example_message : UserUttered :=
  {| msg_text := Some "hello from Berlin";
     msg_intent := {| intent_name := Some "greet";
                      intent_confidence := None |};
     msg_entities := [ {[ "entity" := "city"; "value" := "Berlin" ]};
                       {[ "entity" := "name"; "value" := "Ada" ]} ];
     msg_intent_ranking := None |}.

(** two domain fragments to merge *)
Definition example_fragment_A : Domain :=
  {| intent_properties :=
       [("greet", {| use_entities := UseAll; ignore_entities := [];
                     triggers := None |})];
     entities := ["city"];
     form_names := ["restaurant_form"];
     slots := [];
     templates := [("utter_greet", [TemplateDict {[ "text" := "Hello" ]}])];
     session_config := example_session_config;
     user_actions := ["action_search"; "utter_greet"];
     action_names :=
       ["action_listen"; "action_restart"; "action_default_fallback";
        "action_search"; "utter_greet"; "restaurant_form"];
     store_entities_as_slots := true |}.

Definition example_fragment_B : Domain :=
  {| intent_properties :=
       [("bye", {| use_entities := UseAll; ignore_entities := [];
                   triggers := None |})];
     entities := ["cuisine"; "city"];
     form_names := [];
     slots := [];
     templates := [("utter_bye", [TemplateDict {[ "text" := "Bye" ]}])];
     session_config := example_session_config;
     user_actions := ["action_search"; "action_book"; "utter_bye"];
     action_names :=
       ["action_listen"; "action_restart"; "action_default_fallback";
        "action_search"; "action_book"; "utter_bye"];
     store_entities_as_slots := true |}.

(** [example_fragment_B] with the form of [example_fragment_A] listed as a
    plain action *)
Definition example_fragment_B_form_as_action : Domain :=
  with_user_actions example_fragment_B
    ["action_search"; "restaurant_form"; "utter_bye"].

(** *** Trackers and ensembles *)

Definition Qc_of (n : Z) (d : positive) : Qc := Q2Qc (n # d).

Definition example_tracker : DialogueStateTracker :=
  {| events := [ActionExecuted "action_listen"; EvUserUttered example_message];
     latest_action_name := Some "action_listen";
     latest_message := Some example_message;
     tracker_slots := [];
     active_form := None |}.

(** two policies with the same top confidence and the same priority *)
Definition example_tied_policies : list Policy :=
  [ {| type_name := "KerasPolicy"; priority := 1;
       predict_action_probabilities := λ _ _, [Qc_of 1 10; Qc_of 1 10; Qc_of 8 10];
       fallback_action_name := None |};
    {| type_name := "SklearnPolicy"; priority := 1;
       predict_action_probabilities := λ _ _, [Qc_of 1 10; Qc_of 8 10; Qc_of 1 10];
       fallback_action_name := None |} ].

(** the two tied policies, followed by a fallback policy *)
Definition example_tied_policies_with_fallback : list Policy :=
  example_tied_policies
  ++ [ {| type_name := "FallbackPolicy"; priority := 4;
          predict_action_probabilities :=
            λ _ _, [Qc_of 0 1; Qc_of 3 10; Qc_of 0 1];
          fallback_action_name := Some "action_default_fallback" |} ].

(** a tracker whose last event rejects [action_name], after a user message
    that followed [action_listen] *)
Definition example_rejecting_tracker (action_name : string)
  : DialogueStateTracker :=
  {| events := [ActionExecuted "action_listen"; EvUserUttered example_message;
                ActionExecutionRejected action_name];
     latest_action_name := Some "action_listen";
     latest_message := Some example_message;
     tracker_slots := [];
     active_form := None |}.

(** a learned policy that favours [action_listen], and a fallback policy *)
Definition example_ensemble : list Policy :=
  [ {| type_name := "KerasPolicy"; priority := 1;
       predict_action_probabilities := λ _ _, [Qc_of 9 10; Qc_of 5 10; Qc_of 1 10];
       fallback_action_name := None |};
    {| type_name := "FallbackPolicy"; priority := 4;
       predict_action_probabilities := λ _ _, [Qc_of 0 1; Qc_of 3 10; Qc_of 0 1];
       fallback_action_name := Some "action_default_fallback" |} ].

(** *** Versions *)





(** ** Characters of a string *)

(** [c in s] *)
Fixpoint has_char (c : Ascii.ascii) (s : string) : bool :=
  match s with
  | EmptyString => false
  | String c' s' => Ascii.eqb c' c || has_char c s'
  end.

(** the character ["_"] *)
Definition underscore : Ascii.ascii := Ascii.ascii_of_nat 95.

(** ** Domain: looking up actions *)

Section DomainActions.
(** [rasa.core.actions.action.action_from_name] builds the action object
    for a name; it is defined outside the files at hand and may itself
    raise. *)
Variable Action : Type.
Variable EndpointConfig : Type.
Variable action_from_name :
  string → option EndpointConfig → list string → result Action.

Definition user_actions_and_forms (d : Domain) : list string :=
  user_actions d ++ form_names d.

Definition action_for_name (d : Domain) (action_name : string)
    (action_endpoint : option EndpointConfig) : result Action :=
  if decide (action_name ∈ action_names d) then
    action_from_name action_name action_endpoint (user_actions_and_forms d)
  else _raise_action_not_found_exception d action_name.

(** [index] is a Python [int]; [self.action_names[index]] is only reached
    with an index inside the list. *)
Definition action_for_index (d : Domain) (index : Z)
    (action_endpoint : option EndpointConfig) : result Action :=
  if decide ((Z.of_nat (num_actions d) ≤ index)%Z ∨ (index < 0)%Z) then
    Raise IndexError
  else
    match action_names d !! Z.to_nat index with
    | Some name => action_for_name d name action_endpoint
    | None => Raise IndexError
    end.

Definition actions (d : Domain) (action_endpoint : option EndpointConfig)
  : result (list Action) :=
  mapM (λ name, action_for_name d name action_endpoint) (action_names d).
End DomainActions.

(** ** Domain: validated templates *)

(** a bare string among the response variants *)
Definition is_template_text (t : Template) : Prop :=
  match t with TemplateText _ => True | TemplateDict _ => False end.

#[export] Instance is_template_text_dec t : Decision (is_template_text t).
Proof. destruct t; simpl; apply _. Defined.

(** a response variant as [collect_templates] leaves it: a dict with a
    ["text"] or a ["custom"] entry *)
Definition valid_template (t : Template) : Prop :=
  ∃ d, t = TemplateDict d ∧ (is_Some (d !! "text") ∨ is_Some (d !! "custom")).

(** responses as a domain file may list them: a bare string and a dict *)
Definition example_responses : list (string * option (list Template)) :=
  [("utter_greet",
    Some [TemplateText "Hello";
          TemplateDict ({[ "custom" := "wave" ]} : gmap string string)])].

(** ** Domain: example of a domain file *)

(** a domain document with slots, a form and responses *)
Definition example_domain_dict : DomainDict :=
  {| dd_store_entities_as_slots := true;
     dd_session_expiration_time := Some (Q2Qc 60);
     dd_carry_over_slots := Some true;
     dd_intents :=
       [IntentText "greet";
        IntentDict "book" {| raw_use_entities := RawList ["city"];
                             raw_ignore_entities := None;
                             raw_triggers := Some "restaurant_form" |}];
     dd_entities := ["city"; "cuisine"];
     dd_slots :=
       [("city", {| slot_type := "rasa.core.slots.TextSlot";
                    feature_dimensionality := 1; auto_fill := true |});
        ("budget", {| slot_type := "rasa.core.slots.CategoricalSlot";
                      feature_dimensionality := 3; auto_fill := false |})];
     dd_responses :=
       [("utter_greet",
         Some [TemplateDict ({[ "text" := "Hello" ]} : gmap string string)])];
     dd_actions := ["action_search"];
     dd_forms := ["restaurant_form"] |}.


(** ** Trackers: examples *)

(** a tracker in the middle of a form, with one slot set *)
Definition example_form_tracker : DialogueStateTracker :=
  {| events := [ActionExecuted "action_listen"; EvUserUttered example_message];
     latest_action_name := Some "action_listen";
     latest_message := Some example_message;
     tracker_slots := [("mood", Some [0%Qc; 1%Qc]); ("name", None)];
     active_form := Some "restaurant_form" |}.

(** ** Ensemble: priorities and persisted policies *)

(** the warning of [_check_priorities]: the class names of the policies
    that share [priority] *)
Inductive PriorityWarning : Type :=
| DuplicatePriorityWarning (type_names : list string) (priority : Z).

(** [d[k].append(v)] on a [defaultdict(list)] *)
Fixpoint defaultdict_append (d : list (Z * list string)) (k : Z) (v : string)
  : list (Z * list string) :=
  match d with
  | [] => [(k, [v])]
  | (k', vs) :: d' =>
      if decide (k' = k) then (k', vs ++ [v]) :: d'
      else (k', vs) :: defaultdict_append d' k v
  end.

Definition priority_dict (policies : list Policy) : list (Z * list string) :=
  foldl (λ d p, defaultdict_append d (priority p) (type_name p)) [] policies.

Definition _check_priorities (policies : list Policy) : list PriorityWarning :=
  omap (λ kv : Z * list string,
          if decide (1 < length kv.2)
          then Some (DuplicatePriorityWarning kv.2 kv.1)
          else None)
       (priority_dict policies).

(** [persist]: the directories, relative to [path], that the policies are
    told to persist themselves to, in the order of the loop *)
Definition persist_dir_names (policies : list Policy) : list string :=
  imap policy_name policies.

(** [d[k]] on a [defaultdict(list)]: a missing key reads as the empty
    list *)
Fixpoint defaultdict_get (d : list (Z * list string)) (k : Z) : list string :=
  match d with
  | [] => []
  | (k', vs) :: d' => if decide (k' = k) then vs else defaultdict_get d' k
  end.

(** the class names of the policies with priority [k], in ensemble order *)
Definition type_names_with_priority (k : Z) (policies : list Policy)
  : list string :=
  type_name <$> filter (λ p, priority p = k) policies.

(** ** Evaluation: cleaned entities and collected predictions
       ([rasa/core/test.py]) *)

(** the dict that the loop of [_clean_entity_results] builds for one
    entity *)
Definition cleaned_entity (text : string) (r : EntityDict) : EntityDict :=
  foldl (λ (cleaned : EntityDict) k,
           match r !! k with
           | Some v => <[k := v]> cleaned
           | None => cleaned
           end)
        ({[ "text" := text ]} : EntityDict)
        ["start"; "end"; "entity"; "value"].

(** [entity_results] is [None] when the parse data has no such key;
    [tuple(None)] raises [TypeError]. *)
Definition _clean_entity_results (text : string)
    (entity_results : option (list EntityDict)) : result (list EntityDict) :=
  match entity_results with
  | None => Raise TypeError
  | Some entity_results => Ok (cleaned_entity text <$> entity_results)
  end.

(** what [_collect_user_uttered_predictions] reads of a [UserUttered]
    event *)
Record EvaluatedUtterance : Type := {
  event_text : string;
  true_intent : option string;          (* parse_data.get("true_intent") *)
  predicted_intent_name : option string;
                               (* parse_data.get("intent", {}).get("name") *)
  true_entities : option (list EntityDict);
                                      (* parse_data.get("true_entities") *)
  predicted_entities : option (list EntityDict)
                                           (* parse_data.get("entities") *)
}.

(** the event that the partial tracker is updated with *)
Inductive EvaluationEvent : Type :=
| WronglyClassifiedUserUtterance
    (text : string) (intent_target : PyText)
    (entity_targets' : list EntityDict)
    (predicted_intent : PyText) (predicted_entities' : list EntityDict)
| EndToEndUserUtterance
    (text : string) (intent : option string)
    (entities' : option (list EntityDict)).

(** [WronglyClassifiedUserUtterance.__init__]: [intent_targets[0]] raises
    [IndexError] on a store without intent targets. *)
Definition WronglyClassifiedUserUtterance_init (event : EvaluatedUtterance)
    (eval_store : EvaluationStore) : result EvaluationEvent :=
  let predicted_intent :=
    match intent_predictions eval_store with
    | [] => PyNone
    | p :: _ => p
    end in
  match intent_targets eval_store with
  | [] => Raise IndexError
  | target :: _ =>
      Ok (WronglyClassifiedUserUtterance (event_text event) target
            (entity_targets eval_store) predicted_intent
            (entity_predictions eval_store))
  end.

(** Python truthiness of an optional list: [None] and [[]] are false. *)
Definition truthy_list {A} (l : option (list A)) : bool :=
  match l with
  | Some (_ :: _) => true
  | _ => false
  end.

(** [_collect_user_uttered_predictions]: the store it returns and the event
    it updates [partial_tracker] with ([event.intent] and [event.entities]
    as the parse data hold them).  When it raises, the update of the
    tracker that came before is not part of the result. *)
Definition _collect_user_uttered_predictions (event : EvaluatedUtterance)
    (fail_on_prediction_errors : bool)
  : result (EvaluationStore * EvaluationEvent) :=
  let user_uttered_eval_store := EvaluationStore_empty in
  let intent_gold :=
    match true_intent event with
    | Some s => ArgItem (PyStr s)
    | None => ArgNone
    end in
  let predicted_intent :=
    if truthy (predicted_intent_name event)
    then ArgItem (PyStr (default "" (predicted_intent_name event)))
    else ArgList [PyNone] in
  let user_uttered_eval_store :=
    add_to_store user_uttered_eval_store ArgNone ArgNone
      predicted_intent intent_gold ArgNone ArgNone in
  user_uttered_eval_store ←
    (if truthy_list (true_entities event)
        || truthy_list (predicted_entities event)
     then
       targets ← _clean_entity_results (event_text event)
                   (true_entities event);
       predictions ← _clean_entity_results (event_text event)
                       (predicted_entities event);
       Ok (add_to_store user_uttered_eval_store ArgNone ArgNone
             ArgNone ArgNone (ArgList predictions) (ArgList targets))
     else Ok user_uttered_eval_store);
  if has_prediction_target_mismatch user_uttered_eval_store then
    wrong ← WronglyClassifiedUserUtterance_init event user_uttered_eval_store;
    if fail_on_prediction_errors then Raise ValueError
    else Ok (user_uttered_eval_store, wrong)
  else
    Ok (user_uttered_eval_store,
        EndToEndUserUtterance (event_text event)
          (predicted_intent_name event) (predicted_entities event)).

(** an entry of the action list of [_predict_tracker_actions] *)
Record PredictedAction : Type := {
  pa_action : PyText;                  (* a["action"] *)
  pa_predicted : PyText;               (* a["predicted"] *)
  pa_policy : option string;           (* a["policy"] *)
  pa_confidence : option Qc            (* a["confidence"] *)
}.

(** the one error that [/] raises *)
Inductive ArithmeticError : Type :=
| ZeroDivisionError.

(** [a["policy"] and not SimplePolicyEnsemble.is_not_memo_policy(a["policy"])] *)
Definition predicted_by_memo_policy (a : PredictedAction) : bool :=
  truthy (pa_policy a)
  && negb (is_not_memo_policy (default "" (pa_policy a))).

(** [_in_training_data_fraction].  Both operands of [/] are lengths; the
    quotient is kept as the exact rational, of which the float is the
    nearest double (rounding is monotone and keeps 0 and 1). *)
Definition _in_training_data_fraction (action_list : list PredictedAction)
  : ArithmeticError + Qc :=
  let in_training_data :=
    pa_action <$> filter (λ a, predicted_by_memo_policy a = true) action_list
  in
  match length action_list with
  | 0 => inl ZeroDivisionError
  | S n =>
      inr (Q2Qc (Z.of_nat (length in_training_data) # Pos.of_succ_nat n))
  end.

(** *** Example: evaluated utterances and predicted actions *)

Definition example_utterance : EvaluatedUtterance :=
  {| event_text := "hello from Berlin";
     true_intent := Some "greet";
     predicted_intent_name := Some "greet";
     true_entities :=
       Some [ {[ "entity" := "city"; "value" := "Berlin";
                 "start" := "11"; "end" := "17" ]} ];
     predicted_entities :=
       Some [ {[ "entity" := "city"; "value" := "Berlin";
                 "start" := "11"; "end" := "17";
                 "extractor" := "CRFEntityExtractor" ]} ] |}.

Definition example_action_list : list PredictedAction :=
  [ {| pa_action := PyStr "utter_greet"; pa_predicted := PyStr "utter_greet";
       pa_policy := Some "policy_0_MemoizationPolicy";
       pa_confidence := Some 1%Qc |};
    {| pa_action := PyStr "action_listen"; pa_predicted := PyStr "utter_bye";
       pa_policy := Some "policy_1_KerasPolicy";
       pa_confidence := Some (Q2Qc (6 # 10)) |} ].

(** *** Example: an entity writer *)

(** A stand-in for [MarkdownWriter.generate_entity_md]
    ([rasa/nlu/training_data/formats/markdown.py] is not among the
    sources), which slices [text[entity["start"]:entity["end"]]] and reads
    [entity["entity"]] and [entity["value"]]: the keys are looked up in
    that order, a missing one raises [KeyError], and a text that is [None]
    cannot be sliced.  The stand-in writes the value where the original
    writes the slice of the text. *)
Definition example_generate_entity_md (text : option string)
    (entity : EntityDict) : result string :=
  match entity !! "start" with
  | None => Raise (KeyError "start")
  | Some _ =>
      match entity !! "end" with
      | None => Raise (KeyError "end")
      | Some _ =>
          match text with
          | None => Raise TypeError
          | Some _ =>
              match entity !! "entity" with
              | None => Raise (KeyError "entity")
              | Some entity_type =>
                  match entity !! "value" with
                  | None => Raise (KeyError "value")
                  | Some value =>
                      Ok ("[" +:+ value +:+ "](" +:+ entity_type +:+ ")")
                  end
              end
          end
      end
  end.

(** an evaluated utterance whose entities carry no offsets *)
Definition example_utterance_without_offsets : EvaluatedUtterance :=
  {| event_text := "hello from Berlin";
     true_intent := Some "greet";
     predicted_intent_name := Some "greet";
     true_entities := Some [ {[ "entity" := "city"; "value" := "Berlin" ]} ];
     predicted_entities :=
       Some [ {[ "entity" := "city"; "value" := "Berlin" ]} ] |}.

(** * Properties *)

(** ** Evaluation store *)

Lemma pad_lists_to_size_length {A} (list_x list_y : list A) (padding_value : A) :
  length (pad_lists_to_size list_x list_y padding_value).1
  = length (pad_lists_to_size list_x list_y padding_value).2.
Proof.
  unfold pad_lists_to_size; simpl.
  rewrite !length_app, !length_replicate. lia.
Qed.

Lemma mapM_result_Ok {A B} (f : A → result B) (l : list A) (k : list B) :
  mapM f l = Ok k ↔ Forall2 (λ x y, f x = Ok y) l k.
Proof.
  revert k. induction l as [|x l IH]; intros k; simpl.
  - split; [intros [= <-]; constructor|]. by intros ->%Forall2_nil_inv_l.
  - destruct (f x) as [y|e] eqn:Ex; simpl.
    + destruct (mapM f l) as [k'|e] eqn:Ek; simpl.
      * split.
        -- intros [= <-]. constructor; [done|]. by apply IH.
        -- intros H. apply Forall2_cons_inv_l in H as (y' & k'' & Hy & Hk & ->).
           apply IH in Hk. rewrite Ex in Hy.
           injection Hy as <-. injection Hk as <-. done.
      * split; [done|].
        intros H. apply Forall2_cons_inv_l in H as (y' & k'' & Hy & Hk & ->).
        apply IH in Hk. congruence.
    + split; [done|].
      intros H. apply Forall2_cons_inv_l in H as (y' & k'' & Hy & Hk & ->).
      congruence.
Qed.

Lemma mapM_result_is_Ok {A B} (f : A → result B) (l : list A) :
  is_Ok (mapM f l) ↔ ∀ x, x ∈ l → is_Ok (f x).
Proof.
  induction l as [|x l IH]; simpl.
  - split; [|by eexists]. intros _ x Hx. by apply elem_of_nil in Hx.
  - destruct (f x) as [y|e] eqn:Ex; simpl.
    + destruct (mapM f l) as [k|e] eqn:Ek; simpl.
      * split; [|by eexists]. intros _ x' Hx'.
        apply elem_of_cons in Hx' as [->|Hx']; [by eexists|].
        apply IH; [by eexists|done].
      * split; [by intros [? ?]|]. intros Hall.
        assert (is_Ok (Raise e : result (list B))) as [? ?]; [|done].
        apply IH. intros x' Hx'. apply Hall. by right.
    + split; [by intros [? ?]|]. intros Hall.
      destruct (Hall x) as [? ?]; [left|congruence].
Qed.

Lemma mapM_result_Raise {A B} (f : A → result B) (l : list A) (e : PyError) :
  mapM f l = Raise e → ∃ x, x ∈ l ∧ f x = Raise e.
Proof.
  induction l as [|x l IH]; simpl; [done|].
  destruct (f x) as [y|e'] eqn:Ex; simpl.
  - destruct (mapM f l) as [k|e'] eqn:Ek; simpl; [done|].
    intros [= ->]. destruct (IH eq_refl) as (x' & Hx' & Hf).
    exists x'. split; [by right|done].
  - intros [= ->]. exists x. split; [left|done].
Qed.

(** C8 (amended): whatever store a sequence of [add_to_store] and
    [merge_store] calls leaves behind, [serialise] returns exactly when
    [generate_entity_md] succeeds on every entity target and every entity
    prediction of the store (always, then, for a store without entities);
    what it returns is a targets list and a predictions list of the same
    length: each is the combined action, intent and entity sequence, the
    shorter one extended by copies of the text "None" and the longer one
    unchanged.  When it raises, the error is one that [generate_entity_md]
    raised on an entity of the store. *)
Theorem serialise_equal_length
    (generate_entity_md : option string → EntityDict → result string)
    (store : EvaluationStore) (ops : list StoreOp) :
  let s := run_ops store ops in
  (is_Ok (serialise generate_entity_md s)
   ↔ ∀ e, e ∈ entity_targets s ++ entity_predictions s →
       is_Ok (generate_entity_md (e !! "text") e))
  ∧ (entity_targets s = [] → entity_predictions s = [] →
     is_Ok (serialise generate_entity_md s))
  ∧ (∀ out,
       serialise generate_entity_md s = Ok out →
       length out.1 = length out.2
       ∧ ∃ target_entities predicted_entities,
           Forall2 (entity_md generate_entity_md) (entity_targets s)
             target_entities
           ∧ Forall2 (entity_md generate_entity_md) (entity_predictions s)
               predicted_entities
           ∧ let targets := combined_targets s target_entities in
             let predictions := combined_predictions s predicted_entities in
             length out.1 = length targets `max` length predictions
             ∧ out.1 = targets
                       ++ replicate (length predictions - length targets)
                            (PyStr "None")
             ∧ out.2 = predictions
                       ++ replicate (length targets - length predictions)
                            (PyStr "None"))
  ∧ ∀ err,
      serialise generate_entity_md s = Raise err →
      ∃ e, e ∈ entity_targets s ++ entity_predictions s
           ∧ generate_entity_md (e !! "text") e = Raise err.
Proof.
  intros s.
  assert (Hiff : is_Ok (serialise generate_entity_md s)
                 ↔ ∀ e, e ∈ entity_targets s ++ entity_predictions s →
                     is_Ok (generate_entity_md (e !! "text") e)).
  { unfold serialise. setoid_rewrite elem_of_app. split.
    - intros [out Hout] e He.
      destruct (mapM _ (entity_targets s)) as [ts|] eqn:Et; simpl in Hout;
        [|done].
      destruct (mapM _ (entity_predictions s)) as [ps|] eqn:Ep;
        simpl in Hout; [|done].
      destruct He as [He|He].
      + eapply (mapM_result_is_Ok
                  (λ gold : EntityDict,
                     generate_entity_md (gold !! "text") gold));
          [by rewrite Et; eexists|done].
      + eapply (mapM_result_is_Ok
                  (λ predicted : EntityDict,
                     generate_entity_md (predicted !! "text") predicted));
          [by rewrite Ep; eexists|done].
    - intros Hall.
      destruct (proj2 (mapM_result_is_Ok
                  (λ gold : EntityDict,
                     generate_entity_md (gold !! "text") gold)
                  (entity_targets s))) as [ts ->]; [by auto|].
      destruct (proj2 (mapM_result_is_Ok
                  (λ predicted : EntityDict,
                     generate_entity_md (predicted !! "text") predicted)
                  (entity_predictions s))) as [ps ->]; [by auto|].
      by eexists. }
  split; [exact Hiff|]. split.
  { intros Ht Hp. apply Hiff. rewrite Ht, Hp. intros e He.
    by apply elem_of_nil in He. }
  split.
  - intros out. unfold serialise.
    destruct (mapM _ (entity_targets s)) as [ts|] eqn:Et; simpl; [|done].
    destruct (mapM _ (entity_predictions s)) as [ps|] eqn:Ep; simpl; [|done].
    intros [= <-]. split; [apply pad_lists_to_size_length|].
    exists ts, ps. apply mapM_result_Ok in Et, Ep.
    split; [exact Et|]. split; [exact Ep|].
    unfold pad_lists_to_size, combined_targets, combined_predictions; simpl.
    rewrite length_app, length_replicate.
    repeat split; lia.
  - intros err. unfold serialise. setoid_rewrite elem_of_app.
    destruct (mapM _ (entity_targets s)) as [ts|e1] eqn:Et; simpl.
    + destruct (mapM _ (entity_predictions s)) as [ps|e2] eqn:Ep; simpl;
        [done|].
      intros [= <-]. apply mapM_result_Raise in Ep as (e & He & Hr).
      exists e. by auto.
    + intros [= <-]. apply mapM_result_Raise in Et as (e & He & Hr).
      exists e. by auto.
Qed.

(** C8 as stated fails.  [_clean_entity_results] keeps of an entity only
    the keys it has, so the store that [_collect_user_uttered_predictions]
    builds for an utterance whose entities carry no offsets holds entity
    dicts without ["start"]; [generate_entity_md] looks ["start"] up, and
    [serialise] raises instead of returning two lists. *)
Lemma serialise_raises_counterexample :
  ∃ store update,
    _collect_user_uttered_predictions example_utterance_without_offsets false
    = Ok (store, update)
    ∧ serialise example_generate_entity_md store = Raise (KeyError "start").
Proof. eexists _, _. split; vm_compute; reflexivity. Qed.

(** ** Domain: the state schema *)

Lemma enumerate_snoc {A} (l : list A) (x : A) :
  enumerate (l ++ [x]) = enumerate l ++ [(length l, x)].
Proof.
  unfold enumerate. rewrite imap_app. simpl.
  by rewrite Nat.add_0_r.
Qed.

Lemma state_map_snoc (l : list string) (x : string) :
  foldl (λ (m : gmap string nat) p, <[p.2 := p.1]> m) ∅ (enumerate (l ++ [x]))
  = <[x := length l]>
      (foldl (λ (m : gmap string nat) p, <[p.2 := p.1]> m) ∅ (enumerate l)).
Proof. by rewrite enumerate_snoc, foldl_app. Qed.

Lemma state_map_lookup_Some (l : list string) (s : string) (i : nat) :
  foldl (λ (m : gmap string nat) p, <[p.2 := p.1]> m) ∅ (enumerate l) !! s
  = Some i →
  l !! i = Some s.
Proof.
  induction l as [|x l IH] using rev_ind; intros H.
  - cbn in H. by rewrite lookup_empty in H.
  - rewrite state_map_snoc in H.
    destruct (decide (x = s)) as [->|Hne].
    + rewrite lookup_insert_eq in H. injection H as <-.
      by rewrite lookup_app_r, Nat.sub_diag.
    + rewrite lookup_insert_ne in H by done.
      apply lookup_app_l_Some. by apply IH.
Qed.

Lemma state_map_lookup_is_Some (l : list string) (s : string) :
  s ∈ l →
  is_Some
    (foldl (λ (m : gmap string nat) p, <[p.2 := p.1]> m) ∅ (enumerate l) !! s).
Proof.
  induction l as [|x l IH] using rev_ind; intros H.
  - by apply elem_of_nil in H.
  - rewrite state_map_snoc.
    destruct (decide (x = s)) as [->|Hne].
    + rewrite lookup_insert_eq. by eexists.
    + rewrite lookup_insert_ne by done.
      apply IH. apply elem_of_app in H as [H|H]; [done|].
      apply list_elem_of_singleton in H. congruence.
Qed.

(** C9: the schema length is [num_states]; [index_of_state] sends every
    name of [input_states] to a position below [num_states] (a position
    that holds this name), and every other name to [None]. *)
Theorem index_of_state_in_range (D : Domain) :
  length (input_states D) = num_states D
  ∧ (∀ s, s ∈ input_states D →
       ∃ i, index_of_state D s = Some i
            ∧ i < num_states D
            ∧ input_states D !! i = Some s)
  ∧ (∀ s, s ∉ input_states D → index_of_state D s = None).
Proof.
  split; [reflexivity|]. split.
  - intros s Hs.
    destruct (state_map_lookup_is_Some (input_states D) s Hs) as [i Hi].
    exists i. split; [exact Hi|].
    apply state_map_lookup_Some in Hi.
    split; [|exact Hi].
    unfold num_states. by eapply lookup_lt_Some.
  - intros s Hs. unfold index_of_state, input_state_map.
    destruct (foldl _ _ _ !! s) as [i|] eqn:Hi; [|done].
    apply state_map_lookup_Some in Hi.
    exfalso. apply Hs. by eapply list_elem_of_lookup_2.
Qed.

Lemma index_of_state_in_range_witness :
  ∃ i, index_of_state example_domain "entity_name" = Some i
       ∧ i < num_states example_domain
       ∧ input_states example_domain !! i = Some "entity_name".
Proof.
  apply (proj1 (proj2 (index_of_state_in_range example_domain))).
  apply (bool_decide_unpack _). vm_compute. exact I.
Defined.

(** ** Domain: comparison with a persisted specification *)




(** ** Domain: construction *)

Lemma dict_set_fresh {V} (d : list (string * V)) (k : string) (v : V) :
  k ∉ dict_keys d → dict_set d k v = d ++ [(k, v)].
Proof.
  induction d as [|[k' v'] d IH]; intros Hk; simpl; [done|].
  unfold dict_keys in *. simpl in Hk.
  apply not_elem_of_cons in Hk as [Hne Hk].
  destruct (decide (k' = k)); [congruence|].
  by rewrite IH.
Qed.

Lemma dict_get_NoDup {V} (d : list (string * V)) (k : string) (v : V) :
  NoDup (dict_keys d) → (k, v) ∈ d → dict_get d k = Some v.
Proof.
  unfold dict_keys.
  induction d as [|[k' v'] d IH]; intros Hnd Hin; simpl.
  - by apply elem_of_nil in Hin.
  - simpl in Hnd. apply list.NoDup_cons in Hnd as [Hk' Hnd].
    apply elem_of_cons in Hin as [[= <- <-]|Hin].
    + by destruct (decide (k = k)).
    + destruct (decide (k' = k)) as [->|_]; [|by apply IH].
      exfalso. apply Hk'. apply list_elem_of_fmap. by exists (k, v).
Qed.

Lemma intent_entry_name (i : IntentSpec) :
  (intent_entry i).1 = intent_spec_name i.
Proof. by destruct i. Qed.

Lemma collect_intent_properties_from_step
    (acc : list (string * IntentProperties)) (i : IntentSpec)
    (intents : list IntentSpec) :
  collect_intent_properties_from acc (i :: intents)
  = if decide (intent_spec_name i ∈ dict_keys acc) then
      Raise (InvalidDomain
        ("Intents are not unique! Found two intents with name '"
         +:+ intent_spec_name i
         +:+ "'. Either rename or remove one of them."))
    else collect_intent_properties_from
           (dict_set acc (intent_entry i).1 (intent_entry i).2) intents.
Proof. by destruct i. Qed.

Lemma collect_intent_properties_from_Ok
    (intents : list IntentSpec) (acc props : list (string * IntentProperties)) :
  collect_intent_properties_from acc intents = Ok props
  ↔ NoDup (intent_spec_name <$> intents)
    ∧ (∀ n, n ∈ intent_spec_name <$> intents → n ∉ dict_keys acc)
    ∧ props = acc ++ (intent_entry <$> intents).
Proof.
  revert acc. induction intents as [|i intents IH]; intros acc.
  - simpl. rewrite app_nil_r. split.
    + intros [= <-]. split; [constructor|]. split; [|done].
      intros n Hn. by apply elem_of_nil in Hn.
    + by intros (_ & _ & ->).
  - rewrite collect_intent_properties_from_step.
    rewrite fmap_cons, list.NoDup_cons.
    destruct (decide (intent_spec_name i ∈ dict_keys acc)) as [Hin|Hnin].
    + split; [discriminate|].
      intros (_ & Hfresh & _). exfalso.
      by apply (Hfresh (intent_spec_name i)); [left|].
    + rewrite intent_entry_name, dict_set_fresh by done.
      rewrite IH. unfold dict_keys.
      rewrite fmap_app. simpl.
      assert (Hentry : (intent_spec_name i, (intent_entry i).2) = intent_entry i)
        by (by destruct i).
      rewrite Hentry, <- (app_assoc acc). simpl.
      split.
      * intros (Hnd & Hfresh & ->). split; [split; [|done]|split; [|done]].
        -- intros Hi. apply (Hfresh _ Hi). apply elem_of_app. right.
           by left.
        -- intros n Hn. apply elem_of_cons in Hn as [->|Hn]; [done|].
           intros Hacc. apply (Hfresh _ Hn). apply elem_of_app. by left.
      * intros ((Hi & Hnd) & Hfresh & ->). split; [done|]. split; [|done].
        intros n Hn Hacc. apply elem_of_app in Hacc as [Hacc|Hacc].
        -- by apply (Hfresh n); [right|].
        -- apply list_elem_of_singleton in Hacc. by subst n.
Qed.

Lemma collect_intent_properties_Ok
    (intents : list IntentSpec) (props : list (string * IntentProperties)) :
  collect_intent_properties intents = Ok props
  ↔ NoDup (intent_spec_name <$> intents) ∧ props = intent_entry <$> intents.
Proof.
  unfold collect_intent_properties.
  rewrite collect_intent_properties_from_Ok. simpl. split.
  - by intros (? & _ & ?).
  - intros (? & ?). split; [done|]. split; [|done].
    intros n _ Hn. by apply elem_of_nil in Hn.
Qed.

(** what a successful [Domain.__init__] returns *)
Lemma Domain_init_Ok
    (combine_with_templates :
       list string → list (string * list Template) → list string)
    (combine_user_with_default_actions : list string → list string)
    (intents : list IntentSpec) (entities : list string) (slots : list Slot)
    (templates : list (string * list Template))
    (action_names form_names : list string)
    (store_entities_as_slots : bool) (session_config : SessionConfig)
    (D : Domain) :
  Domain_init combine_with_templates combine_user_with_default_actions
    intents entities slots templates action_names form_names
    store_entities_as_slots session_config = Ok D
  ↔ NoDup (intent_spec_name <$> intents)
    ∧ D = {| intent_properties := intent_entry <$> intents;
             entities := entities;
             form_names := form_names;
             slots := slots;
             templates := templates;
             session_config := session_config;
             user_actions := combine_with_templates action_names templates;
             action_names :=
               combine_user_with_default_actions
                 (combine_with_templates action_names templates)
               ++ form_names;
             store_entities_as_slots := store_entities_as_slots |}
    ∧ _check_domain_sanity D = Ok ().
Proof.
  unfold Domain_init.
  destruct (collect_intent_properties intents) as [props|e] eqn:E; simpl.
  - apply collect_intent_properties_Ok in E as [Hnd ->].
    match goal with
    | |- context [_check_domain_sanity ?d] =>
        destruct (_check_domain_sanity d) as [[]|e] eqn:Es
    end; simpl.
    + split; [by intros [= <-]|by intros (_ & -> & _)].
    + split; [discriminate|]. intros (_ & -> & Hs). congruence.
  - split; [discriminate|]. intros (Hnd & _).
    assert (collect_intent_properties intents = Ok (intent_entry <$> intents))
      by (by apply collect_intent_properties_Ok).
    congruence.
Qed.

(** ** Domain: entities both included and excluded *)

Lemma without_entity_lists_names (intents : list IntentSpec) :
  intent_spec_name <$> (without_entity_lists <$> intents)
  = intent_spec_name <$> intents.
Proof.
  rewrite <- list_fmap_compose. apply list_fmap_ext.
  intros _ [?|??] _; reflexivity.
Qed.

Lemma check_mappings_without_entity_lists
    (action_names : list string) (intents : list IntentSpec) :
  check_mappings action_names
    (intent_entry <$> (without_entity_lists <$> intents))
  = check_mappings action_names (intent_entry <$> intents).
Proof.
  unfold check_mappings.
  induction intents as [|[n|n p] intents IH]; csimpl; [done| |];
    by rewrite IH.
Qed.

Lemma featurized_entities_of_listed_intent
    (D : Domain) (msg : UserUttered) (name : string)
    (props : IntentProperties) (L : list string) (x : string) :
  intent_name (msg_intent msg) = Some name →
  dict_get (intent_properties D) name = Some props →
  use_entities props = UseList L →
  x ∈ L → x ∈ ignore_entities props →
  (x ∉ fst (_get_featurized_entities D msg))
  ∧ snd (_get_featurized_entities D msg)
    = [AmbiguousEntitiesWarning (Some name)
         (list_to_set L ∩ list_to_set (ignore_entities props))]
  ∧ x ∈ (list_to_set L ∩ list_to_set (ignore_entities props) : gset string).
Proof.
  intros Hname Hget Huse HL HI.
  unfold _get_featurized_entities, intent_config.
  rewrite Hname. simpl. rewrite Hget. simpl. rewrite Huse. simpl.
  assert (Hx : x ∈ (list_to_set L ∩ list_to_set (ignore_entities props)
                    : gset string))
    by (apply elem_of_intersection; by rewrite !elem_of_list_to_set).
  split; [|split; [|exact Hx]].
  - rewrite elem_of_intersection, elem_of_difference.
    rewrite !elem_of_list_to_set. tauto.
  - rewrite bool_decide_true; [done|].
    intros Hempty. rewrite Hempty in Hx. by apply elem_of_empty in Hx.
Qed.

(** Construction itself raises no warning about ambiguous entities: the
    warnings of [from_dict] concern template strings and the session
    configuration only. *)
Lemma validate_variations_warnings (template_key : string)
    (variations validated : list Template) (ws : list Warning) :
  validate_variations template_key variations = Ok (validated, ws) →
  Forall not_ambiguity_warning ws.
Proof.
  revert validated ws.
  induction variations as [|t variations IH]; intros validated ws; simpl.
  - intros [= _ <-]. constructor.
  - destruct t as [text|d]; simpl.
    + destruct (validate_variations template_key variations)
        as [[rest ws']|]; simpl; [|done].
      intros [= _ <-]. constructor; [done|]. by eapply IH.
    + destruct (decide _); simpl; [done|].
      destruct (validate_variations template_key variations)
        as [[rest ws']|]; simpl; [|done].
      intros [= _ <-]. by eapply IH.
Qed.

Lemma collect_templates_from_warnings
    (yml : list (string * option (list Template)))
    (acc templates : list (string * list Template)) (ws : list Warning) :
  collect_templates_from acc yml = Ok (templates, ws) →
  Forall not_ambiguity_warning ws.
Proof.
  revert acc templates ws.
  induction yml as [|[k [variations|]] yml IH]; intros acc templates ws; simpl.
  - intros [= _ <-]. constructor.
  - destruct (validate_variations k variations) as [[validated ws1]|] eqn:Ev;
      simpl; [|done].
    destruct (collect_templates_from _ yml) as [[templates' ws2]|] eqn:E;
      simpl; [|done].
    intros [= _ <-]. apply Forall_app. split.
    + by eapply validate_variations_warnings.
    + by eapply IH.
  - done.
Qed.

Lemma from_dict_warnings
    (DEFAULT_CARRY_OVER_SLOTS_TO_NEW_SESSION : bool)
    (combine_with_templates :
       list string → list (string * list Template) → list string)
    (combine_user_with_default_actions : list string → list string)
    (data : DomainDict) (D : Domain) (ws : list Warning) :
  from_dict DEFAULT_CARRY_OVER_SLOTS_TO_NEW_SESSION combine_with_templates
    combine_user_with_default_actions data = Ok (D, ws) →
  Forall not_ambiguity_warning ws.
Proof.
  unfold from_dict.
  destruct (collect_templates (dd_responses data)) as [[T ws1]|] eqn:HT;
    simpl; [|done].
  destruct (_get_session_config DEFAULT_CARRY_OVER_SLOTS_TO_NEW_SESSION
              (dd_session_expiration_time data) (dd_carry_over_slots data))
    as [sc ws2] eqn:Hsc.
  destruct (Domain_init _ _ _ _ _ _ _ _ _ _) as [D'|]; simpl; [|done].
  intros [= _ <-]. apply Forall_app. split.
  - by eapply collect_templates_from_warnings.
  - revert Hsc. unfold _get_session_config.
    destruct (dd_session_expiration_time data); intros [= _ <-];
      repeat constructor.
Qed.

(** C6 (amended): whether [Domain.__init__] succeeds does not depend on
    the include and exclude lists of the intents, so listing an entity in
    both is no error; constructing a domain from a document raises no
    warning about such an entity; and in a domain so constructed, for an
    intent whose [use_entities] is a list [L] and whose [ignore_entities]
    is a list [I], an entity [x] in both is never among the featurized
    entities of a message with that intent, while featurizing the message
    is what raises the warning, which names the entities of [L ∩ I]. *)
Theorem ambiguous_entities_are_excluded
    (combine_with_templates :
       list string → list (string * list Template) → list string)
    (combine_user_with_default_actions : list string → list string)
    (intents : list IntentSpec) (entities : list string) (slots : list Slot)
    (templates : list (string * list Template))
    (action_names form_names : list string)
    (store_entities_as_slots : bool) (session_config : SessionConfig) :
  (is_Ok (Domain_init combine_with_templates
            combine_user_with_default_actions intents entities slots
            templates action_names form_names store_entities_as_slots
            session_config)
   ↔ is_Ok (Domain_init combine_with_templates
              combine_user_with_default_actions
              (without_entity_lists <$> intents) entities slots templates
              action_names form_names store_entities_as_slots
              session_config))
  ∧ (∀ (DEFAULT_CARRY_OVER_SLOTS_TO_NEW_SESSION : bool) (data : DomainDict)
       (D : Domain) (warnings : list Warning),
       from_dict DEFAULT_CARRY_OVER_SLOTS_TO_NEW_SESSION
         combine_with_templates combine_user_with_default_actions data
       = Ok (D, warnings) →
       Forall not_ambiguity_warning warnings)
  ∧ ∀ (D : Domain) (name : string) (L I : list string)
      (action : option string) (x : string) (msg : UserUttered),
      Domain_init combine_with_templates combine_user_with_default_actions
        intents entities slots templates action_names form_names
        store_entities_as_slots session_config = Ok D →
      IntentDict name {| raw_use_entities := RawList L;
                         raw_ignore_entities := Some I;
                         raw_triggers := action |} ∈ intents →
      x ∈ L → x ∈ I →
      intent_name (msg_intent msg) = Some name →
      (x ∉ fst (_get_featurized_entities D msg))
      ∧ snd (_get_featurized_entities D msg)
        = [AmbiguousEntitiesWarning (Some name)
             (list_to_set L ∩ list_to_set I)]
      ∧ x ∈ (list_to_set L ∩ list_to_set I : gset string).
Proof.
  split; [|split].
  - unfold is_Ok. split; intros [D HD]; apply Domain_init_Ok in HD
      as (Hnd & -> & Hsane); eexists; apply Domain_init_Ok.
    + rewrite without_entity_lists_names. split; [done|].
      split; [reflexivity|].
      revert Hsane. unfold _check_domain_sanity. simpl.
      by rewrite check_mappings_without_entity_lists.
    + rewrite without_entity_lists_names in Hnd. split; [done|].
      split; [reflexivity|].
      revert Hsane. unfold _check_domain_sanity. simpl.
      by rewrite check_mappings_without_entity_lists.
  - intros DEFAULT data D warnings. apply from_dict_warnings.
  - intros D name L I action x msg HD Hin HL HI Hname.
    apply Domain_init_Ok in HD as (Hnd & -> & _).
    pose (props := {| use_entities := UseList L; ignore_entities := I;
                      triggers := action |}).
    apply (featurized_entities_of_listed_intent _ msg name props L x);
      try done.
    simpl. apply dict_get_NoDup.
    + unfold dict_keys. rewrite <- list_fmap_compose.
      erewrite list_fmap_ext; [exact Hnd|].
      intros _ i _. apply intent_entry_name.
    + apply list_elem_of_fmap. eexists. split; [|exact Hin]. reflexivity.
Qed.

Lemma ambiguous_entities_are_excluded_witness :
  ("city" ∉ fst (_get_featurized_entities example_constructed_domain
                   example_message))
  ∧ snd (_get_featurized_entities example_constructed_domain example_message)
    = [AmbiguousEntitiesWarning (Some "greet")
         (list_to_set ["city"; "name"] ∩ list_to_set ["city"])]
  ∧ "city" ∈ (list_to_set ["city"; "name"] ∩ list_to_set ["city"]
              : gset string).
Proof.
  apply (proj2 (proj2 (ambiguous_entities_are_excluded
                  example_combine_with_templates
                  example_combine_user_with_default_actions
                  example_intents ["city"; "name"] [] [] ["utter_greet"] []
                  true example_session_config))
               example_constructed_domain "greet" ["city"; "name"] ["city"]
               None "city" example_message).
  - vm_compute. reflexivity.
  - left.
  - left.
  - left.
  - reflexivity.
Defined.

(** C6 as stated fails.  The intent [greet] of the document lists [city]
    both under [use_entities] and under [ignore_entities]; the domain is
    constructed, and no warning at all is raised on the way.  The warning
    comes later, when a message with the intent [greet] is featurized. *)
Lemma construction_raises_no_warning_counterexample :
  IntentDict "greet" {| raw_use_entities := RawList ["city"; "name"];
                        raw_ignore_entities := Some ["city"];
                        raw_triggers := None |}
    ∈ dd_intents example_ambiguous_domain_dict
  ∧ "city" ∈ ["city"; "name"] ∧ "city" ∈ ["city"]
  ∧ from_dict true example_combine_with_templates
      example_combine_user_with_default_actions example_ambiguous_domain_dict
    = Ok (example_constructed_domain, [])
  ∧ snd (_get_featurized_entities example_constructed_domain example_message)
    = [AmbiguousEntitiesWarning (Some "greet") {[ "city" ]}].
Proof.
  split; [left|]. split; [left|]. split; [left|].
  split; vm_compute; reflexivity.
Qed.

(** ** Domain: the parsing states of an excluded entity *)

Lemma set_entity_states_lookup (names : list string)
    (state_dict : gmap string Qc) (k : string) :
  (∀ n, n ∈ names → "entity_" +:+ n ≠ k) →
  set_entity_states names state_dict !! k = state_dict !! k.
Proof.
  unfold set_entity_states. revert state_dict.
  induction names as [|n names IH]; intros state_dict Hk; cbn [foldl];
    [done|].
  rewrite IH by (intros n' Hn'; apply Hk; by right).
  apply lookup_insert_ne. apply Hk. left.
Qed.

Lemma set_slot_features_lookup (key : string) (features : list (nat * Qc))
    (state_dict : gmap string Qc) (k : string) :
  (∀ s, "slot_" +:+ s ≠ k) →
  foldl (λ (sd' : gmap string Qc) iv,
           if decide (iv.2 ≠ 0%Qc)
           then <["slot_" +:+ key +:+ "_" +:+ pretty iv.1 := iv.2]> sd'
           else sd')
        state_dict features !! k
  = state_dict !! k.
Proof.
  intros Hk. revert state_dict.
  induction features as [|[i v] features IH]; intros state_dict;
    cbn [foldl]; [done|].
  rewrite IH. cbn [snd fst]. destruct (decide (v ≠ 0%Qc)); [|done].
  apply lookup_insert_ne, Hk.
Qed.

Lemma set_slot_states_lookup (tracker_slots : list (string * option (list Qc)))
    (state_dict : gmap string Qc) (k : string) :
  (∀ s, "slot_" +:+ s ≠ k) →
  set_slot_states tracker_slots state_dict !! k = state_dict !! k.
Proof.
  intros Hk. unfold set_slot_states. revert state_dict.
  induction tracker_slots as [|[key [features|]] slots IH];
    intros state_dict; cbn [foldl]; [done| |apply IH].
  rewrite IH. cbn [snd fst]. by apply set_slot_features_lookup.
Qed.

Lemma set_ranking_states_lookup (ranking : list Intent)
    (state_dict state_dict' : gmap string Qc) (k : string) :
  (∀ s, "intent_" +:+ s ≠ k) →
  set_ranking_states ranking state_dict = Ok state_dict' →
  state_dict' !! k = state_dict !! k.
Proof.
  intros Hk. revert state_dict.
  induction ranking as [|i ranking IH]; intros state_dict; simpl.
  - by intros [= <-].
  - destruct (truthy (intent_name i)); [|apply IH].
    destruct (intent_confidence i) as [c|]; [|done].
    intros H. rewrite (IH _ H). apply lookup_insert_ne, Hk.
Qed.

(** The state [entity_x] of an entity [x] that an intent both includes and
    excludes is not among the parsing states of a message with that
    intent. *)
Lemma ambiguous_entity_state_not_set
    (D : Domain) (tracker : DialogueStateTracker) (msg : UserUttered)
    (name : string) (props : IntentProperties) (L : list string) (x : string)
    (state_dict : gmap string Qc) (warnings : list Warning) :
  latest_message tracker = Some msg →
  intent_name (msg_intent msg) = Some name →
  dict_get (intent_properties D) name = Some props →
  use_entities props = UseList L →
  x ∈ L → x ∈ ignore_entities props →
  get_parsing_states D tracker = Ok (state_dict, warnings) →
  state_dict !! ("entity_" +:+ x) = None.
Proof.
  intros Hmsg Hname Hget Huse HL HI.
  destruct (featurized_entities_of_listed_intent D msg name props L x
              Hname Hget Huse HL HI) as (Hx & _ & _).
  unfold get_parsing_states. rewrite Hmsg, Hname.
  destruct (_get_featurized_entities D msg) as [names ws]. simpl in Hx.
  assert (Hslot : ∀ s, "slot_" +:+ s ≠ "entity_" +:+ x) by done.
  assert (Hintent : ∀ s, "intent_" +:+ s ≠ "entity_" +:+ x) by done.
  assert (Hentity :
            set_slot_states (tracker_slots tracker)
              (set_entity_states (elements names) ∅) !! ("entity_" +:+ x)
            = None).
  { rewrite set_slot_states_lookup by done.
    rewrite set_entity_states_lookup; [apply lookup_empty|].
    intros n Hn Heq. simplify_eq/=. by apply elem_of_elements in Hn. }
  destruct (truthy (Some name)); simpl.
  - destruct (msg_intent_ranking msg) as [ranking|].
    + destruct (set_ranking_states ranking _) as [sd|] eqn:Hr; simpl; [|done].
      intros [= <- _]. by rewrite (set_ranking_states_lookup _ _ _ _ Hintent Hr).
    + intros [= <- _]. by rewrite lookup_insert_ne.
  - destruct (msg_intent_ranking msg) as [ranking|].
    + destruct (set_ranking_states ranking _) as [sd|] eqn:Hr; simpl; [|done].
      intros [= <- _]. rewrite (set_ranking_states_lookup _ _ _ _ Hintent Hr).
      by rewrite set_slot_states_lookup.
    + intros [= <- _]. by rewrite set_slot_states_lookup.
Qed.

(** ** Domain: merge *)

Lemma sorted_set_elem_of (l : list string) (x : string) :
  x ∈ sorted_set l ↔ x ∈ l.
Proof.
  unfold sorted_set, sorted.
  rewrite (merge_sort_Permutation str_le).
  by rewrite elem_of_elements, elem_of_list_to_set.
Qed.

Lemma merge_lists_elem_of (l1 l2 : list string) (x : string) :
  x ∈ merge_lists l1 l2 ↔ x ∈ l1 ∨ x ∈ l2.
Proof. unfold merge_lists. by rewrite sorted_set_elem_of, elem_of_app. Qed.

Lemma merge_lists_comm (l1 l2 : list string) :
  same_set (merge_lists l1 l2) (merge_lists l2 l1).
Proof. intros x. rewrite !merge_lists_elem_of. tauto. Qed.

Lemma dict_set_keys {V} (d : list (string * V)) (k : string) (v : V)
    (x : string) :
  x ∈ dict_keys (dict_set d k v) ↔ x = k ∨ x ∈ dict_keys d.
Proof.
  unfold dict_keys. induction d as [|[k' v'] d IH]; simpl.
  - rewrite list_elem_of_singleton, elem_of_nil. tauto.
  - destruct (decide (k' = k)) as [-> |Hne]; simpl.
    + rewrite !elem_of_cons. tauto.
    + rewrite !elem_of_cons, IH. tauto.
Qed.

Lemma dict_update_keys {V} (b a : list (string * V)) (x : string) :
  x ∈ dict_keys (dict_update a b) ↔ x ∈ dict_keys a ∨ x ∈ dict_keys b.
Proof.
  unfold dict_update. revert a.
  induction b as [|[k v] b IH]; intros a; simpl.
  - unfold dict_keys. simpl. rewrite elem_of_nil. tauto.
  - rewrite IH, dict_set_keys. unfold dict_keys. simpl.
    rewrite elem_of_cons. tauto.
Qed.

Lemma merge_dicts_keys {V} (d1 d2 : list (string * V)) (o : bool)
    (x : string) :
  x ∈ dict_keys (merge_dicts d1 d2 o) ↔ x ∈ dict_keys d1 ∨ x ∈ dict_keys d2.
Proof.
  unfold merge_dicts. destruct o; rewrite dict_update_keys; tauto.
Qed.

Lemma collect_templates_from_keys
    (yml : list (string * option (list Template)))
    (acc templates : list (string * list Template)) (ws : list Warning)
    (x : string) :
  collect_templates_from acc yml = Ok (templates, ws) →
  x ∈ dict_keys templates ↔ x ∈ dict_keys acc ∨ x ∈ dict_keys yml.
Proof.
  revert acc templates ws.
  induction yml as [|[k [variations|]] yml IH]; intros acc templates ws; simpl.
  - intros [= <- <-]. unfold dict_keys. simpl. rewrite elem_of_nil. tauto.
  - destruct (validate_variations k variations) as [[validated ws1]|];
      simpl; [|done].
    destruct (collect_templates_from _ yml) as [[templates' ws2]|] eqn:E;
      simpl; [|done].
    intros [= <- <-]. rewrite (IH _ _ _ E), dict_set_keys.
    unfold dict_keys. simpl. rewrite elem_of_cons. tauto.
  - done.
Qed.

Lemma list_remove_elem_of (y : string) (l : list string) (x : string) :
  x ∈ list_remove y l → x ∈ l.
Proof.
  induction l as [|z l IH]; simpl; [done|].
  destruct (decide (z = y)); [by right|].
  rewrite !elem_of_cons. tauto.
Qed.

Lemma list_remove_elem_of_ne (y : string) (l : list string) (x : string) :
  x ∈ l → x ≠ y → x ∈ list_remove y l.
Proof.
  induction l as [|z l IH]; simpl; [done|]. intros Hx Hne.
  apply elem_of_cons in Hx as [Hx|Hx].
  - subst z. destruct (decide (x = y)); [done|left].
  - destruct (decide (z = y)); [done|]. right. by apply IH.
Qed.

Lemma remove_existing_forms_elem_of (forms actions : list string) (x : string) :
  x ∈ remove_existing_forms forms actions → x ∈ actions.
Proof.
  unfold remove_existing_forms. revert actions.
  induction forms as [|f forms IH]; intros actions; simpl; [done|].
  intros H. apply IH in H. destruct (decide (f ∈ actions)); [|done].
  by eapply list_remove_elem_of.
Qed.

Lemma remove_existing_forms_keeps (forms actions : list string) (x : string) :
  x ∈ actions → x ∉ forms → x ∈ remove_existing_forms forms actions.
Proof.
  unfold remove_existing_forms. revert actions.
  induction forms as [|f forms IH]; intros actions Hx Hnf; simpl; [done|].
  apply not_elem_of_cons in Hnf as [Hne Hnf].
  apply IH; [|done].
  destruct (decide (f ∈ actions)); [|done].
  by apply list_remove_elem_of_ne.
Qed.

Lemma first_occurrences_elem_of (l : list string) (x : string) :
  x ∈ first_occurrences l ↔ x ∈ l.
Proof.
  induction l as [|a l IH]; simpl; [done|].
  rewrite !elem_of_cons, list_elem_of_filter, IH.
  destruct (decide (x = a)); tauto.
Qed.

Lemma get_duplicates_elem_of (l : list string) (x : string) :
  x ∈ get_duplicates l ↔ x ∈ l ∧ 1 < length (filter (λ y, y = x) l).
Proof.
  unfold get_duplicates.
  rewrite list_elem_of_filter, first_occurrences_elem_of. tauto.
Qed.

Lemma get_duplicates_nil_NoDup (l : list string) :
  get_duplicates l = [] → NoDup l.
Proof.
  intros Hnil.
  assert (Hnone : ∀ x, x ∈ l → ¬ 1 < length (filter (λ y, y = x) l)).
  { intros x Hx Hc.
    assert (x ∈ get_duplicates l) by (by apply get_duplicates_elem_of).
    rewrite Hnil in *. by eapply elem_of_nil. }
  clear Hnil. induction l as [|a l IH]; [constructor|].
  apply list.NoDup_cons. split.
  - intros Ha. apply (Hnone a); [left|].
    rewrite filter_cons. destruct (decide (a = a)); [|done]. simpl.
    assert (a ∈ filter (λ y, y = a) l) by (by apply list_elem_of_filter).
    destruct (filter (λ y, y = a) l); [by apply elem_of_nil in H|simpl; lia].
  - apply IH. intros x Hx Hc. apply (Hnone x); [by right|].
    rewrite filter_cons. destruct (decide (a = x)); simpl; lia.
Qed.

Lemma _check_domain_sanity_Ok (D : Domain) :
  _check_domain_sanity D = Ok () → NoDup (action_names D).
Proof.
  unfold _check_domain_sanity. intros H.
  apply get_duplicates_nil_NoDup.
  by destruct (get_duplicates (action_names D)).
Qed.

Lemma as_dict_responses_keys (D : Domain) (x : string) :
  x ∈ dict_keys (dd_responses (as_dict D)) ↔ x ∈ dict_keys (templates D).
Proof.
  unfold dict_keys. simpl. rewrite <- list_fmap_compose.
  by erewrite list_fmap_ext; [|intros i [k v] _; reflexivity].
Qed.

Lemma from_dict_Ok_inv
    (DEFAULT_CARRY_OVER_SLOTS_TO_NEW_SESSION : bool)
    (combine_with_templates :
       list string → list (string * list Template) → list string)
    (combine_user_with_default_actions : list string → list string)
    (data : DomainDict) (M : Domain) (ws : list Warning) :
  from_dict DEFAULT_CARRY_OVER_SLOTS_TO_NEW_SESSION combine_with_templates
    combine_user_with_default_actions data = Ok (M, ws) →
  ∃ T ws1 session_config,
    collect_templates (dd_responses data) = Ok (T, ws1)
    ∧ Domain_init combine_with_templates combine_user_with_default_actions
        (dd_intents data) (dd_entities data) (collect_slots (dd_slots data))
        T (dd_actions data) (dd_forms data)
        (dd_store_entities_as_slots data) session_config = Ok M.
Proof.
  unfold from_dict.
  destruct (collect_templates (dd_responses data)) as [[T ws1]|]; simpl;
    [|done].
  destruct (_get_session_config DEFAULT_CARRY_OVER_SLOTS_TO_NEW_SESSION
              (dd_session_expiration_time data) (dd_carry_over_slots data))
    as [sc ws2].
  destruct (Domain_init _ _ _ _ _ _ _ _ _ _) as [D|] eqn:HD; simpl; [|done].
  intros [= <- <-]. by exists T, ws1, sc.
Qed.

(** what a successful [merge] returns *)
Lemma merge_Ok_inv
    (DEFAULT_CARRY_OVER_SLOTS_TO_NEW_SESSION : bool)
    (combine_with_templates :
       list string → list (string * list Template) → list string)
    (combine_user_with_default_actions : list string → list string)
    (A B M : Domain) (override : bool) (B' : option Domain)
    (ws : list Warning) :
  merge DEFAULT_CARRY_OVER_SLOTS_TO_NEW_SESSION combine_with_templates
    combine_user_with_default_actions A (Some B) override = Ok (M, B', ws) →
  ∃ T,
    (∀ x, x ∈ dict_keys T
          ↔ x ∈ dict_keys (templates A) ∨ x ∈ dict_keys (templates B))
    ∧ entities M = merge_lists (entities A) (entities B)
    ∧ form_names M = merge_lists (form_names A) (form_names B)
    ∧ user_actions M
      = combine_with_templates
          (merge_lists (user_actions A)
             (remove_existing_forms (form_names A) (user_actions B))) T
    ∧ action_names M
      = combine_user_with_default_actions (user_actions M) ++ form_names M
    ∧ NoDup (action_names M)
    ∧ B' = Some (with_user_actions B
                   (remove_existing_forms (form_names A) (user_actions B))).
Proof.
  unfold merge.
  destruct (override || bool_decide _);
    (destruct (from_dict _ _ _ _) as [[D ws']|] eqn:Hfd; simpl; [|done];
     intros [= <- <- <-];
     apply from_dict_Ok_inv in Hfd as (T & ws1 & sc & HT & HD);
     apply Domain_init_Ok in HD as (_ & -> & Hsane);
     apply _check_domain_sanity_Ok in Hsane;
     exists T; split;
       [intros x; unfold collect_templates in HT;
        rewrite (collect_templates_from_keys _ _ _ _ x HT);
        cbn [dd_responses];
        rewrite merge_dicts_keys, !as_dict_responses_keys;
        unfold dict_keys at 1; rewrite elem_of_nil; tauto
       |done]).
Qed.

Lemma example_combine_with_templates_contract :
  combine_with_templates_contract example_combine_with_templates.
Proof.
  intros actions templates x. unfold example_combine_with_templates.
  rewrite elem_of_app, list_elem_of_filter.
  unfold sorted. rewrite (merge_sort_Permutation str_le).
  destruct (decide (x ∈ actions)); tauto.
Qed.

Lemma example_combine_user_with_default_actions_contract :
  combine_user_with_default_actions_contract example_default_action_names
    example_combine_user_with_default_actions.
Proof.
  intros user_actions x. unfold example_combine_user_with_default_actions.
  rewrite elem_of_app, list_elem_of_filter.
  destruct (decide (x ∈ example_default_action_names)); tauto.
Qed.

(** an action of one fragment that is a form of the other cannot survive a
    successful merge: it would be listed twice *)
Lemma merged_action_not_form
    (combine_user_with_default_actions : list string → list string)
    (default_action_names : list string) (M : Domain) (x : string) :
  combine_user_with_default_actions_contract default_action_names
    combine_user_with_default_actions →
  action_names M
  = combine_user_with_default_actions (user_actions M) ++ form_names M →
  NoDup (action_names M) →
  x ∈ user_actions M → x ∉ form_names M.
Proof.
  intros Hc -> Hnd Hx.
  apply list.NoDup_app in Hnd as (_ & Hdisj & _).
  apply Hdisj, Hc. by right.
Qed.

(** C4: if merging [A] with [B] and merging [B] with [A] both succeed
    (whatever the override flags), the two results list the same actions,
    the same entities and the same forms; the contracts say that the two
    external helpers produce the user actions from the listed actions and
    the template names, and the action names from the defaults and the user
    actions. *)
Theorem merge_is_order_independent
    (DEFAULT_CARRY_OVER_SLOTS_TO_NEW_SESSION : bool)
    (combine_with_templates :
       list string → list (string * list Template) → list string)
    (combine_user_with_default_actions : list string → list string)
    (default_action_names : list string)
    (A B M1 M2 : Domain) (override1 override2 : bool)
    (B' A' : option Domain) (ws1 ws2 : list Warning) :
  combine_with_templates_contract combine_with_templates →
  combine_user_with_default_actions_contract default_action_names
    combine_user_with_default_actions →
  merge DEFAULT_CARRY_OVER_SLOTS_TO_NEW_SESSION combine_with_templates
    combine_user_with_default_actions A (Some B) override1
  = Ok (M1, B', ws1) →
  merge DEFAULT_CARRY_OVER_SLOTS_TO_NEW_SESSION combine_with_templates
    combine_user_with_default_actions B (Some A) override2
  = Ok (M2, A', ws2) →
  same_set (user_actions M1) (user_actions M2)
  ∧ same_set (action_names M1) (action_names M2)
  ∧ same_set (entities M1) (entities M2)
  ∧ same_set (form_names M1) (form_names M2).
Proof.
  intros Hcwt Hcuwda H1 H2.
  apply merge_Ok_inv in H1 as (T1 & HT1 & He1 & Hf1 & Hu1 & Ha1 & Hnd1 & _).
  apply merge_Ok_inv in H2 as (T2 & HT2 & He2 & Hf2 & Hu2 & Ha2 & Hnd2 & _).
  assert (Hforms : same_set (form_names M1) (form_names M2))
    by (rewrite Hf1, Hf2; apply merge_lists_comm).
  assert (Hents : same_set (entities M1) (entities M2))
    by (rewrite He1, He2; apply merge_lists_comm).
  assert (Hnf1 := λ x, merged_action_not_form _ _ M1 x Hcuwda Ha1 Hnd1).
  assert (Hnf2 := λ x, merged_action_not_form _ _ M2 x Hcuwda Ha2 Hnd2).
  assert (Hacts : same_set (user_actions M1) (user_actions M2)).
  { intros x. split; intros Hx.
    - assert (Hxf : x ∉ form_names M1) by (by apply Hnf1).
      rewrite Hf1, merge_lists_elem_of in Hxf.
      rewrite Hu1 in Hx. apply Hcwt in Hx.
      rewrite Hu2. apply Hcwt. rewrite merge_lists_elem_of in *.
      destruct Hx as [[Hx|Hx]|Hx].
      + left. right. apply remove_existing_forms_keeps; tauto.
      + left. left. by eapply remove_existing_forms_elem_of.
      + right. apply HT2. apply HT1 in Hx. tauto.
    - assert (Hxf : x ∉ form_names M2) by (by apply Hnf2).
      rewrite Hf2, merge_lists_elem_of in Hxf.
      rewrite Hu2 in Hx. apply Hcwt in Hx.
      rewrite Hu1. apply Hcwt. rewrite merge_lists_elem_of in *.
      destruct Hx as [[Hx|Hx]|Hx].
      + left. right. apply remove_existing_forms_keeps; tauto.
      + left. left. by eapply remove_existing_forms_elem_of.
      + right. apply HT1. apply HT2 in Hx. tauto. }
  split; [exact Hacts|]. split; [|done].
  intros x. rewrite Ha1, Ha2, !elem_of_app.
  rewrite (Hcuwda (user_actions M1) x), (Hcuwda (user_actions M2) x).
  rewrite (Hacts x), (Hforms x). tauto.
Qed.

(** The same holds when the two merges are run one after the other on the
    same objects, the second seeing [B] as the first one left it. *)
Lemma sequential_merges_agree
    (DEFAULT_CARRY_OVER_SLOTS_TO_NEW_SESSION : bool)
    (combine_with_templates :
       list string → list (string * list Template) → list string)
    (combine_user_with_default_actions : list string → list string)
    (default_action_names : list string)
    (A B B' M1 M2 : Domain) (override1 override2 : bool)
    (A' : option Domain) (ws1 ws2 : list Warning) :
  combine_with_templates_contract combine_with_templates →
  combine_user_with_default_actions_contract default_action_names
    combine_user_with_default_actions →
  merge DEFAULT_CARRY_OVER_SLOTS_TO_NEW_SESSION combine_with_templates
    combine_user_with_default_actions A (Some B) override1
  = Ok (M1, Some B', ws1) →
  merge DEFAULT_CARRY_OVER_SLOTS_TO_NEW_SESSION combine_with_templates
    combine_user_with_default_actions B' (Some A) override2
  = Ok (M2, A', ws2) →
  same_set (user_actions M1) (user_actions M2)
  ∧ same_set (action_names M1) (action_names M2)
  ∧ same_set (entities M1) (entities M2)
  ∧ same_set (form_names M1) (form_names M2).
Proof.
  intros Hcwt Hcuwda H1 H2.
  apply merge_Ok_inv in H1 as (T1 & HT1 & He1 & Hf1 & Hu1 & Ha1 & Hnd1 & HB').
  injection HB' as ->.
  apply merge_Ok_inv in H2 as (T2 & HT2 & He2 & Hf2 & Hu2 & Ha2 & Hnd2 & _).
  simpl in *.
  assert (Hforms : same_set (form_names M1) (form_names M2))
    by (rewrite Hf1, Hf2; apply merge_lists_comm).
  assert (Hents : same_set (entities M1) (entities M2))
    by (rewrite He1, He2; apply merge_lists_comm).
  assert (Hnf1 := λ x, merged_action_not_form _ _ M1 x Hcuwda Ha1 Hnd1).
  assert (Hacts : same_set (user_actions M1) (user_actions M2)).
  { intros x. split; intros Hx.
    - assert (Hxf : x ∉ form_names M1) by (by apply Hnf1).
      rewrite Hf1, merge_lists_elem_of in Hxf.
      rewrite Hu1 in Hx. apply Hcwt in Hx.
      rewrite Hu2. apply Hcwt. rewrite merge_lists_elem_of in *.
      destruct Hx as [[Hx|Hx]|Hx].
      + left. right. apply remove_existing_forms_keeps; tauto.
      + by left; left.
      + right. apply HT2. apply HT1 in Hx. tauto.
    - rewrite Hu2 in Hx. apply Hcwt in Hx.
      rewrite Hu1. apply Hcwt. rewrite merge_lists_elem_of in *.
      destruct Hx as [[Hx|Hx]|Hx].
      + by left; right.
      + left. left. by eapply remove_existing_forms_elem_of.
      + right. apply HT1. apply HT2 in Hx. tauto. }
  split; [exact Hacts|]. split; [|done].
  intros x. rewrite Ha1, Ha2, !elem_of_app.
  rewrite (Hcuwda (user_actions M1) x), (Hcuwda (user_actions M2) x).
  rewrite (Hacts x), (Hforms x). tauto.
Qed.

Lemma merge_is_order_independent_witness :
  match merge true example_combine_with_templates
          example_combine_user_with_default_actions
          example_fragment_A (Some example_fragment_B) false,
        merge true example_combine_with_templates
          example_combine_user_with_default_actions
          example_fragment_B (Some example_fragment_A) false
  with
  | Ok (M1, _, _), Ok (M2, _, _) =>
      same_set (user_actions M1) (user_actions M2)
      ∧ same_set (action_names M1) (action_names M2)
      ∧ same_set (entities M1) (entities M2)
      ∧ same_set (form_names M1) (form_names M2)
  | _, _ => False
  end.
Proof.
  destruct (merge true example_combine_with_templates
              example_combine_user_with_default_actions
              example_fragment_A (Some example_fragment_B) false)
    as [[[M1 B'] ws1]|e1] eqn:E1; [|vm_compute in E1; discriminate].
  destruct (merge true example_combine_with_templates
              example_combine_user_with_default_actions
              example_fragment_B (Some example_fragment_A) false)
    as [[[M2 A'] ws2]|e2] eqn:E2; [|vm_compute in E2; discriminate].
  exact (merge_is_order_independent true example_combine_with_templates
           example_combine_user_with_default_actions
           example_default_action_names
           example_fragment_A example_fragment_B M1 M2 false false B' A'
           ws1 ws2 example_combine_with_templates_contract
           example_combine_user_with_default_actions_contract E1 E2).
Defined.

(** Without the proviso the two orders differ: an action of the argument
    that is a form of [self] is dropped, while in the other order it stays
    and clashes with the form. *)
Example merge_succeeds_in_one_order_only :
  (∃ M ws,
     merge true example_combine_with_templates
       example_combine_user_with_default_actions
       example_fragment_A (Some example_fragment_B_form_as_action) false
     = Ok (M, Some (with_user_actions example_fragment_B
                      ["action_search"; "utter_bye"]), ws)
     ∧ user_actions M = ["action_search"; "utter_bye"; "utter_greet"])
  ∧ merge true example_combine_with_templates
      example_combine_user_with_default_actions
      example_fragment_B_form_as_action (Some example_fragment_A) false
    = Raise (InvalidDomain
        ("Duplicate actions in domain. These actions occur more than once "
         +:+ "in the domain: 'restaurant_form'.")).
Proof.
  split; [|vm_compute; reflexivity].
  destruct (merge true example_combine_with_templates
              example_combine_user_with_default_actions
              example_fragment_A (Some example_fragment_B_form_as_action)
              false) as [[[M B'] ws]|e] eqn:E;
    [|vm_compute in E; discriminate].
  exists M, ws. vm_compute in E. injection E as <- <- <-.
  split; reflexivity.
Qed.

(** ** Ensemble *)

(** C10: with an empty policy list the loop body never runs, the override
    test stops at [result is not None], and the call returns
    [(None, None)] without raising. *)
Theorem empty_ensemble_returns_none
    (ACTION_LISTEN_NAME : string) (tracker : DialogueStateTracker)
    (domain : Domain) :
  probabilities_using_best_policy ACTION_LISTEN_NAME [] tracker domain
  = Ok (None, None).
Proof. reflexivity. Qed.

(** ** Ensemble: selection of the best policy *)

Section KeyOrder.
Implicit Types a b c : Qc * Z.

Lemma key_lt_irrefl a : ¬ key_lt a a.
Proof.
  intros [H|[_ H]]; [|lia].
  by apply Qclt_not_eq in H.
Qed.

Lemma key_lt_trans a b c : key_lt a b → key_lt b c → key_lt a c.
Proof.
  unfold key_lt. intros [H1|[E1 H1]] [H2|[E2 H2]].
  - left. by eapply Qclt_trans.
  - left. by rewrite <- E2.
  - left. by rewrite E1.
  - right. split; [congruence|lia].
Qed.

Lemma key_lt_total a b : key_lt a b ∨ a = b ∨ key_lt b a.
Proof.
  destruct a as [a1 a2], b as [b1 b2]. unfold key_lt. simpl.
  destruct (Qc_dec a1 b1) as [[H|H]| ->]; [by left; left|by right; right; left|].
  destruct (Z.lt_trichotomy a2 b2) as [H|[-> |H]].
  - left. by right.
  - right. by left.
  - right. right. by right.
Qed.

Lemma key_le_lt_trans a b c : ¬ key_lt b a → key_lt b c → key_lt a c.
Proof.
  intros Hba Hbc.
  destruct (key_lt_total a b) as [H|[-> |H]]; [|done|done].
  by eapply key_lt_trans.
Qed.

Lemma tuple_gt_spec (a1 : Qc) (a2 : Z) (b1 : Qc) (b2 : Z) :
  tuple_gt a1 a2 b1 b2 = true ↔ key_lt (b1, b2) (a1, a2).
Proof.
  unfold tuple_gt, key_lt. simpl.
  destruct (a1 ?= b1)%Qc eqn:E.
  - apply Qceq_alt in E as ->. rewrite bool_decide_eq_true. split.
    + intros H. by right.
    + intros [H|[_ H]]; [|done]. by apply Qclt_not_eq in H.
  - apply Qclt_alt in E. split; [done|].
    intros [H|[-> _]].
    + exfalso. eapply Qclt_not_eq; [|reflexivity]. by eapply Qclt_trans.
    + by apply Qclt_not_eq in E.
  - apply Qcgt_alt in E. simpl in E. split; [by left|done].
Qed.
End KeyOrder.

Lemma select_step_entry (tracker : DialogueStateTracker) (domain : Domain)
    (best : Best) (i : nat) (p : Policy) :
  select_step tracker domain best i p
  = (e ← policy_entry tracker domain p;
     Ok (if tuple_gt e.2.1 e.2.2
                     (max_confidence best) (best_policy_priority best)
         then {| result_ := Some e.1;
                 max_confidence := e.2.1;
                 best_policy_name := Some (policy_name i p);
                 best_policy_priority := e.2.2 |}
         else best)).
Proof.
  unfold select_step, policy_entry, zero_rejected.
  destruct (list.last (events tracker)) as [[]|]; simpl;
    repeat match goal with
      | |- context [index_for_action ?d ?a] =>
          destruct (index_for_action d a); simpl; [|done]
      | |- context [set_item ?l ?i ?x] =>
          destruct (set_item l i x); simpl; [|done]
      | |- context [np_max ?l] => destruct (np_max l); simpl; [|done]
      | |- context [tuple_gt ?a ?b ?c ?d] => by destruct (tuple_gt a b c d)
      end.
Qed.

Lemma select_invariant_upper (tracker : DialogueStateTracker)
    (domain : Domain) (seen : list Policy) (best : Best) :
  select_invariant tracker domain seen best →
  ¬ key_lt (best_key best) sentinel_key
  ∧ ∀ j q e, seen !! j = Some q →
      policy_entry tracker domain q = Ok e → ¬ key_lt (best_key best) e.2.
Proof.
  unfold select_invariant.
  destruct (result_ best) as [probabilities|] eqn:Hres.
  - intros (i & p & (_ & _ & Hsent & Hmax & _) & _). split; [|exact Hmax].
    intros H. eapply key_lt_irrefl, key_lt_trans; [exact H|exact Hsent].
  - intros [-> Hall]. split; [apply key_lt_irrefl|exact Hall].
Qed.

Lemma select_invariant_step (tracker : DialogueStateTracker)
    (domain : Domain) (seen : list Policy) (best : Best) (p : Policy)
    (e : list Qc * (Qc * Z)) :
  select_invariant tracker domain seen best →
  policy_entry tracker domain p = Ok e →
  ∃ best',
    select_step tracker domain best (length seen) p = Ok best'
    ∧ select_invariant tracker domain (seen ++ [p]) best'.
Proof.
  intros Hinv He. rewrite select_step_entry, He. simpl.
  eexists. split; [reflexivity|].
  destruct (select_invariant_upper _ _ _ _ Hinv) as [Hsent Hupper].
  destruct e as [probabilities [confidence prio]]. simpl.
  destruct (tuple_gt _ _ _ _) eqn:Hgt.
  - apply tuple_gt_spec in Hgt. fold (best_key best) in Hgt.
    unfold select_invariant. simpl.
    exists (length seen), p. split; [|done].
    unfold best_key. simpl. repeat split.
    + by rewrite lookup_app_r, Nat.sub_diag.
    + exact He.
    + by eapply key_le_lt_trans.
    + intros j q e' Hj He'.
      apply lookup_app_Some in Hj as [Hj|[_ Hj]].
      * intros H. eapply (Hupper _ _ _ Hj He'). by eapply key_lt_trans.
      * destruct (j - length seen); [|done]. injection Hj as <-.
        assert (e' = (probabilities, (confidence, prio))) as -> by congruence.
        apply key_lt_irrefl.
    + intros j q e' Hlt Hj He'.
      rewrite lookup_app_l in Hj by done.
      eapply key_le_lt_trans; [|exact Hgt]. by eapply Hupper.
  - assert (Hngt : ¬ key_lt (best_key best) (confidence, prio)).
    { intros H. apply tuple_gt_spec in H. unfold best_key in H. simpl in H.
      congruence. }
    revert Hinv. unfold select_invariant.
    destruct (result_ best) as [probabilities'|].
    + intros (i & q & (Hi & Hq & Hs & Hmax & Hfirst) & Hname).
      exists i, q. split; [|done]. repeat split; try done.
      * by apply lookup_app_l_Some.
      * intros j q' e' Hj He'.
        apply lookup_app_Some in Hj as [Hj|[_ Hj]]; [by eapply Hmax|].
        destruct (j - length seen); [|done]. injection Hj as <-.
        by assert (e' = (probabilities, (confidence, prio))) as ->
          by congruence.
      * intros j q' e' Hlt Hj He'.
        apply (Hfirst j q' e' Hlt); [|done].
        apply lookup_lt_Some in Hi.
        by rewrite lookup_app_l in Hj by lia.
    + intros [-> Hall]. split; [done|].
      intros j q e' Hj He'.
      apply lookup_app_Some in Hj as [Hj|[_ Hj]]; [by eapply Hall|].
      destruct (j - length seen); [|done]. injection Hj as <-.
      by assert (e' = (probabilities, (confidence, prio))) as ->
        by congruence.
Qed.

Lemma select_loop_invariant (tracker : DialogueStateTracker)
    (domain : Domain) (rest seen : list Policy) (best : Best) :
  select_invariant tracker domain seen best →
  Forall (λ p, is_Ok (policy_entry tracker domain p)) rest →
  ∃ best',
    select_loop tracker domain best (length seen) rest = Ok best'
    ∧ select_invariant tracker domain (seen ++ rest) best'.
Proof.
  revert seen best. induction rest as [|p rest IH]; intros seen best Hinv Hok.
  - exists best. by rewrite app_nil_r.
  - apply list.Forall_cons in Hok as [[e He] Hok].
    destruct (select_invariant_step _ _ _ _ _ _ Hinv He) as (best1 & Hs & H1).
    destruct (IH (seen ++ [p]) best1 H1 Hok) as (best' & Hl & H').
    exists best'. simpl. rewrite Hs. simpl.
    rewrite length_app, Nat.add_1_r in Hl.
    by rewrite <- app_assoc in H'.
Qed.

Lemma select_loop_spec (tracker : DialogueStateTracker) (domain : Domain)
    (policies : list Policy) :
  Forall (λ p, is_Ok (policy_entry tracker domain p)) policies →
  ∃ best,
    select_loop tracker domain Best_init 0 policies = Ok best
    ∧ select_invariant tracker domain policies best.
Proof.
  intros Hok.
  apply (select_loop_invariant tracker domain policies [] Best_init);
    [|done].
  split; [done|]. intros j q e Hj. by rewrite lookup_nil in Hj.
Qed.

Lemma select_loop_Ok_invariant (tracker : DialogueStateTracker)
    (domain : Domain) (rest seen : list Policy) (best best' : Best) :
  select_invariant tracker domain seen best →
  select_loop tracker domain best (length seen) rest = Ok best' →
  select_invariant tracker domain (seen ++ rest) best'.
Proof.
  revert seen best. induction rest as [|p rest IH]; intros seen best Hinv.
  - simpl. intros [= <-]. by rewrite app_nil_r.
  - simpl. destruct (select_step tracker domain best (length seen) p)
      as [best1|] eqn:Hs; simpl; [|done].
    intros Hl.
    assert (is_Ok (policy_entry tracker domain p)) as [e He].
    { rewrite select_step_entry in Hs.
      destruct (policy_entry tracker domain p) as [e|]; [by exists e|done]. }
    destruct (select_invariant_step _ _ _ _ _ _ Hinv He) as (b1 & Hs' & H1).
    assert (b1 = best1) as -> by congruence.
    replace (S (length seen)) with (length (seen ++ [p])) in Hl
      by (rewrite length_app; simpl; lia).
    apply (IH _ _ H1) in Hl. by rewrite <- app_assoc in Hl.
Qed.

Lemma is_winner_unique (tracker : DialogueStateTracker) (domain : Domain)
    (policies : list Policy) (i i' : nat) (p p' : Policy)
    (probabilities probabilities' : list Qc) (key key' : Qc * Z) :
  is_winner tracker domain policies i p probabilities key →
  is_winner tracker domain policies i' p' probabilities' key' →
  i = i' ∧ p = p' ∧ probabilities = probabilities' ∧ key = key'.
Proof.
  intros (Hi & He & _ & Hmax & Hfirst) (Hi' & He' & _ & Hmax' & Hfirst').
  assert (i = i') as <-.
  { destruct (Nat.lt_trichotomy i i') as [Hlt|[Heq|Hlt]]; [|done|].
    - exfalso. apply (Hmax _ _ _ Hi' He'). simpl.
      apply (Hfirst' _ _ _ Hlt Hi He).
    - exfalso. apply (Hmax' _ _ _ Hi He). simpl.
      apply (Hfirst _ _ _ Hlt Hi' He'). }
  assert (p = p') as <- by congruence.
  split; [done|]. split; [done|]. split; congruence.
Qed.

Lemma Qc_max_ge_l (a b : Qc) : (a ≤ Qc_max a b)%Qc.
Proof.
  unfold Qc_max. destruct (a ?= b)%Qc eqn:E; try apply Qcle_refl.
  apply Qclt_alt in E. by apply Qclt_le_weak.
Qed.

Lemma Qc_max_ge_r (a b : Qc) : (b ≤ Qc_max a b)%Qc.
Proof.
  unfold Qc_max. destruct (a ?= b)%Qc eqn:E; try apply Qcle_refl.
  - apply Qceq_alt in E as ->. apply Qcle_refl.
  - apply Qcgt_alt in E. by apply Qclt_le_weak.
Qed.

Lemma Qc_max_cases (a b : Qc) : Qc_max a b = a ∨ Qc_max a b = b.
Proof. unfold Qc_max. destruct (a ?= b)%Qc; auto. Qed.

Lemma foldl_Qc_max_elem (xs : list Qc) (x : Qc) :
  foldl Qc_max x xs ∈ x :: xs.
Proof.
  revert x. induction xs as [|y xs IH]; intros x; simpl; [left|].
  destruct (Qc_max_cases x y) as [-> | ->].
  - specialize (IH x). apply elem_of_cons in IH as [-> |IH]; [left|].
    by do 2 right.
  - right. apply IH.
Qed.

Lemma foldl_Qc_max_ge (xs : list Qc) (x y : Qc) :
  y ∈ x :: xs → (y ≤ foldl Qc_max x xs)%Qc.
Proof.
  revert x y. induction xs as [|z xs IH]; intros x y Hy; simpl.
  - apply list_elem_of_singleton in Hy as ->. apply Qcle_refl.
  - apply elem_of_cons in Hy as [Hy|Hy].
    + subst y. eapply Qcle_trans; [apply (Qc_max_ge_l x z)|]. apply IH. left.
    + apply elem_of_cons in Hy as [Hy|Hy].
      * subst y. eapply Qcle_trans; [apply (Qc_max_ge_r x z)|].
        apply IH. left.
      * apply IH. by right.
Qed.

Lemma np_max_elem (l : list Qc) (c : Qc) : np_max l = Ok c → c ∈ l.
Proof. destruct l; [done|]. intros [= <-]. apply foldl_Qc_max_elem. Qed.

Lemma np_max_ge (l : list Qc) (c y : Qc) :
  np_max l = Ok c → y ∈ l → (y ≤ c)%Qc.
Proof. destruct l; [done|]. intros [= <-]. apply foldl_Qc_max_ge. Qed.

Lemma np_max_is_Ok (l : list Qc) : l ≠ [] → is_Ok (np_max l).
Proof. destruct l; [done|]. intros _. by eexists. Qed.

Lemma list_index_is_Ok (x : Qc) (l : list Qc) :
  x ∈ l → is_Ok (list_index x l).
Proof.
  intros Hx. unfold list_index.
  destruct (list_find_elem_of (λ y, y = x) l x Hx eq_refl) as [[i y] ->].
  by eexists.
Qed.

(** ** Ensemble: what the call returns *)

Lemma index_for_action_Ok (d : Domain) (a : string) (i : nat) :
  index_for_action d a = Ok i →
  action_names d !! i = Some a ∧ i < num_actions d.
Proof.
  unfold index_for_action.
  destruct (list_find _ _) as [[j b]|] eqn:E; [|done].
  intros [= ->]. apply list_find_Some in E as (Hi & -> & _).
  split; [done|]. by eapply lookup_lt_Some.
Qed.

Lemma fallback_idx_policy_elem (policies : list Policy) (k : nat)
    (fp : Policy) :
  (k, fp) ∈ fallback_idx_policy policies →
  policies !! k = Some fp ∧ is_Some (fallback_action_name fp).
Proof.
  unfold fallback_idx_policy, enumerate. intros H.
  apply list_elem_of_filter in H as [Hf H].
  apply elem_of_lookup_imap in H as (i & q & [= -> ->] & Hq).
  split; [done|]. simpl in Hf. unfold isinstance_FallbackPolicy in Hf.
  by apply bool_decide_eq_true in Hf.
Qed.

Lemma filter_fallback_imap_first (policies : list Policy) (n k : nat)
    (fp : Policy) (fa : string) :
  first_fallback_policy policies k fp fa →
  ∃ rest,
    filter (λ ip : nat * Policy, isinstance_FallbackPolicy ip.2 = true)
           (imap (λ i p, (n + i, p)) policies)
    = (n + k, fp) :: rest.
Proof.
  revert n k. induction policies as [|q policies IH]; intros n k (Hk & Hfa & Hfirst).
  - by rewrite lookup_nil in Hk.
  - rewrite imap_cons, filter_cons. simpl.
    destruct k as [|k].
    + injection Hk as ->. rewrite Nat.add_0_r.
      destruct (decide _) as [_|Hn]; [by eexists|].
      exfalso. apply Hn. unfold isinstance_FallbackPolicy. rewrite Hfa.
      apply bool_decide_eq_true. by eexists.
    + assert (Hq : fallback_action_name q = None)
        by (apply (Hfirst 0); [lia|done]).
      destruct (decide _) as [Hy|_].
      { exfalso. unfold isinstance_FallbackPolicy in Hy. rewrite Hq in Hy.
        apply bool_decide_eq_true in Hy. by destruct Hy. }
      destruct (IH (S n) k) as [rest Hrest].
      { split; [exact Hk|]. split; [exact Hfa|].
        intros j q' Hj Hq'. apply (Hfirst (S j)); [lia|done]. }
      exists rest. rewrite <- Nat.add_succ_comm, <- Hrest.
      f_equal. apply imap_ext. intros i p _. simpl. f_equal. lia.
Qed.

Lemma fallback_idx_policy_first (policies : list Policy) (k : nat)
    (fp : Policy) (fa : string) :
  first_fallback_policy policies k fp fa →
  ∃ rest, fallback_idx_policy policies = (k, fp) :: rest.
Proof.
  intros H. destruct (filter_fallback_imap_first policies 0 k fp fa H)
    as [rest Hrest].
  exists rest. exact Hrest.
Qed.

Lemma first_fallback_policy_unique (policies : list Policy) (k k' : nat)
    (fp fp' : Policy) (fa fa' : string) :
  first_fallback_policy policies k fp fa →
  first_fallback_policy policies k' fp' fa' →
  k = k' ∧ fp = fp' ∧ fa = fa'.
Proof.
  intros (Hk & Hfa & Hfirst) (Hk' & Hfa' & Hfirst').
  assert (k = k') as <-.
  { destruct (Nat.lt_trichotomy k k') as [Hlt|[Heq|Hlt]]; [|done|].
    - specialize (Hfirst' _ _ Hlt Hk). congruence.
    - specialize (Hfirst _ _ Hlt Hk'). congruence. }
  assert (fp = fp') as <- by congruence.
  split; [done|]. split; [done|]. congruence.
Qed.

(** an ensemble with a fallback policy has a first one *)
Lemma first_fallback_policy_exists (policies : list Policy) :
  has_fallback_policy policies →
  ∃ k fp fa, first_fallback_policy policies k fp fa.
Proof.
  induction policies as [|q policies IH]; intros (q' & Hq' & Hfa).
  - by apply elem_of_nil in Hq'.
  - destruct (fallback_action_name q) as [fa|] eqn:Hq.
    + exists 0, q, fa. split; [done|]. split; [done|]. intros j ? Hj. lia.
    + apply elem_of_cons in Hq' as [->|Hq'].
      { rewrite Hq in Hfa. by destruct Hfa. }
      destruct IH as (k & fp & fa & Hk & Hfp & Hfirst); [by exists q'|].
      exists (S k), fp, fa. split; [done|]. split; [done|].
      intros [|j] q'' Hj Hq''.
      * by injection Hq'' as <-.
      * apply (Hfirst j); [lia|done].
Qed.

(** the head of [fallback_idx_policy] is the first fallback policy *)
Lemma fallback_idx_policy_head (policies : list Policy) :
  match fallback_idx_policy policies with
  | [] => ¬ has_fallback_policy policies
  | (k, fp) :: _ => ∃ fa, first_fallback_policy policies k fp fa
  end.
Proof.
  destruct (fallback_idx_policy policies) as [|[k fp] rest] eqn:Hfip.
  - intros Hfb.
    destruct (first_fallback_policy_exists _ Hfb) as (k & fp & fa & Hfirst).
    destruct (fallback_idx_policy_first _ _ _ _ Hfirst) as [rest Hrest].
    congruence.
  - destruct (fallback_idx_policy_elem policies k fp) as [Hk [fa Hfa]].
    { rewrite Hfip. left. }
    destruct (first_fallback_policy_exists policies)
      as (k' & fp' & fa' & Hfirst).
    { exists fp. split; [by eapply list_elem_of_lookup_2|by eexists]. }
    destruct (fallback_idx_policy_first _ _ _ _ Hfirst) as [rest' Hrest].
    rewrite Hfip in Hrest. injection Hrest as -> -> _.
    by exists fa'.
Qed.

Lemma policy_entry_np_max (tracker : DialogueStateTracker) (domain : Domain)
    (p : Policy) (probabilities : list Qc) (key : Qc * Z) :
  policy_entry tracker domain p = Ok (probabilities, key) →
  np_max probabilities = Ok key.1 ∧ key.2 = priority p.
Proof.
  unfold policy_entry.
  destruct (zero_rejected _ _ _) as [probs|]; simpl; [|done].
  destruct (np_max probs) as [c|] eqn:Hc; simpl; [|done].
  by intros [= <- <-].
Qed.

(** What the call returns when the loop has kept the policy [p] of position
    [i]: the test of the override step, written with the index [ri] of the
    top probability of the kept distribution. *)
Lemma call_of_winner
    (ACTION_LISTEN_NAME : string) (policies : list Policy)
    (tracker : DialogueStateTracker) (domain : Domain) (best : Best)
    (i : nat) (p : Policy) (probabilities : list Qc) (key : Qc * Z) :
  select_loop tracker domain Best_init 0 policies = Ok best →
  is_winner tracker domain policies i p probabilities key →
  ∃ ri,
    top_action probabilities = Ok ri
    ∧ probabilities_using_best_policy ACTION_LISTEN_NAME policies tracker
        domain
      = (listen_index ← index_for_action domain ACTION_LISTEN_NAME;
         if bool_decide (ri = listen_index)
            && bool_decide
                 (latest_action_name tracker = Some ACTION_LISTEN_NAME)
            && is_not_memo_policy (policy_name i p)
         then match fallback_idx_policy policies with
              | (fallback_idx, fallback_policy) :: _ =>
                  scores ←
                    fallback_scores
                      (default "" (fallback_action_name fallback_policy))
                      domain;
                  Ok (Some scores,
                      Some (policy_name fallback_idx fallback_policy))
              | [] => Ok (Some probabilities, Some (policy_name i p))
              end
         else Ok (Some probabilities, Some (policy_name i p))).
Proof.
  intros Hl Hwin.
  assert (Hinv : select_invariant tracker domain policies best).
  { apply (select_loop_Ok_invariant tracker domain policies [] Best_init);
      [|done].
    split; [done|]. intros j q e Hj. by rewrite lookup_nil in Hj. }
  revert Hinv. unfold select_invariant.
  destruct (result_ best) as [probabilities'|] eqn:Hres.
  2: { intros [_ Hall]. exfalso.
       destruct Hwin as (Hi & He & Hs & _).
       by apply (Hall i p _ Hi He). }
  intros (i' & p' & Hwin' & Hname).
  destruct (is_winner_unique _ _ _ _ _ _ _ _ _ _ _ Hwin Hwin')
    as (<- & <- & <- & Hkey).
  destruct Hwin as (_ & He & _).
  apply policy_entry_np_max in He as [Hmax _].
  rewrite Hkey in Hmax. simpl in Hmax.
  destruct (list_index_is_Ok _ _ (np_max_elem _ _ Hmax)) as [ri Hri].
  exists ri. split.
  { unfold top_action. rewrite Hmax. simpl. exact Hri. }
  unfold probabilities_using_best_policy. rewrite Hl. simpl.
  rewrite Hres, Hri, Hname. simpl.
  destruct (index_for_action domain ACTION_LISTEN_NAME) as [li|]; simpl;
    [|done].
  destruct (bool_decide (ri = li)
            && bool_decide (latest_action_name tracker = Some ACTION_LISTEN_NAME));
    simpl; [|done].
  by destruct (is_not_memo_policy (policy_name i p)).
Qed.

(** The two outcomes of the override step. *)
Lemma call_cases
    (ACTION_LISTEN_NAME : string) (policies : list Policy)
    (tracker : DialogueStateTracker) (domain : Domain) (best : Best)
    (i : nat) (p : Policy) (probabilities : list Qc) (key : Qc * Z) :
  select_loop tracker domain Best_init 0 policies = Ok best →
  is_winner tracker domain policies i p probabilities key →
  is_Ok (index_for_action domain ACTION_LISTEN_NAME) →
  (¬ (listen_predicted_after_user_message ACTION_LISTEN_NAME tracker domain
        i p probabilities
      ∧ has_fallback_policy policies)
   ∧ probabilities_using_best_policy ACTION_LISTEN_NAME policies tracker
       domain
     = Ok (Some probabilities, Some (policy_name i p)))
  ∨ (listen_predicted_after_user_message ACTION_LISTEN_NAME tracker domain
       i p probabilities
     ∧ ∃ k fp fa,
         first_fallback_policy policies k fp fa
         ∧ probabilities_using_best_policy ACTION_LISTEN_NAME policies
             tracker domain
           = (scores ← fallback_scores fa domain;
              Ok (Some scores, Some (policy_name k fp)))).
Proof.
  intros Hl Hwin [li Hli].
  destruct (call_of_winner ACTION_LISTEN_NAME _ _ _ _ _ _ _ _ Hl Hwin)
    as (ri & Hri & ->).
  rewrite Hli. simpl.
  unfold listen_predicted_after_user_message. rewrite Hli, Hri.
  pose proof (fallback_idx_policy_head policies) as Hhead.
  destruct (bool_decide (ri = li)) eqn:Hti; simpl.
  2: { left. split; [|done]. apply bool_decide_eq_false in Hti.
       intros [(_ & (li' & [= <-] & [= ->]) & _) _]. done. }
  apply bool_decide_eq_true in Hti as ->.
  destruct (bool_decide (latest_action_name tracker = Some ACTION_LISTEN_NAME))
    eqn:Hla; simpl.
  2: { left. split; [|done]. apply bool_decide_eq_false in Hla.
       by intros [(? & _) _]. }
  apply bool_decide_eq_true in Hla.
  destruct (is_not_memo_policy (policy_name i p)) eqn:Hmemo.
  2: { left. split; [|done]. by intros [(_ & _ & ?) _]. }
  destruct (fallback_idx_policy policies) as [|[k fp] rest].
  { left. split; [|done]. by intros [_ ?]. }
  destruct Hhead as [fa Hfirst]. right.
  split; [split; [done|split; [by exists li|done]]|].
  exists k, fp, fa. split; [done|].
  destruct Hfirst as (_ & -> & _). done.
Qed.

(** C3: the call compares the policies by the key
    (max(distribution), priority), the distribution taken after the
    rejection rule, and selects the policy whose key is the lexicographic
    maximum, and among the policies holding that maximum the first in the
    configured order: no policy has a greater key than the selected one,
    every earlier policy has a strictly smaller one, so a policy that ties
    with it on both confidence and priority comes later.  The call returns
    the distribution and the name of the selected policy, unless the
    override step applies (the latest action is [action_listen], the
    selected policy is not a memoization policy and puts its top
    probability on [action_listen], and the ensemble has a fallback
    policy): then it returns the fallback distribution and the name of the
    first fallback policy.  When no policy has a key above the initial
    (-1, -1), none is selected and the call returns [(None, None)]. *)
Theorem winner_has_first_maximal_key
    (ACTION_LISTEN_NAME : string) (tracker : DialogueStateTracker)
    (domain : Domain) (policies : list Policy) :
  Forall (λ p, is_Ok (policy_entry tracker domain p)) policies →
  (probabilities_using_best_policy ACTION_LISTEN_NAME policies tracker domain
   = Ok (None, None)
   ∧ ∀ j q e, policies !! j = Some q →
       policy_entry tracker domain q = Ok e → ¬ key_lt sentinel_key e.2)
  ∨ ∃ i p probabilities key,
      policies !! i = Some p
      ∧ policy_entry tracker domain p = Ok (probabilities, key)
      ∧ key_lt sentinel_key key
      ∧ (∀ j q e, policies !! j = Some q →
           policy_entry tracker domain q = Ok e → ¬ key_lt key e.2)
      ∧ (∀ j q e, j < i → policies !! j = Some q →
           policy_entry tracker domain q = Ok e → key_lt e.2 key)
      ∧ (∀ j q e, policies !! j = Some q →
           policy_entry tracker domain q = Ok e → e.2 = key → (i ≤ j)%nat)
      ∧ (∀ err, index_for_action domain ACTION_LISTEN_NAME = Raise err →
           probabilities_using_best_policy ACTION_LISTEN_NAME policies
             tracker domain = Raise err)
      ∧ (is_Ok (index_for_action domain ACTION_LISTEN_NAME) →
         (¬ (listen_predicted_after_user_message ACTION_LISTEN_NAME tracker
               domain i p probabilities
             ∧ has_fallback_policy policies)
          ∧ probabilities_using_best_policy ACTION_LISTEN_NAME policies
              tracker domain
            = Ok (Some probabilities, Some (policy_name i p)))
         ∨ (listen_predicted_after_user_message ACTION_LISTEN_NAME tracker
              domain i p probabilities
            ∧ ∃ k fp fa,
                first_fallback_policy policies k fp fa
                ∧ probabilities_using_best_policy ACTION_LISTEN_NAME
                    policies tracker domain
                  = (scores ← fallback_scores fa domain;
                     Ok (Some scores, Some (policy_name k fp))))).
Proof.
  intros Hok.
  destruct (select_loop_spec tracker domain policies Hok) as (best & Hl & Hinv).
  revert Hinv. unfold select_invariant.
  destruct (result_ best) as [probabilities|] eqn:Hres.
  - intros (i & p & Hwin & Hname). right.
    exists i, p, probabilities, (best_key best).
    pose proof Hwin as (Hi & He & Hs & Hmax & Hfirst).
    do 5 (split; [done|]). split; [|split].
    + intros j q e Hj Hq Hkey.
      destruct (decide (i ≤ j)%nat) as [|Hlt]; [done|].
      exfalso. apply (key_lt_irrefl e.2).
      rewrite Hkey at 2. apply (Hfirst j q e); [lia|done|done].
    + intros err Herr.
      destruct (call_of_winner ACTION_LISTEN_NAME _ _ _ _ _ _ _ _ Hl Hwin)
        as (ri & _ & ->).
      by rewrite Herr.
    + by apply (call_cases ACTION_LISTEN_NAME _ _ _ best _ _ _ (best_key best)).
  - intros [-> Hall]. left. split; [|exact Hall].
    unfold probabilities_using_best_policy. by rewrite Hl.
Qed.

Lemma winner_has_first_maximal_key_witness :
  (probabilities_using_best_policy "action_listen"
     example_tied_policies_with_fallback example_tracker example_domain
   = Ok (None, None)
   ∧ ∀ j q e, example_tied_policies_with_fallback !! j = Some q →
       policy_entry example_tracker example_domain q = Ok e →
       ¬ key_lt sentinel_key e.2)
  ∨ ∃ i p probabilities key,
      example_tied_policies_with_fallback !! i = Some p
      ∧ policy_entry example_tracker example_domain p = Ok (probabilities, key)
      ∧ key_lt sentinel_key key
      ∧ (∀ j q e, example_tied_policies_with_fallback !! j = Some q →
           policy_entry example_tracker example_domain q = Ok e →
           ¬ key_lt key e.2)
      ∧ (∀ j q e, j < i → example_tied_policies_with_fallback !! j = Some q →
           policy_entry example_tracker example_domain q = Ok e →
           key_lt e.2 key)
      ∧ (∀ j q e, example_tied_policies_with_fallback !! j = Some q →
           policy_entry example_tracker example_domain q = Ok e →
           e.2 = key → (i ≤ j)%nat)
      ∧ (∀ err, index_for_action example_domain "action_listen" = Raise err →
           probabilities_using_best_policy "action_listen"
             example_tied_policies_with_fallback example_tracker
             example_domain = Raise err)
      ∧ (is_Ok (index_for_action example_domain "action_listen") →
         (¬ (listen_predicted_after_user_message "action_listen"
               example_tracker example_domain i p probabilities
             ∧ has_fallback_policy example_tied_policies_with_fallback)
          ∧ probabilities_using_best_policy "action_listen"
              example_tied_policies_with_fallback example_tracker
              example_domain
            = Ok (Some probabilities, Some (policy_name i p)))
         ∨ (listen_predicted_after_user_message "action_listen"
              example_tracker example_domain i p probabilities
            ∧ ∃ k fp fa,
                first_fallback_policy example_tied_policies_with_fallback
                  k fp fa
                ∧ probabilities_using_best_policy "action_listen"
                    example_tied_policies_with_fallback example_tracker
                    example_domain
                  = (scores ← fallback_scores fa example_domain;
                     Ok (Some scores, Some (policy_name k fp))))).
Proof.
  apply (winner_has_first_maximal_key "action_listen" example_tracker
           example_domain example_tied_policies_with_fallback).
  repeat constructor; eexists; vm_compute; reflexivity.
Defined.

(** On the tied example the first policy is returned, with or without a
    fallback policy in the ensemble. *)
Example tied_policies_first_wins :
  probabilities_using_best_policy "action_listen" example_tied_policies
    example_tracker example_domain
  = Ok (Some [Qc_of 1 10; Qc_of 1 10; Qc_of 8 10], Some "policy_0_KerasPolicy").
Proof. vm_compute. reflexivity. Qed.

Example tied_policies_with_fallback_first_wins :
  probabilities_using_best_policy "action_listen"
    example_tied_policies_with_fallback example_tracker example_domain
  = Ok (Some [Qc_of 1 10; Qc_of 1 10; Qc_of 8 10], Some "policy_0_KerasPolicy").
Proof. vm_compute. reflexivity. Qed.

(** ** Ensemble: the rejection rule *)

(** the fixed fallback distribution is zero away from the fallback action *)
Lemma fallback_scores_other (d : Domain) (fa a : string) (i : nat) :
  is_Ok (index_for_action d fa) →
  index_for_action d a = Ok i →
  fa ≠ a →
  ∃ scores, fallback_scores fa d = Ok scores ∧ scores !! i = Some 0%Qc.
Proof.
  intros [j Hj] Hi Hne. unfold fallback_scores. rewrite Hj. simpl.
  apply index_for_action_Ok in Hj as [Hj Hjlt].
  apply index_for_action_Ok in Hi as [Hi Hilt].
  unfold set_item. rewrite length_replicate.
  destruct (decide (j < num_actions d)); [|done].
  eexists. split; [reflexivity|].
  rewrite list_lookup_insert_ne by congruence.
  by apply lookup_replicate_2.
Qed.

Lemma fallback_scores_zero_elsewhere (d : Domain) (fa a : string) (i : nat)
    (scores : list Qc) :
  fallback_scores fa d = Ok scores →
  index_for_action d a = Ok i →
  fa ≠ a →
  scores !! i = Some 0%Qc.
Proof.
  intros Hs Hi Hne.
  destruct (index_for_action d fa) as [j|e] eqn:Hj;
    [|by unfold fallback_scores in Hs; rewrite Hj in Hs].
  destruct (fallback_scores_other d fa a i) as (scores' & Hs' & H0);
    [by eexists|done|done|].
  congruence.
Qed.

(** the fixed fallback distribution is one at the fallback action *)
Lemma fallback_scores_at (d : Domain) (fa : string) (i : nat) :
  index_for_action d fa = Ok i →
  ∃ scores, fallback_scores fa d = Ok scores ∧ scores !! i = Some 1%Qc.
Proof.
  intros Hi. unfold fallback_scores. rewrite Hi. simpl.
  apply index_for_action_Ok in Hi as [_ Hlt].
  unfold set_item. rewrite length_replicate.
  destruct (decide (i < num_actions d)); [|done].
  eexists. split; [reflexivity|].
  apply list_lookup_insert_eq. by rewrite length_replicate.
Qed.

(** under a rejection of the action at [idx], a distribution long enough
    enters the comparison with a zero at [idx] and a key above the
    sentinel *)
Lemma policy_entry_rejected (tracker : DialogueStateTracker) (domain : Domain)
    (X : string) (idx : nat) (p : Policy) :
  list.last (events tracker) = Some (ActionExecutionRejected X) →
  index_for_action domain X = Ok idx →
  idx < length (predict_action_probabilities p tracker domain) →
  ∃ c, policy_entry tracker domain p
       = Ok (<[idx := 0%Qc]> (predict_action_probabilities p tracker domain),
             (c, priority p))
       ∧ key_lt sentinel_key (c, priority p).
Proof.
  intros Hlast Hidx Hlen. unfold policy_entry, zero_rejected.
  rewrite Hlast, Hidx. simpl. unfold set_item.
  destruct (decide _); [|done]. simpl.
  assert (Hin : 0%Qc ∈ <[idx := 0%Qc]>
                         (predict_action_probabilities p tracker domain))
    by (by apply list_elem_of_insert).
  destruct (np_max_is_Ok (<[idx := 0%Qc]>
              (predict_action_probabilities p tracker domain))) as [c Hc].
  { intros Hnil. rewrite Hnil in Hin. by apply elem_of_nil in Hin. }
  rewrite Hc. simpl. exists c. split; [done|].
  left. simpl. eapply Qclt_le_trans; [|by eapply np_max_ge]. done.
Qed.

(** under a rejection of the action at [idx], whatever distribution enters
    the comparison has a zero at [idx] *)
Lemma policy_entry_zero_at (tracker : DialogueStateTracker) (domain : Domain)
    (X : string) (idx : nat) (p : Policy) (probabilities : list Qc)
    (key : Qc * Z) :
  list.last (events tracker) = Some (ActionExecutionRejected X) →
  index_for_action domain X = Ok idx →
  policy_entry tracker domain p = Ok (probabilities, key) →
  probabilities !! idx = Some 0%Qc.
Proof.
  intros Hlast Hidx. unfold policy_entry, zero_rejected.
  rewrite Hlast, Hidx. simpl. unfold set_item.
  destruct (decide _) as [Hlt|]; simpl; [|done].
  destruct (np_max _) as [c|]; simpl; [|done].
  intros [= <- _]. by apply list_lookup_insert_eq.
Qed.

(** Under a rejection, a non-empty ensemble of policies that return
    distributions over the full action index space yields a distribution,
    when the domain lists [action_listen] and the fallback actions. *)
Lemma returns_a_distribution
    (ACTION_LISTEN_NAME : string) (policies : list Policy)
    (tracker : DialogueStateTracker) (domain : Domain)
    (X : string) (idx : nat) :
  list.last (events tracker) = Some (ActionExecutionRejected X) →
  index_for_action domain X = Ok idx →
  is_Ok (index_for_action domain ACTION_LISTEN_NAME) →
  policies ≠ [] →
  (∀ p, p ∈ policies →
     length (predict_action_probabilities p tracker domain)
     = num_actions domain) →
  (∀ p fa, p ∈ policies → fallback_action_name p = Some fa →
     is_Ok (index_for_action domain fa)) →
  ∃ distribution name,
    probabilities_using_best_policy ACTION_LISTEN_NAME policies tracker domain
    = Ok (Some distribution, Some name).
Proof.
  intros Hlast Hidx Hlisten Hne Hlen Hfb.
  destruct (index_for_action_Ok _ _ _ Hidx) as [_ Hidxlt].
  assert (Hentry : ∀ p, p ∈ policies →
            ∃ c, policy_entry tracker domain p
                 = Ok (<[idx := 0%Qc]>
                         (predict_action_probabilities p tracker domain),
                       (c, priority p))
                 ∧ key_lt sentinel_key (c, priority p)).
  { intros p Hp. apply (policy_entry_rejected _ _ X); try done.
    by rewrite Hlen. }
  assert (Hok : Forall (λ p, is_Ok (policy_entry tracker domain p)) policies).
  { apply list.Forall_forall. intros p Hp.
    destruct (Hentry p Hp) as (c & -> & _). by eexists. }
  destruct (select_loop_spec tracker domain policies Hok) as (best & Hl & Hinv).
  revert Hinv. unfold select_invariant.
  destruct (result_ best) as [probabilities|] eqn:Hres.
  2: { intros [_ Hall]. exfalso.
       destruct policies as [|p0 policies']; [done|].
       destruct (Hentry p0) as (c & He & Hs); [left|].
       by apply (Hall 0 p0 _ eq_refl He). }
  intros (i & p & Hwin & _).
  destruct (call_cases ACTION_LISTEN_NAME _ _ _ _ _ _ _ _ Hl Hwin Hlisten)
    as [[_ ->]|(_ & k & fp & fa & (Hk & Hfa & _) & ->)]; [by eexists _, _|].
  destruct (Hfb fp fa) as [j Hj]; [by eapply list_elem_of_lookup_2|done|].
  destruct (fallback_scores_at domain fa j Hj) as (scores & -> & _).
  by eexists _, _.
Qed.

(** C1 (amended): when the most recent event rejects [X], every
    distribution the call returns has probability 0 at the index of [X]
    (the rejected index is zeroed in each policy's distribution before the
    comparison), with one exception: when the override step applies and
    [X] is the fallback action of the first fallback policy, the
    distribution returned is the fixed fallback distribution, and it has
    probability 1 at the index of [X].  The call does return a
    distribution when the ensemble is not empty, the policies return
    distributions over the full action index space and the domain lists
    [action_listen] and the fallback actions. *)
Theorem rejected_action_has_zero_probability
    (ACTION_LISTEN_NAME : string) (policies : list Policy)
    (tracker : DialogueStateTracker) (domain : Domain)
    (X : string) (idx : nat) :
  list.last (events tracker) = Some (ActionExecutionRejected X) →
  index_for_action domain X = Ok idx →
  (∀ distribution name,
     probabilities_using_best_policy ACTION_LISTEN_NAME policies tracker
       domain = Ok (Some distribution, name) →
     (distribution !! idx = Some 0%Qc
      ∧ ¬ overridden_by_fallback_action ACTION_LISTEN_NAME policies tracker
            domain X)
     ∨ (distribution !! idx = Some 1%Qc
        ∧ overridden_by_fallback_action ACTION_LISTEN_NAME policies tracker
            domain X))
  ∧ (policies ≠ [] →
     (∀ p, p ∈ policies →
        length (predict_action_probabilities p tracker domain)
        = num_actions domain) →
     is_Ok (index_for_action domain ACTION_LISTEN_NAME) →
     (∀ p fa, p ∈ policies → fallback_action_name p = Some fa →
        is_Ok (index_for_action domain fa)) →
     ∃ distribution name,
       probabilities_using_best_policy ACTION_LISTEN_NAME policies tracker
         domain = Ok (Some distribution, Some name)).
Proof.
  intros Hlast Hidx. split.
  2: { intros Hne Hlen Hlisten Hin.
       by apply (returns_a_distribution ACTION_LISTEN_NAME policies tracker
                   domain X idx). }
  intros distribution name Hcall.
  destruct (select_loop tracker domain Best_init 0 policies) as [best|] eqn:Hl;
    [|by unfold probabilities_using_best_policy in Hcall; rewrite Hl in Hcall].
  assert (Hinv : select_invariant tracker domain policies best).
  { apply (select_loop_Ok_invariant tracker domain policies [] Best_init);
      [|done].
    split; [done|]. intros j q e Hj. by rewrite lookup_nil in Hj. }
  revert Hinv. unfold select_invariant.
  destruct (result_ best) as [probabilities|] eqn:Hres.
  2: { intros _. unfold probabilities_using_best_policy in Hcall.
       rewrite Hl in Hcall. simpl in Hcall. by rewrite Hres in Hcall. }
  intros (i & p & Hwin & _).
  assert (Hlisten : is_Ok (index_for_action domain ACTION_LISTEN_NAME)).
  { destruct (call_of_winner ACTION_LISTEN_NAME _ _ _ _ _ _ _ _ Hl Hwin)
      as (ri & _ & Heq).
    rewrite Heq in Hcall.
    destruct (index_for_action domain ACTION_LISTEN_NAME) as [li|];
      [by eexists|done]. }
  destruct (call_cases ACTION_LISTEN_NAME _ _ _ _ _ _ _ _ Hl Hwin Hlisten)
    as [[Hnot Heq]|(Hpred & k & fp & fa & Hfirst & Heq)];
    rewrite Heq in Hcall.
  - injection Hcall as <- _. left. split.
    + destruct Hwin as (_ & He & _).
      by eapply policy_entry_zero_at.
    + intros [(i' & p' & probabilities' & key' & Hwin' & Hpred') (k & fp & Hfirst)].
      destruct (is_winner_unique _ _ _ _ _ _ _ _ _ _ _ Hwin Hwin')
        as (<- & <- & <- & _).
      apply Hnot. split; [done|].
      destruct Hfirst as (Hk & Hfa & _).
      exists fp. split; [by eapply list_elem_of_lookup_2|by eexists].
  - destruct (fallback_scores fa domain) as [scores|] eqn:Hs; [|done].
    simpl in Hcall. injection Hcall as <- _.
    destruct (decide (fa = X)) as [->|Hne].
    + right. split.
      * destruct (fallback_scores_at domain X idx Hidx) as (scores' & Hs' & H1).
        congruence.
      * split; [|by exists k, fp].
        by exists i, p, probabilities, (best_key best).
    + left. split; [by eapply fallback_scores_zero_elsewhere|].
      intros [_ (k' & fp' & Hfirst')].
      by destruct (first_fallback_policy_unique _ _ _ _ _ _ _ Hfirst Hfirst')
        as (_ & _ & ?).
Qed.

Lemma rejected_action_has_zero_probability_witness :
  (∀ distribution name,
     probabilities_using_best_policy "action_listen" example_ensemble
       (example_rejecting_tracker "action_listen") example_domain
     = Ok (Some distribution, name) →
     (distribution !! 0 = Some 0%Qc
      ∧ ¬ overridden_by_fallback_action "action_listen" example_ensemble
            (example_rejecting_tracker "action_listen") example_domain
            "action_listen")
     ∨ (distribution !! 0 = Some 1%Qc
        ∧ overridden_by_fallback_action "action_listen" example_ensemble
            (example_rejecting_tracker "action_listen") example_domain
            "action_listen"))
  ∧ ∃ distribution name,
      probabilities_using_best_policy "action_listen" example_ensemble
        (example_rejecting_tracker "action_listen") example_domain
      = Ok (Some distribution, Some name).
Proof.
  assert (Hmembers : ∀ (P : Policy → Prop),
            Forall P example_ensemble → ∀ p, p ∈ example_ensemble → P p)
    by (intros P HP p Hp; by eapply list.Forall_forall in HP).
  destruct (rejected_action_has_zero_probability "action_listen"
              example_ensemble (example_rejecting_tracker "action_listen")
              example_domain "action_listen" 0) as [Hzero Hreturns].
  - reflexivity.
  - vm_compute. reflexivity.
  - split; [exact Hzero|]. apply Hreturns.
    + discriminate.
    + apply Hmembers. repeat constructor.
    + eexists. vm_compute. reflexivity.
    + intros p fa Hp. revert fa.
      apply (Hmembers (λ p, ∀ fa, fallback_action_name p = Some fa →
                              is_Ok (index_for_action example_domain fa)));
        [|exact Hp].
      repeat constructor; intros fa [= <-].
      eexists. vm_compute. reflexivity.
Defined.

(** On the example the learned policy favours [action_listen]; once
    [action_listen] is rejected its distribution enters the comparison with
    a zero there, and that distribution is returned. *)
Example rejected_listen_is_zeroed :
  probabilities_using_best_policy "action_listen" example_ensemble
    (example_rejecting_tracker "action_listen") example_domain
  = Ok (Some [0%Qc; Qc_of 5 10; Qc_of 1 10], Some "policy_0_KerasPolicy").
Proof. vm_compute. reflexivity. Qed.

(** C1 as stated fails: the rejected action is the fallback action, the
    learned policy wins with [action_listen] after a user message, and the
    override returns the fallback distribution, which puts probability 1 on
    the rejected action. *)
Lemma rejected_action_nonzero_counterexample :
  list.last (events (example_rejecting_tracker "action_default_fallback"))
  = Some (ActionExecutionRejected "action_default_fallback")
  ∧ index_for_action example_domain "action_default_fallback" = Ok 1
  ∧ probabilities_using_best_policy "action_listen" example_ensemble
      (example_rejecting_tracker "action_default_fallback") example_domain
    = Ok (Some [0%Qc; 1%Qc; 0%Qc], Some "policy_1_FallbackPolicy")
  ∧ [0%Qc; 1%Qc; 0%Qc] !! 1 ≠ Some 0%Qc.
Proof.
  split; [reflexivity|]. split; [vm_compute; reflexivity|].
  split; [vm_compute; reflexivity|]. discriminate.
Qed.

(** ** Ensemble: the fallback override *)

(** C2: when the tracker's latest action is [action_listen], the policy
    holding the first maximal key is not of the memoization family and its
    top probability sits at the index of [action_listen], and the ensemble
    has a fallback policy, the call returns the fixed fallback distribution
    of the (first) fallback policy together with that policy's
    identifier. *)
Theorem fallback_overrides_listen
    (ACTION_LISTEN_NAME : string) (policies : list Policy)
    (tracker : DialogueStateTracker) (domain : Domain)
    (i : nat) (p : Policy) (probabilities : list Qc) (key : Qc * Z)
    (listen_index k : nat) (fp : Policy) (fa : string) (scores : list Qc) :
  Forall (λ q, is_Ok (policy_entry tracker domain q)) policies →
  latest_action_name tracker = Some ACTION_LISTEN_NAME →
  index_for_action domain ACTION_LISTEN_NAME = Ok listen_index →
  is_winner tracker domain policies i p probabilities key →
  is_not_memo_policy (policy_name i p) = true →
  top_action probabilities = Ok listen_index →
  first_fallback_policy policies k fp fa →
  fallback_scores fa domain = Ok scores →
  probabilities_using_best_policy ACTION_LISTEN_NAME policies tracker domain
  = Ok (Some scores, Some (policy_name k fp)).
Proof.
  intros Hok Hlatest Hlisten Hwin Hmemo Htop Hfirst Hscores.
  destruct (select_loop_spec tracker domain policies Hok) as (best & Hl & Hinv).
  unfold probabilities_using_best_policy. rewrite Hl. simpl.
  revert Hinv. unfold select_invariant.
  destruct (result_ best) as [probabilities'|] eqn:Hres.
  2: { intros [_ Hall]. exfalso.
       destruct Hwin as (Hi & He & Hs & _).
       by apply (Hall i p _ Hi He). }
  intros (i' & p' & Hwin' & Hname).
  destruct (is_winner_unique _ _ _ _ _ _ _ _ _ _ _ Hwin Hwin')
    as (<- & <- & <- & Hkey).
  assert (Hmax : np_max probabilities = Ok (max_confidence best)).
  { destruct Hwin as (_ & He & _). revert He. unfold policy_entry.
    destruct (zero_rejected _ _ _) as [probs|]; simpl; [|done].
    destruct (np_max probs) as [c'|] eqn:Hc'; simpl; [|done].
    intros [= -> Hk]. rewrite Hc'. f_equal.
    assert (Hbk : best_key best = (c', priority p)) by congruence.
    unfold best_key in Hbk. congruence. }
  revert Htop. unfold top_action. rewrite Hmax. simpl. intros ->. simpl.
  rewrite Hlisten. simpl.
  rewrite !bool_decide_true by done. simpl.
  rewrite Hname. simpl. rewrite Hmemo.
  destruct (fallback_idx_policy_first policies k fp fa Hfirst) as [rest ->].
  destruct Hfirst as (_ & -> & _). simpl. by rewrite Hscores.
Qed.

Lemma fallback_overrides_listen_witness :
  probabilities_using_best_policy "action_listen" example_ensemble
    example_tracker example_domain
  = Ok (Some [0%Qc; 1%Qc; 0%Qc], Some "policy_1_FallbackPolicy").
Proof.
  match goal with
  | |- _ = Ok (_, Some ?name) =>
      change name with
        (policy_name 1
           {| type_name := "FallbackPolicy"; priority := 4;
              predict_action_probabilities :=
                λ _ _, [Qc_of 0 1; Qc_of 3 10; Qc_of 0 1];
              fallback_action_name := Some "action_default_fallback" |})
  end.
  eapply (fallback_overrides_listen "action_listen" example_ensemble
            example_tracker example_domain 0 _
            [Qc_of 9 10; Qc_of 5 10; Qc_of 1 10] (Qc_of 9 10, 1%Z)
            0 1 _ "action_default_fallback").
  - repeat constructor; eexists; vm_compute; reflexivity.
  - reflexivity.
  - vm_compute. reflexivity.
  - split; [reflexivity|]. split; [vm_compute; reflexivity|].
    split; [by left|]. split.
    + intros j q e Hj He.
      destruct j as [|[|j]]; simpl in Hj; [| |done]; injection Hj as <-;
        vm_compute in He; injection He as <-; simpl.
      * apply key_lt_irrefl.
      * intros [H|[H _]]; [|discriminate]. by vm_compute in H.
    + intros j q e Hj. lia.
  - vm_compute. reflexivity.
  - vm_compute. reflexivity.
  - split; [reflexivity|]. split; [reflexivity|].
    intros j q Hj Hq. destruct j; [|lia]. by injection Hq as <-.
  - vm_compute. reflexivity.
Defined.

(** ** Ensemble: model compatibility *)



(** ** Strings *)

(** *** Concatenation and the underscore separator *)

Lemma append_nil_l (s : string) : "" +:+ s = s.
Proof. reflexivity. Qed.

Lemma append_cons (c : Ascii.ascii) (s t : string) :
  String c s +:+ t = String c (s +:+ t).
Proof. reflexivity. Qed.

Lemma has_char_app (c : Ascii.ascii) (a b : string) :
  has_char c (a +:+ b) = has_char c a || has_char c b.
Proof.
  induction a as [|c' a IH]; rewrite ?append_cons, ?append_nil_l; simpl;
    [done|].
  rewrite IH. by rewrite orb_assoc.
Qed.

Lemma pretty_N_go_no_underscore (x : N) (s : string) :
  has_char underscore s = false →
  has_char underscore (pretty_N_go x s) = false.
Proof.
  revert s. induction (N.lt_wf_0 x) as [x _ IH]; intros s Hs.
  assert (x = 0 ∨ 0 < x)%N as [->|?] by lia.
  - by rewrite pretty_N_go_0.
  - rewrite pretty_N_go_step by done. apply IH.
    { by apply N.div_lt. }
    simpl. rewrite Hs. unfold pretty_N_char. by repeat case_match.
Qed.

Lemma pretty_nat_no_underscore (i : nat) :
  has_char underscore (pretty i) = false.
Proof.
  unfold pretty, pretty_nat, pretty, pretty_N.
  case_decide; [done|]. by apply pretty_N_go_no_underscore.
Qed.

Lemma underscore_split_first (x a y b : string) :
  has_char underscore x = false → has_char underscore y = false →
  x +:+ "_" +:+ a = y +:+ "_" +:+ b → x = y ∧ a = b.
Proof.
  revert y. induction x as [|c x IH]; intros [|c' y] Hx Hy Heq;
    rewrite ?append_cons, ?append_nil_l in Heq; simpl in *.
  - by simplify_eq.
  - injection Heq as <- _. done.
  - injection Heq as -> _. done.
  - apply orb_false_iff in Hx as [_ Hx]. apply orb_false_iff in Hy as [_ Hy].
    injection Heq as -> Heq. destruct (IH y Hx Hy Heq) as [-> ->]. done.
Qed.

Lemma underscore_split_last (a x b y : string) :
  has_char underscore x = false → has_char underscore y = false →
  a +:+ "_" +:+ x = b +:+ "_" +:+ y → a = b ∧ x = y.
Proof.
  intros Hx Hy. revert b.
  induction a as [|c a IH]; intros [|c' b] Heq;
    rewrite ?append_cons, ?append_nil_l in Heq.
  - by simplify_eq.
  - injection Heq as <- Heq. rewrite Heq in Hx.
    rewrite has_char_app in Hx. simpl in Hx.
    by rewrite orb_true_r in Hx.
  - injection Heq as -> Heq. rewrite <- Heq in Hy.
    rewrite has_char_app in Hy. simpl in Hy.
    by rewrite orb_true_r in Hy.
  - injection Heq as -> Heq. destruct (IH b Heq) as [-> ->]. done.
Qed.

(** *** Code-point order on strings *)

Lemma Ascii_compare_Lt_trans a b c :
  Ascii.compare a b = Lt → Ascii.compare b c = Lt → Ascii.compare a c = Lt.
Proof. unfold Ascii.compare. rewrite !N.compare_lt_iff. lia. Qed.

Lemma String_compare_Lt_trans (s1 s2 s3 : string) :
  String.compare s1 s2 = Lt → String.compare s2 s3 = Lt →
  String.compare s1 s3 = Lt.
Proof.
  revert s2 s3. induction s1 as [|c1 s1 IH]; intros [|c2 s2] [|c3 s3];
    simpl; try done.
  destruct (Ascii.compare c1 c2) eqn:E12; try done;
  destruct (Ascii.compare c2 c3) eqn:E23; try done.
  - apply Ascii.compare_eq_iff in E12, E23. subst.
    assert (Ascii.compare c3 c3 = Eq) as ->.
    { unfold Ascii.compare. apply N.compare_refl. }
    apply IH.
  - apply Ascii.compare_eq_iff in E12. subst. by rewrite E23.
  - apply Ascii.compare_eq_iff in E23. subst. by rewrite E12.
  - by rewrite (Ascii_compare_Lt_trans _ _ _ E12 E23).
Qed.

Lemma String_compare_refl (s : string) : String.compare s s = Eq.
Proof.
  induction s as [|c s IH]; simpl; [done|].
  assert (Ascii.compare c c = Eq) as ->; [|done].
  unfold Ascii.compare. apply N.compare_refl.
Qed.

#[export] Instance str_le_trans : Transitive str_le.
Proof.
  intros s1 s2 s3. unfold str_le, String.leb.
  destruct (String.compare s1 s2) eqn:E12; try done;
  destruct (String.compare s2 s3) eqn:E23; try done; intros _ _.
  - apply String.compare_eq_iff in E12, E23. subst.
    by rewrite String_compare_refl.
  - apply String.compare_eq_iff in E12. subst. by rewrite E23.
  - apply String.compare_eq_iff in E23. subst. by rewrite E12.
  - by rewrite (String_compare_Lt_trans _ _ _ E12 E23).
Qed.

#[export] Instance str_le_total : Total str_le.
Proof. intros s1 s2. apply String.leb_total. Qed.

#[export] Instance str_le_antisym : AntiSymm eq str_le.
Proof. intros s1 s2. apply String.leb_antisym. Qed.

Lemma sorted_StronglySorted (l : list string) : StronglySorted str_le (sorted l).
Proof. apply StronglySorted_merge_sort; apply _. Qed.

Lemma sorted_Permutation (l : list string) : sorted l ≡ₚ l.
Proof. apply merge_sort_Permutation. Qed.


Lemma sorted_id (l : list string) : StronglySorted str_le l → sorted l = l.
Proof.
  intros H. apply (StronglySorted_unique str_le);
    [apply sorted_StronglySorted|done|apply sorted_Permutation].
Qed.

(** ** Domain: looking up actions and states *)

(** X1: [index_for_action] returns the first position of the name in
    [action_names], and raises [NameError] exactly for a name that is not
    an action of the domain. *)
Theorem index_for_action_first_occurrence (d : Domain) (a : string) :
  (∀ i, index_for_action d a = Ok i
        ↔ action_names d !! i = Some a
          ∧ ∀ j, j < i → action_names d !! j ≠ Some a)
  ∧ ((∃ message, index_for_action d a = Raise (NameError message))
     ↔ a ∉ action_names d).
Proof.
  unfold index_for_action, _raise_action_not_found_exception.
  destruct (list_find (λ a', a' = a) (action_names d)) as [[k x]|] eqn:E.
  - apply list_find_Some in E as (Hk & -> & Hfirst). split.
    + intros i. split.
      * intros [= <-]. split; [done|]. intros j Hj Hja.
        by apply (Hfirst j a).
      * intros [Hi Hbefore]. f_equal.
        destruct (Nat.lt_trichotomy k i) as [Hlt|[->|Hlt]]; [|done|].
        -- by destruct (Hbefore k Hlt).
        -- by destruct (Hfirst i a Hi Hlt).
    + split; [by intros [? ?]|]. intros Hnot. destruct Hnot.
      by eapply list_elem_of_lookup_2.
  - apply list_find_None in E. split.
    + intros i. split; [done|]. intros [Hi _].
      rewrite list.Forall_forall in E. destruct (E a); [|done].
      by eapply list_elem_of_lookup_2.
    + split; [|by eauto]. intros _ Hin.
      rewrite list.Forall_forall in E. by destruct (E a).
Qed.

(** X2: [action_for_index] raises [IndexError] for a negative index and for
    one that is not below [num_actions]; for every other index it hands the
    name at that position to [action_from_name], so the check of
    [action_for_name] never fails there. *)
Theorem action_for_index_bounds
    (Action EndpointConfig : Type)
    (action_from_name :
       string → option EndpointConfig → list string → result Action)
    (d : Domain) (index : Z) (action_endpoint : option EndpointConfig) :
  ((index < 0 ∨ Z.of_nat (num_actions d) ≤ index)%Z →
   action_for_index Action EndpointConfig action_from_name d index
     action_endpoint = Raise IndexError)
  ∧ ((0 ≤ index < Z.of_nat (num_actions d))%Z →
     ∃ name,
       action_names d !! Z.to_nat index = Some name
       ∧ action_for_index Action EndpointConfig action_from_name d index
           action_endpoint
         = action_from_name name action_endpoint
             (user_actions d ++ form_names d)).
Proof.
  unfold action_for_index. split.
  - intros Hout. case_decide; [done|]. lia.
  - intros Hin. case_decide; [lia|].
    destruct (action_names d !! Z.to_nat index) as [name|] eqn:E.
    + exists name. split; [done|]. unfold action_for_name.
      case_decide as Hname; [done|]. destruct Hname.
      by eapply list_elem_of_lookup_2.
    + apply list.lookup_ge_None in E. unfold num_actions in Hin. lia.
Qed.

Lemma mapM_result_ext {A B} (f g : A → result B) (l : list A) :
  (∀ x, x ∈ l → f x = g x) → mapM f l = mapM g l.
Proof.
  induction l as [|x l IH]; intros Hfg; [done|]. simpl.
  rewrite (Hfg x) by left. rewrite IH; [done|].
  intros y Hy. apply Hfg. by right.
Qed.

(** X3: [actions] never raises the domain's [NameError]: each name it looks
    up is a registered action, so the list is built by [action_from_name]
    alone, one action per entry of [action_names] and in that order. *)
Theorem actions_are_built_for_every_name
    (Action EndpointConfig : Type)
    (action_from_name :
       string → option EndpointConfig → list string → result Action)
    (d : Domain) (action_endpoint : option EndpointConfig) :
  actions Action EndpointConfig action_from_name d action_endpoint
  = mapM (λ name, action_from_name name action_endpoint
                    (user_actions d ++ form_names d))
         (action_names d)
  ∧ ∀ l, actions Action EndpointConfig action_from_name d action_endpoint
         = Ok l →
         length l = num_actions d.
Proof.
  assert (actions Action EndpointConfig action_from_name d action_endpoint
          = mapM (λ name, action_from_name name action_endpoint
                            (user_actions d ++ form_names d))
                 (action_names d)) as Heq.
  { unfold actions. apply mapM_result_ext. intros name Hname.
    unfold action_for_name. by case_decide. }
  split; [done|]. rewrite Heq. unfold num_actions.
  generalize (action_names d). intros names.
  induction names as [|n names IH]; intros l; simpl.
  - by intros [= <-].
  - destruct (action_from_name n action_endpoint _); simpl; [|done].
    destruct (mapM _ names) as [l'|] eqn:E; simpl; [|done].
    intros [= <-]. simpl. f_equal. by apply IH.
Qed.

Lemma state_map_lookup_last (l : list string) (s : string) (i : nat) :
  foldl (λ (m : gmap string nat) p, <[p.2 := p.1]> m) ∅ (enumerate l) !! s
  = Some i
  ↔ l !! i = Some s ∧ ∀ j, i < j → l !! j ≠ Some s.
Proof.
  revert i. induction l as [|x l IH] using rev_ind; intros i.
  - simpl. rewrite lookup_empty. split; [done|]. by intros [? _].
  - rewrite state_map_snoc. destruct (decide (x = s)) as [->|Hne].
    + rewrite lookup_insert_eq. split.
      * intros [= <-]. split.
        -- by rewrite list.lookup_app_r, Nat.sub_diag by lia.
        -- intros j Hj Hl. apply list.lookup_lt_Some in Hl.
           rewrite length_app in Hl. simpl in Hl. lia.
      * intros [Hi Hlast]. f_equal.
        pose proof (list.lookup_lt_Some _ _ _ Hi) as Hlt.
        rewrite length_app in Hlt. simpl in Hlt.
        destruct (decide (i = length l)) as [->|Hn]; [done|].
        destruct (Hlast (length l)); [lia|].
        by rewrite list.lookup_app_r, Nat.sub_diag by lia.
    + rewrite lookup_insert_ne by done. rewrite IH. split.
      * intros [Hi Hlast]. split.
        -- by apply list.lookup_app_l_Some.
        -- intros j Hj Hl. destruct (decide (j < length l)) as [Hlt|Hge].
           ++ rewrite list.lookup_app_l in Hl by done. by apply (Hlast j).
           ++ rewrite list.lookup_app_r in Hl by lia.
              destruct (j - length l) as [|n]; simpl in Hl; [|done].
              by simplify_eq.
      * intros [Hi Hlast].
        assert (i < length l) as Hlt.
        { destruct (decide (i < length l)) as [|Hge]; [done|].
          rewrite list.lookup_app_r in Hi by lia.
          destruct (i - length l) as [|n]; simpl in Hi; [|done].
          by simplify_eq. }
        rewrite list.lookup_app_l in Hi by done. split; [done|].
        intros j Hj Hl. apply (Hlast j Hj).
        by apply list.lookup_app_l_Some.
Qed.

(** X4: [index_of_state] maps a state name to the last position at which
    [input_states] holds it (the dict comprehension lets a later duplicate
    overwrite an earlier one), and to [None] exactly for a name that is not
    an input state. *)
Theorem index_of_state_last_occurrence (d : Domain) (state_name : string) :
  (∀ i, index_of_state d state_name = Some i
        ↔ input_states d !! i = Some state_name
          ∧ ∀ j, i < j → input_states d !! j ≠ Some state_name)
  ∧ (index_of_state d state_name = None ↔ state_name ∉ input_states d).
Proof.
  unfold index_of_state, input_state_map. split.
  - intros i. apply state_map_lookup_last.
  - split.
    + intros Hnone Hin. apply state_map_lookup_is_Some in Hin.
      rewrite Hnone in Hin. by destruct Hin.
    + intros Hnot.
      destruct (foldl _ _ _ !! state_name) as [i|] eqn:E; [|done].
      apply state_map_lookup_Some in E. destruct Hnot.
      by eapply list_elem_of_lookup_2.
Qed.

(** ** Domain: what the constructor accepts *)

Lemma filter_eq_nil {A} (P : A → Prop) `{∀ x, Decision (P x)} (l : list A) :
  filter P l = [] ↔ ∀ x, x ∈ l → ¬ P x.
Proof.
  split.
  - intros Hnil x Hx HP. by apply (filter_nil_not_elem_of P l x).
  - induction l as [|y l IH]; intros Hall; [done|].
    rewrite filter_cons. rewrite decide_False by (apply Hall; left).
    apply IH. intros x Hx. apply Hall. by right.
Qed.

Lemma filter_eq_length_NoDup (l : list string) (x : string) :
  NoDup l → (length (filter (λ y, y = x) l) ≤ 1)%nat.
Proof.
  induction 1 as [|y l Hy Hl IH]; [simpl; lia|].
  rewrite filter_cons. case_decide as Hyx; [|done]. subst y. simpl.
  assert (filter (λ y, y = x) l = []) as ->; [|simpl; lia].
  apply filter_eq_nil. intros z Hz ->. done.
Qed.

Lemma NoDup_get_duplicates_nil (l : list string) :
  NoDup l → get_duplicates l = [].
Proof.
  intros Hl. destruct (get_duplicates l) as [|x rest] eqn:E; [done|].
  assert (x ∈ get_duplicates l) as Hx by (rewrite E; left).
  apply get_duplicates_elem_of in Hx as [_ Hx].
  pose proof (filter_eq_length_NoDup l x Hl). lia.
Qed.

Lemma check_mappings_nil (action_names : list string)
    (intent_properties : list (string * IntentProperties)) :
  check_mappings action_names intent_properties = []
  ↔ ∀ name properties triggered_action,
      (name, properties) ∈ intent_properties →
      triggers properties = Some triggered_action →
      triggered_action ∈ action_names.
Proof.
  unfold check_mappings.
  induction intent_properties as [|[n p] ips IH]; simpl.
  - split; [|done]. intros _ ??? Hin. by apply elem_of_nil in Hin.
  - destruct (triggers p) as [a|] eqn:Ea; [case_decide as Hin|].
    + rewrite IH. split.
      * intros H name properties ta Hel Ht.
        apply elem_of_cons in Hel as [[= -> ->]|Hel]; [|by eapply H].
        by simplify_eq.
      * intros H name properties ta Hel Ht. eapply H; [|done]. by right.
    + split; [done|]. intros H. destruct Hin. eapply (H n p a); [left|done].
    + rewrite IH. split.
      * intros H name properties ta Hel Ht.
        apply elem_of_cons in Hel as [[= -> ->]|Hel]; [|by eapply H].
        by simplify_eq.
      * intros H name properties ta Hel Ht. eapply H; [|done]. by right.
Qed.

Lemma _check_domain_sanity_iff (D : Domain) :
  _check_domain_sanity D = Ok ()
  ↔ NoDup (action_names D)
    ∧ NoDup (slot_name <$> slots D)
    ∧ NoDup (entities D)
    ∧ ∀ name properties triggered_action,
        (name, properties) ∈ intent_properties D →
        triggers properties = Some triggered_action →
        triggered_action ∈ action_names D.
Proof.
  unfold _check_domain_sanity. rewrite <- check_mappings_nil. split.
  - intros H.
    destruct (get_duplicates (action_names D)) eqn:Ea; [|done].
    destruct (get_duplicates (slot_name <$> slots D)) eqn:Es; [|done].
    destruct (get_duplicates (entities D)) eqn:Ee; [|done].
    destruct (check_mappings _ _) eqn:Em; [|done].
    by auto using get_duplicates_nil_NoDup.
  - intros (Ha & Hs & He & ->).
    by rewrite !NoDup_get_duplicates_nil by done.
Qed.

(** X5: [_check_domain_sanity] accepts a domain exactly when no action
    name, no slot name and no entity occurs twice and every action that an
    intent triggers is an action of the domain; every other domain is
    rejected with [InvalidDomain].  Form names are not checked on their
    own, and intents not at all. *)
Theorem _check_domain_sanity_accepts (D : Domain) :
  (_check_domain_sanity D = Ok ()
   ↔ NoDup (action_names D)
     ∧ NoDup (slot_name <$> slots D)
     ∧ NoDup (entities D)
     ∧ ∀ name properties triggered_action,
         (name, properties) ∈ intent_properties D →
         triggers properties = Some triggered_action →
         triggered_action ∈ action_names D)
  ∧ (_check_domain_sanity D = Ok ()
     ∨ ∃ message, _check_domain_sanity D = Raise (InvalidDomain message)).
Proof.
  split; [apply _check_domain_sanity_iff|].
  unfold _check_domain_sanity.
  destruct (get_duplicates (action_names D)); [|by eauto].
  destruct (get_duplicates (slot_name <$> slots D)); [|by eauto].
  destruct (get_duplicates (entities D)); [|by eauto].
  destruct (check_mappings _ _); by eauto.
Qed.



(** a response variant in the form [collect_templates] stores *)
Lemma validate_variations_valid (template_key : string)
    (variations validated : list Template) (ws : list Warning) :
  validate_variations template_key variations = Ok (validated, ws) →
  Forall valid_template validated
  ∧ length validated = length variations
  ∧ length ws = length (filter is_template_text variations).
Proof.
  revert validated ws.
  induction variations as [|t variations IH]; intros validated ws.
  - simpl. intros [= <- <-]. by split_and!.
  - rewrite filter_cons.
    remember (filter is_template_text variations) as texts eqn:Htexts.
    destruct t as [s|d]; simpl.
    + destruct (validate_variations _ variations) as [[rest ws']|];
        simpl; [|done].
      intros [= <- <-]. destruct (IH rest ws' eq_refl) as (Hv & Hl & Hw).
      split_and!.
      * constructor; [|done]. exists {[ "text" := s ]}. split; [done|].
        left. by rewrite lookup_singleton_eq.
      * simpl. by rewrite Hl.
      * simpl. by rewrite Hw.
    + case_decide as Hd; simpl; [done|].
      destruct (validate_variations _ variations) as [[rest ws']|];
        simpl; [|done].
      intros [= <- <-]. destruct (IH rest ws' eq_refl) as (Hv & Hl & Hw).
      split_and!.
      * constructor; [|done]. exists d. split; [done|].
        destruct (d !! "text") eqn:Et; [by left; eauto|].
        destruct (d !! "custom") eqn:Ec; [by right; eauto|].
        by destruct Hd.
      * simpl. by rewrite Hl.
      * done.
Qed.

Lemma dict_set_elem_of {V} (d : list (string * V)) (k : string) (v : V)
    (kv : string * V) :
  kv ∈ dict_set d k v → kv = (k, v) ∨ kv ∈ d.
Proof.
  induction d as [|[k' v'] d IH]; simpl.
  - intros Hin. apply list_elem_of_singleton in Hin. by left.
  - case_decide as Hk.
    + intros Hin. apply elem_of_cons in Hin as [->|Hin]; [by left|].
      right. by right.
    + intros Hin. apply elem_of_cons in Hin as [->|Hin]; [right; by left|].
      destruct (IH Hin) as [->|?]; [by left|]. right. by right.
Qed.

Lemma collect_templates_from_valid
    (yml : list (string * option (list Template)))
    (acc templates : list (string * list Template)) (ws : list Warning) :
  collect_templates_from acc yml = Ok (templates, ws) →
  Forall (λ kv, Forall valid_template kv.2) acc →
  Forall (λ kv, Forall valid_template kv.2) templates.
Proof.
  revert acc templates ws.
  induction yml as [|[k [vs|]] yml IH]; intros acc templates ws; simpl.
  - by intros [= <- <-].
  - destruct (validate_variations k vs) as [[validated ws1]|] eqn:Ev;
      simpl; [|done].
    destruct (collect_templates_from _ yml) as [[templates' ws2]|] eqn:Ec;
      simpl; [|done].
    intros [= <- <-] Hacc. eapply IH; [done|].
    apply list.Forall_forall. intros kv Hkv.
    apply dict_set_elem_of in Hkv as [->|Hkv].
    + simpl. by apply validate_variations_valid in Ev as [? _].
    + rewrite list.Forall_forall in Hacc. by apply Hacc.
  - done.
Qed.

(** X7: every response variant that [collect_templates] stores is a dict
    holding a ["text"] or a ["custom"] entry, whatever the domain file
    listed; the utterances it returns are those of the file. *)
Theorem collect_templates_stores_valid_templates
    (yml_templates : list (string * option (list Template)))
    (templates : list (string * list Template)) (ws : list Warning) :
  collect_templates yml_templates = Ok (templates, ws) →
  (∀ template_key variations t,
     (template_key, variations) ∈ templates → t ∈ variations →
     ∃ d, t = TemplateDict d
          ∧ (is_Some (d !! "text") ∨ is_Some (d !! "custom")))
  ∧ ∀ template_key,
      template_key ∈ dict_keys templates
      ↔ template_key ∈ dict_keys yml_templates.
Proof.
  intros H. split.
  - intros k vs t Hk Ht.
    apply collect_templates_from_valid in H as Hall; [|constructor].
    rewrite list.Forall_forall in Hall. specialize (Hall _ Hk). simpl in Hall.
    rewrite list.Forall_forall in Hall. by apply Hall.
  - intros k. rewrite (collect_templates_from_keys _ _ _ _ k H).
    unfold dict_keys at 1. simpl. rewrite elem_of_nil. tauto.
Qed.

Lemma collect_templates_stores_valid_templates_witness :
  match collect_templates example_responses with
  | Ok (templates, _) =>
      (∀ template_key variations t,
         (template_key, variations) ∈ templates → t ∈ variations →
         ∃ d, t = TemplateDict d
              ∧ (is_Some (d !! "text") ∨ is_Some (d !! "custom")))
      ∧ ∀ template_key,
          template_key ∈ dict_keys templates
          ↔ template_key ∈ dict_keys example_responses
  | Raise _ => False
  end.
Proof.
  destruct (collect_templates example_responses) as [[templates ws]|e] eqn:E;
    [|vm_compute in E; discriminate].
  exact (collect_templates_stores_valid_templates example_responses
           templates ws E).
Defined.

(** ** Domain: the state schema of a constructed domain *)

Lemma _check_domain_sanity_NoDup (D : Domain) :
  _check_domain_sanity D = Ok () →
  NoDup (action_names D) ∧ NoDup (slot_name <$> slots D)
  ∧ NoDup (entities D).
Proof. intros H. apply _check_domain_sanity_iff in H. tauto. Qed.

Lemma first_char_fmap_prefix (prefix : string) (c : option Ascii.ascii)
    (l : list string) (x : string) :
  (∀ s, String.get 0 (prefix +:+ s) = c) →
  x ∈ (λ s, prefix +:+ s) <$> l → String.get 0 x = c.
Proof.
  intros Hp Hx. apply list_elem_of_fmap in Hx as (s & -> & _). apply Hp.
Qed.

Lemma NoDup_app_first_char (c : option Ascii.ascii) (l1 l2 : list string) :
  NoDup l1 → NoDup l2 →
  (∀ x, x ∈ l1 → String.get 0 x = c) →
  (∀ x, x ∈ l2 → String.get 0 x ≠ c) →
  NoDup (l1 ++ l2).
Proof.
  intros H1 H2 Hc1 Hc2. apply list.NoDup_app. split_and!; [done| |done].
  intros x Hx1 Hx2. by destruct (Hc2 x Hx2 (Hc1 x Hx1)).
Qed.

Lemma NoDup_fmap_prefix (prefix : string) (l : list string) :
  NoDup l → NoDup ((λ s, prefix +:+ s) <$> l).
Proof.
  apply NoDup_fmap_2. intros s1 s2 Heq. by apply String.app_inj in Heq.
Qed.

Lemma NoDup_fmap_inj_on {A B} (f : A → B) (l : list A) (a b : A) :
  NoDup (f <$> l) → a ∈ l → b ∈ l → f a = f b → a = b.
Proof.
  induction l as [|z l IH]; intros Hnd Ha Hb Hab.
  - by apply elem_of_nil in Ha.
  - rewrite fmap_cons in Hnd. apply list.NoDup_cons in Hnd as [Hz Hnd].
    apply elem_of_cons in Ha as [->|Ha];
      apply elem_of_cons in Hb as [->|Hb]; [done| | |by apply IH].
    + destruct Hz. rewrite Hab. apply list_elem_of_fmap. by exists b.
    + destruct Hz. rewrite <- Hab. apply list_elem_of_fmap. by exists a.
Qed.

Lemma slot_states_NoDup (D : Domain) :
  NoDup (slot_name <$> slots D) → NoDup (slot_states D).
Proof.
  intros Hnames. unfold slot_states. apply NoDup_bind.
  - intros s1 s2 y Hs1 Hs2 Hy1 Hy2.
    apply list_elem_of_fmap in Hy1 as (i1 & -> & _).
    apply list_elem_of_fmap in Hy2 as (i2 & Heq & _).
    apply String.app_inj in Heq.
    apply underscore_split_last in Heq as [Heq _];
      [|apply pretty_nat_no_underscore..].
    by apply (NoDup_fmap_inj_on slot_name (slots D)).
  - intros s _. apply NoDup_fmap_2; [|apply NoDup_seq].
    intros i j Heq. apply String.app_inj in Heq.
    apply underscore_split_last in Heq as [_ Heq];
      [|apply pretty_nat_no_underscore..].
    by apply pretty_nat_inj in Heq.
  - by apply NoDup_fmap_1 in Hnames.
Qed.

Lemma input_states_NoDup (D : Domain) :
  NoDup (dict_keys (intent_properties D)) →
  NoDup (entities D) →
  NoDup (slot_name <$> slots D) →
  NoDup (action_names D) →
  NoDup (form_names D) →
  NoDup (input_states D).
Proof.
  intros Hi He Hs Ha Hf. unfold input_states.
  assert (NoDup (intent_states D)) as Hi'.
  { apply NoDup_fmap_prefix. unfold intents.
    by rewrite sorted_Permutation. }
  assert (NoDup (entity_states D)) as He' by by apply NoDup_fmap_prefix.
  assert (NoDup (slot_states D)) as Hs' by by apply slot_states_NoDup.
  assert (NoDup (prev_action_states D)) as Ha' by by apply NoDup_fmap_prefix.
  assert (NoDup (form_states D)) as Hf' by by apply NoDup_fmap_prefix.
  assert (∀ x, x ∈ intent_states D → String.get 0 x = String.get 0 "i") as Ci.
  { intros x. by apply first_char_fmap_prefix. }
  assert (∀ x, x ∈ entity_states D → String.get 0 x = String.get 0 "e") as Ce.
  { intros x. by apply first_char_fmap_prefix. }
  assert (∀ x, x ∈ slot_states D → String.get 0 x = String.get 0 "s") as Cs.
  { intros x Hx. apply list_elem_of_bind in Hx as (s & Hx & _).
    by apply list_elem_of_fmap in Hx as (i & -> & _). }
  assert (∀ x, x ∈ prev_action_states D → String.get 0 x = String.get 0 "p")
    as Cp.
  { intros x. by apply first_char_fmap_prefix. }
  assert (∀ x, x ∈ form_states D → String.get 0 x = String.get 0 "a") as Ca.
  { intros x. by apply first_char_fmap_prefix. }
  apply (NoDup_app_first_char (String.get 0 "i")); [done| |done|].
  2:{ intros x Hx. rewrite !elem_of_app in Hx.
      destruct Hx as [Hx|[Hx|[Hx|Hx]]];
        [rewrite (Ce x Hx)|rewrite (Cs x Hx)|rewrite (Cp x Hx)
        |rewrite (Ca x Hx)]; done. }
  apply (NoDup_app_first_char (String.get 0 "e")); [done| |done|].
  2:{ intros x Hx. rewrite !elem_of_app in Hx.
      destruct Hx as [Hx|[Hx|Hx]];
        [rewrite (Cs x Hx)|rewrite (Cp x Hx)|rewrite (Ca x Hx)]; done. }
  apply (NoDup_app_first_char (String.get 0 "s")); [done| |done|].
  2:{ intros x Hx. rewrite !elem_of_app in Hx.
      destruct Hx as [Hx|Hx]; [rewrite (Cp x Hx)|rewrite (Ca x Hx)]; done. }
  apply (NoDup_app_first_char (String.get 0 "p")); [done|done|done|].
  intros x Hx. by rewrite (Ca x Hx).
Qed.

Lemma Domain_init_NoDup
    (combine_with_templates :
       list string → list (string * list Template) → list string)
    (combine_user_with_default_actions : list string → list string)
    (intents' : list IntentSpec) (entities' : list string)
    (slots' : list Slot) (templates' : list (string * list Template))
    (action_names' form_names' : list string)
    (store_entities_as_slots' : bool) (session_config' : SessionConfig)
    (D : Domain) :
  Domain_init combine_with_templates combine_user_with_default_actions
    intents' entities' slots' templates' action_names' form_names'
    store_entities_as_slots' session_config' = Ok D →
  NoDup (dict_keys (intent_properties D))
  ∧ NoDup (entities D)
  ∧ NoDup (slot_name <$> slots D)
  ∧ NoDup (action_names D)
  ∧ NoDup (form_names D).
Proof.
  intros H. apply Domain_init_Ok in H as (Hnames & HD & Hsane).
  apply _check_domain_sanity_NoDup in Hsane as (Ha & Hs & He).
  split_and!; try done.
  - rewrite HD. simpl. unfold dict_keys. rewrite <- list_fmap_compose.
    erewrite list_fmap_ext; [exact Hnames|].
    intros i x _. simpl. apply intent_entry_name.
  - rewrite HD in Ha. simpl in Ha. apply list.NoDup_app in Ha as (_ & _ & Hf).
    by rewrite HD.
Qed.

(** X8: in a domain that [Domain.__init__] accepted, no state name occurs
    twice in [input_states] (slot states included: the feature index is
    the part after the last underscore), so [index_of_state] is the inverse
    of the position in [input_states]. *)
Theorem constructed_domain_states_are_distinct
    (combine_with_templates :
       list string → list (string * list Template) → list string)
    (combine_user_with_default_actions : list string → list string)
    (intents : list IntentSpec) (entities : list string) (slots : list Slot)
    (templates : list (string * list Template))
    (action_names form_names : list string)
    (store_entities_as_slots : bool) (session_config : SessionConfig)
    (D : Domain) :
  Domain_init combine_with_templates combine_user_with_default_actions
    intents entities slots templates action_names form_names
    store_entities_as_slots session_config = Ok D →
  NoDup (input_states D)
  ∧ ∀ i state_name,
      input_states D !! i = Some state_name
      ↔ index_of_state D state_name = Some i.
Proof.
  intros H. apply Domain_init_NoDup in H as (Hi & He & Hs & Ha & Hf).
  assert (NoDup (input_states D)) as Hnd by by apply input_states_NoDup.
  split; [done|]. intros i s. unfold index_of_state, input_state_map.
  rewrite state_map_lookup_last. split; [|by intros [? _]].
  intros Hi'. split; [done|]. intros j Hj Hj'.
  pose proof (NoDup_lookup _ _ _ _ Hnd Hi' Hj'). lia.
Qed.

Lemma constructed_domain_states_are_distinct_witness :
  match from_dict true example_combine_with_templates
          example_combine_user_with_default_actions example_domain_dict with
  | Ok (D, _) =>
      NoDup (input_states D)
      ∧ ∀ i state_name,
          input_states D !! i = Some state_name
          ↔ index_of_state D state_name = Some i
  | Raise _ => False
  end.
Proof.
  destruct (from_dict true example_combine_with_templates
              example_combine_user_with_default_actions example_domain_dict)
    as [[D ws]|e] eqn:E; [|vm_compute in E; discriminate].
  apply from_dict_Ok_inv in E as (T & ws1 & session_config & _ & E).
  exact (constructed_domain_states_are_distinct _ _ _ _ _ _ _ _ _ _ D E).
Defined.

(** *** The order of intents and slots in the domain file *)


Lemma dict_get_is_Some {V} (d : list (string * V)) (k : string) :
  k ∈ dict_keys d → is_Some (dict_get d k).
Proof.
  induction d as [|[k' v'] d IH]; simpl.
  - intros Hk. by apply elem_of_nil in Hk.
  - intros Hk. case_decide as Hkk; [by eauto|].
    apply elem_of_cons in Hk as [->|Hk]; [done|]. by apply IH.
Qed.


Lemma collect_slots_names (slot_dict : list (string * SlotInfo)) :
  slot_name <$> collect_slots slot_dict = sorted (dict_keys slot_dict).
Proof.
  unfold collect_slots.
  assert (∀ k, k ∈ sorted (dict_keys slot_dict) → k ∈ dict_keys slot_dict)
    as Hin.
  { intros k. by rewrite sorted_Permutation. }
  revert Hin. generalize (sorted (dict_keys slot_dict)). intros l.
  induction l as [|k l IH]; intros Hin; [done|]. csimpl.
  destruct (dict_get_is_Some slot_dict k) as [info ->]; [apply Hin; left|].
  csimpl. f_equal. apply IH. intros k' Hk'. apply Hin. by right.
Qed.




(** ** Domain: writing a domain out and reading it back *)

Lemma dict_set_keys_eq {V} (d : list (string * V)) (k : string) (v : V) :
  dict_keys (dict_set d k v)
  = if decide (k ∈ dict_keys d) then dict_keys d else dict_keys d ++ [k].
Proof.
  unfold dict_keys. induction d as [|[k' v'] d IH]; [done|].
  cbn [dict_set]. destruct (decide (k' = k)) as [->|Hne].
  - rewrite !fmap_cons. cbn [fst]. by rewrite decide_True by left.
  - rewrite !fmap_cons. cbn [fst]. rewrite IH.
    destruct (decide (k ∈ d.*1)) as [Hin|Hnin].
    + by rewrite decide_True by (by right).
    + rewrite decide_False; [done|].
      intros Hin. apply elem_of_cons in Hin as [->|Hin]; done.
Qed.

Lemma dict_set_NoDup {V} (d : list (string * V)) (k : string) (v : V) :
  NoDup (dict_keys d) → NoDup (dict_keys (dict_set d k v)).
Proof.
  intros Hnd. rewrite dict_set_keys_eq. case_decide as Hk; [done|].
  apply list.NoDup_app. split_and!; [done| |apply NoDup_singleton].
  intros x Hx Hx'. apply list_elem_of_singleton in Hx'. by subst.
Qed.

Lemma dict_update_fresh {V} (acc d : list (string * V)) :
  NoDup (dict_keys (acc ++ d)) → dict_update acc d = acc ++ d.
Proof.
  unfold dict_update. revert acc.
  induction d as [|[k v] d IH]; intros acc Hnd; simpl.
  - by rewrite app_nil_r.
  - assert (k ∉ dict_keys acc) as Hk.
    { unfold dict_keys in *. rewrite fmap_app in Hnd.
      apply list.NoDup_app in Hnd as (_ & Hdisj & _).
      intros Hin. apply (Hdisj k Hin). rewrite fmap_cons. left. }
    rewrite dict_set_fresh by done. rewrite IH.
    + by rewrite <- app_assoc.
    + by rewrite <- app_assoc.
Qed.

Lemma dict_of_items_NoDup {V} (d : list (string * V)) :
  NoDup (dict_keys d) → dict_of_items d = d.
Proof. intros Hnd. unfold dict_of_items. by rewrite dict_update_fresh. Qed.

Lemma collect_templates_from_NoDup
    (yml : list (string * option (list Template)))
    (acc templates : list (string * list Template)) (ws : list Warning) :
  collect_templates_from acc yml = Ok (templates, ws) →
  NoDup (dict_keys acc) → NoDup (dict_keys templates).
Proof.
  revert acc templates ws.
  induction yml as [|[k [vs|]] yml IH]; intros acc templates ws; simpl.
  - by intros [= <- <-].
  - destruct (validate_variations k vs) as [[validated ws1]|] eqn:Ev;
      simpl; [|done].
    destruct (collect_templates_from _ yml) as [[templates' ws2]|] eqn:Ec;
      simpl; [|done].
    intros [= <- <-] Hacc. eapply IH; [done|]. by apply dict_set_NoDup.
  - done.
Qed.

Lemma validate_variations_id (template_key : string)
    (variations : list Template) :
  Forall valid_template variations →
  validate_variations template_key variations = Ok (variations, []).
Proof.
  induction 1 as [|t variations (d & -> & Hd) _ IH]; [done|]. simpl.
  rewrite decide_False.
  - rewrite IH. done.
  - intros [Ht Hc]. rewrite Ht, Hc in Hd. by destruct Hd as [[? ?]|[? ?]].
Qed.

Lemma collect_templates_from_valid_id
    (T acc : list (string * list Template)) :
  Forall (λ kv, Forall valid_template kv.2) T →
  collect_templates_from acc ((λ kv, (kv.1, Some kv.2)) <$> T)
  = Ok (dict_update acc T, []).
Proof.
  intros HT. revert acc.
  induction HT as [|[k vs] T Hvs _ IH]; intros acc; [done|]. csimpl.
  rewrite validate_variations_id by done. simpl. rewrite IH. done.
Qed.

Lemma normalise_raw_of_properties (p : IntentProperties) :
  normalise_properties (raw_of_properties p) = p.
Proof. by destruct p as [[|l] ign t]. Qed.

Lemma collect_slots_slot_definitions (l : list Slot) :
  NoDup (slot_name <$> l) →
  StronglySorted str_le (slot_name <$> l) →
  collect_slots (dict_of_items ((λ s, (slot_name s, slot_info s)) <$> l)) = l.
Proof.
  intros Hnd Hsorted.
  assert (dict_keys ((λ s, (slot_name s, slot_info s)) <$> l)
          = slot_name <$> l) as Hkeys.
  { unfold dict_keys. by rewrite <- list_fmap_compose. }
  rewrite dict_of_items_NoDup by (by rewrite Hkeys).
  unfold collect_slots. rewrite Hkeys, sorted_id by done.
  assert (∀ s, s ∈ l →
            dict_get ((λ s, (slot_name s, slot_info s)) <$> l) (slot_name s)
            = Some (slot_info s)) as Hget.
  { intros s Hs. apply dict_get_NoDup; [by rewrite Hkeys|].
    apply list_elem_of_fmap. by exists s. }
  revert Hget. generalize ((λ s, (slot_name s, slot_info s)) <$> l).
  intros d Hget. clear Hnd Hsorted Hkeys.
  induction l as [|s l IH]; [done|]. csimpl.
  rewrite Hget by left. csimpl. rewrite IH.
  - by destruct s.
  - intros s' Hs'. apply Hget. by right.
Qed.

Lemma from_dict_Ok_intro
    (DEFAULT_CARRY_OVER_SLOTS_TO_NEW_SESSION : bool)
    (combine_with_templates :
       list string → list (string * list Template) → list string)
    (combine_user_with_default_actions : list string → list string)
    (data : DomainDict) (T : list (string * list Template))
    (ws1 : list Warning) (M : Domain) :
  collect_templates (dd_responses data) = Ok (T, ws1) →
  Domain_init combine_with_templates combine_user_with_default_actions
    (dd_intents data) (dd_entities data) (collect_slots (dd_slots data))
    T (dd_actions data) (dd_forms data) (dd_store_entities_as_slots data)
    (_get_session_config DEFAULT_CARRY_OVER_SLOTS_TO_NEW_SESSION
       (dd_session_expiration_time data) (dd_carry_over_slots data)).1
  = Ok M →
  from_dict DEFAULT_CARRY_OVER_SLOTS_TO_NEW_SESSION combine_with_templates
    combine_user_with_default_actions data
  = Ok (M, ws1 ++ (_get_session_config DEFAULT_CARRY_OVER_SLOTS_TO_NEW_SESSION
                     (dd_session_expiration_time data)
                     (dd_carry_over_slots data)).2).
Proof.
  intros HT Hinit. unfold from_dict. rewrite HT. simpl.
  destruct (_get_session_config _ _ _) as [sc ws2]. simpl in *.
  by rewrite Hinit.
Qed.

(** X10: a domain written out by [as_dict] reads back as itself: for every
    domain [D] that [from_dict] built, [from_dict (as_dict D)] succeeds,
    returns [D] and raises no warning, provided that adding the template
    names to the user actions a second time changes nothing. *)
Theorem as_dict_from_dict_round_trip
    (DEFAULT_CARRY_OVER_SLOTS_TO_NEW_SESSION : bool)
    (combine_with_templates :
       list string → list (string * list Template) → list string)
    (combine_user_with_default_actions : list string → list string)
    (data : DomainDict) (D : Domain) (ws : list Warning) :
  (∀ actions templates,
     combine_with_templates (combine_with_templates actions templates)
       templates
     = combine_with_templates actions templates) →
  from_dict DEFAULT_CARRY_OVER_SLOTS_TO_NEW_SESSION combine_with_templates
    combine_user_with_default_actions data = Ok (D, ws) →
  from_dict DEFAULT_CARRY_OVER_SLOTS_TO_NEW_SESSION combine_with_templates
    combine_user_with_default_actions (as_dict D) = Ok (D, []).
Proof.
  intros Hidem H.
  apply from_dict_Ok_inv in H as (T & wsT & sc & HT & Hinit).
  apply Domain_init_Ok in Hinit as (Hnames & HD & Hsane).
  pose proof Hsane as Hsane'.
  apply _check_domain_sanity_iff in Hsane' as (Ha & Hs & He & Hm).
  assert (Forall (λ kv, Forall valid_template kv.2) T) as HTvalid.
  { by apply collect_templates_from_valid in HT. }
  assert (NoDup (dict_keys T)) as HTnd.
  { apply collect_templates_from_NoDup in HT; [done|]. apply NoDup_nil_2. }
  assert (templates D = T) as HDT by (by rewrite HD).
  assert (collect_templates (dd_responses (as_dict D)) = Ok (T, [])) as HT'.
  { unfold collect_templates. cbn [as_dict dd_responses]. rewrite HDT.
    rewrite collect_templates_from_valid_id by done.
    by rewrite dict_update_fresh by done. }
  assert (collect_slots (dd_slots (as_dict D)) = slots D) as Hslots.
  { cbn [as_dict dd_slots]. unfold _slot_definitions.
    apply collect_slots_slot_definitions; [done|].
    rewrite HD. cbn [slots]. rewrite collect_slots_names.
    apply sorted_StronglySorted. }
  assert (intent_entry <$> dd_intents (as_dict D) = intent_properties D)
    as Hintents.
  { cbn [as_dict dd_intents]. rewrite <- list_fmap_compose.
    rewrite <- (list_fmap_id (intent_properties D)) at 2.
    apply list_fmap_ext. intros i [k p] _. simpl.
    by rewrite normalise_raw_of_properties. }
  assert (NoDup (intent_spec_name <$> dd_intents (as_dict D))) as Hnames'.
  { cbn [as_dict dd_intents]. rewrite <- list_fmap_compose.
    rewrite HD. cbn [intent_properties]. rewrite <- list_fmap_compose.
    erewrite list_fmap_ext; [exact Hnames|].
    intros i x _. simpl. by rewrite intent_entry_name. }
  apply (from_dict_Ok_intro DEFAULT_CARRY_OVER_SLOTS_TO_NEW_SESSION
           combine_with_templates combine_user_with_default_actions
           (as_dict D) T [] D HT').
  rewrite Hslots. apply Domain_init_Ok. split_and!; [done| |done].
  rewrite Hintents. cbn [as_dict dd_actions dd_entities dd_forms
                         dd_store_entities_as_slots
                         dd_session_expiration_time dd_carry_over_slots].
  assert (combine_with_templates (user_actions D) T = user_actions D) as ->.
  { rewrite HD. cbn [user_actions]. apply Hidem. }
  rewrite HD. cbn. by destruct sc.
Qed.

Lemma example_combine_with_templates_idempotent
    (actions : list string) (templates : list (string * list Template)) :
  example_combine_with_templates
    (example_combine_with_templates actions templates) templates
  = example_combine_with_templates actions templates.
Proof.
  unfold example_combine_with_templates.
  set (names := sorted (dict_keys templates)).
  assert (filter (λ a, a ∉ actions ++ filter (λ a, a ∉ actions) names) names
          = []) as ->; [|by rewrite app_nil_r].
  apply filter_eq_nil. intros x Hx Hnot. apply Hnot.
  apply elem_of_app. destruct (decide (x ∈ actions)); [by left|].
  right. by apply list_elem_of_filter.
Qed.

Lemma as_dict_from_dict_round_trip_witness :
  match from_dict true example_combine_with_templates
          example_combine_user_with_default_actions example_domain_dict with
  | Ok (D, _) =>
      from_dict true example_combine_with_templates
        example_combine_user_with_default_actions (as_dict D) = Ok (D, [])
  | Raise _ => False
  end.
Proof.
  destruct (from_dict true example_combine_with_templates
              example_combine_user_with_default_actions example_domain_dict)
    as [[D ws]|e] eqn:E; [|vm_compute in E; discriminate].
  exact (as_dict_from_dict_round_trip true example_combine_with_templates
           example_combine_user_with_default_actions example_domain_dict
           D ws example_combine_with_templates_idempotent E).
Defined.

(** ** Domain: the active states of a tracker *)

Lemma set_ranking_states_Raise (ranking : list Intent)
    (state_dict : gmap string Qc) (e : PyError) :
  set_ranking_states ranking state_dict = Raise e
  ↔ e = KeyError "confidence"
    ∧ ∃ i, i ∈ ranking ∧ truthy (intent_name i) = true
           ∧ intent_confidence i = None.
Proof.
  revert state_dict.
  induction ranking as [|i ranking IH]; intros state_dict; simpl.
  - split; [done|]. intros (_ & i & Hi & _). by apply elem_of_nil in Hi.
  - destruct (truthy (intent_name i)) eqn:Ht.
    + destruct (intent_confidence i) as [c|] eqn:Hc.
      * rewrite IH. split.
        -- intros (-> & j & Hj & Hjt & Hjc). split; [done|].
           exists j. split; [by right|done].
        -- intros (-> & j & Hj & Hjt & Hjc). split; [done|].
           apply elem_of_cons in Hj as [->|Hj]; [congruence|by eauto].
      * split.
        -- intros [= <-]. split; [done|]. exists i. split; [left|done].
        -- by intros (-> & _).
    + rewrite IH. split.
      * intros (-> & j & Hj & Hjt & Hjc). split; [done|].
        exists j. split; [by right|done].
      * intros (-> & j & Hj & Hjt & Hjc). split; [done|].
        apply elem_of_cons in Hj as [->|Hj]; [congruence|by eauto].
Qed.

(** X11: [get_parsing_states] fails in exactly one way: with
    [KeyError "confidence"], when the latest message carries an intent
    ranking in which some named intent has no confidence.  (Without a
    ranking a missing confidence of the intent counts as 1.0.) *)
Theorem get_parsing_states_raises
    (d : Domain) (tracker : DialogueStateTracker) (e : PyError) :
  get_parsing_states d tracker = Raise e
  ↔ e = KeyError "confidence"
    ∧ ∃ message ranking i,
        latest_message tracker = Some message
        ∧ msg_intent_ranking message = Some ranking
        ∧ i ∈ ranking
        ∧ truthy (intent_name i) = true
        ∧ intent_confidence i = None.
Proof.
  unfold get_parsing_states.
  destruct (latest_message tracker) as [message|].
  - destruct (_get_featurized_entities d message) as [names ws0].
    destruct (msg_intent_ranking message) as [ranking|] eqn:Em.
    + assert (∀ (sd0 : gmap string Qc) (ws : list Warning),
                (sd ← set_ranking_states ranking
                        (set_slot_states (tracker_slots tracker) sd0);
                 Ok (sd, ws)) = Raise e
                ↔ e = KeyError "confidence"
                  ∧ ∃ message' ranking' i,
                      Some message = Some message'
                      ∧ msg_intent_ranking message' = Some ranking'
                      ∧ i ∈ ranking'
                      ∧ truthy (intent_name i) = true
                      ∧ intent_confidence i = None) as Hrank.
      { intros sd0 ws.
        destruct (set_ranking_states ranking _) as [sd'|e'] eqn:Er; simpl.
        - split; [done|]. intros (-> & m & r & i & [= <-] & Hr' & Hi).
          rewrite Em in Hr'. injection Hr' as <-.
          assert (set_ranking_states ranking
                    (set_slot_states (tracker_slots tracker) sd0)
                  = Raise (KeyError "confidence")) as Hr.
          { apply set_ranking_states_Raise. by eauto. }
          congruence.
        - apply set_ranking_states_Raise in Er as (-> & i & Hi). split.
          + intros [= <-]. split; [done|]. by exists message, ranking, i.
          + by intros (-> & _). }
      destruct (truthy (intent_name (msg_intent message))); apply Hrank.
    + split.
      * by destruct (truthy _).
      * intros (_ & m & r & i & [= <-] & Hr' & _). congruence.
  - split; [done|]. by intros (_ & m & r & i & ? & _).
Qed.

Lemma set_entity_states_lookup_entity (names : list string)
    (state_dict : gmap string Qc) (x : string) :
  set_entity_states names state_dict !! ("entity_" +:+ x)
  = if decide (x ∈ names) then Some 1%Qc
    else state_dict !! ("entity_" +:+ x).
Proof.
  unfold set_entity_states. revert state_dict.
  induction names as [|n names IH]; intros state_dict; [done|].
  cbn [foldl]. rewrite IH.
  destruct (decide (x ∈ names)) as [Hin|Hnin].
  - by rewrite decide_True by (by right).
  - destruct (decide (n = x)) as [->|Hne].
    + rewrite decide_True by left. by rewrite lookup_insert_eq.
    + rewrite decide_False.
      * rewrite lookup_insert_ne; [done|].
        intros Heq. by apply String.app_inj in Heq.
      * intros Hin. apply elem_of_cons in Hin as [->|Hin]; done.
Qed.

Lemma get_parsing_states_entity
    (d : Domain) (tracker : DialogueStateTracker) (message : UserUttered)
    (state_dict : gmap string Qc) (warnings : list Warning) (x : string) :
  latest_message tracker = Some message →
  get_parsing_states d tracker = Ok (state_dict, warnings) →
  state_dict !! ("entity_" +:+ x)
  = if truthy (intent_name (msg_intent message))
       && bool_decide (x ∈ (_get_featurized_entities d message).1)
    then Some 1%Qc else None.
Proof.
  intros Hmsg. unfold get_parsing_states. rewrite Hmsg.
  assert (Hslot : ∀ s, "slot_" +:+ s ≠ "entity_" +:+ x) by done.
  assert (Hintent : ∀ s, "intent_" +:+ s ≠ "entity_" +:+ x) by done.
  destruct (_get_featurized_entities d message) as [names ws]. simpl.
  assert (∀ sd0 : gmap string Qc,
            set_slot_states (tracker_slots tracker) sd0 !! ("entity_" +:+ x)
            = sd0 !! ("entity_" +:+ x)) as Hs.
  { intros sd0. by rewrite set_slot_states_lookup. }
  assert (set_entity_states (elements names) ∅ !! ("entity_" +:+ x)
          = if bool_decide (x ∈ names) then Some 1%Qc else None) as He.
  { rewrite set_entity_states_lookup_entity, lookup_empty.
    destruct (decide (x ∈ elements names)) as [Hin|Hnin].
    - apply elem_of_elements in Hin. by rewrite bool_decide_true.
    - rewrite bool_decide_false; [done|].
      intros Hin. by apply elem_of_elements in Hin. }
  destruct (truthy (intent_name (msg_intent message))); simpl.
  - destruct (msg_intent_ranking message) as [ranking|].
    + destruct (set_ranking_states ranking _) as [sd|] eqn:Hr; simpl; [|done].
      intros [= <- _].
      by rewrite (set_ranking_states_lookup _ _ _ _ Hintent Hr), Hs, He.
    + intros [= <- _]. by rewrite lookup_insert_ne, Hs, He.
  - destruct (msg_intent_ranking message) as [ranking|].
    + destruct (set_ranking_states ranking _) as [sd|] eqn:Hr; simpl; [|done].
      intros [= <- _].
      by rewrite (set_ranking_states_lookup _ _ _ _ Hintent Hr), Hs.
    + intros [= <- _]. by rewrite Hs.
Qed.

Lemma featurized_entities_elem_of (d : Domain) (message : UserUttered)
    (x : string) :
  x ∈ (_get_featurized_entities d message).1
  ↔ (∃ entity, entity ∈ msg_entities message ∧ entity !! "entity" = Some x)
    ∧ match from_option use_entities UseAll
              (intent_config d (intent_name (msg_intent message))) with
      | UseAll => True
      | UseList included => x ∈ included
      end
    ∧ x ∉ from_option ignore_entities []
            (intent_config d (intent_name (msg_intent message))).
Proof.
  unfold _get_featurized_entities. cbn [fst].
  rewrite elem_of_intersection, elem_of_difference, !elem_of_list_to_set.
  rewrite list_elem_of_omap.
  destruct (from_option use_entities UseAll _) as [|included].
  - rewrite elem_of_list_to_set, list_elem_of_omap. tauto.
  - rewrite elem_of_list_to_set. tauto.
Qed.

(** X12: the entity states of a tracker.  [get_parsing_states] sets the
    state ["entity_" + x], always to 1.0, exactly when the latest message
    has a named intent, holds an entity called [x], the intent includes [x]
    (through [use_entities], every entity by default) and does not list it
    in [ignore_entities]; a message without an intent name gets no entity
    state at all. *)
Theorem entity_state_is_set_for_featurized_entities
    (d : Domain) (tracker : DialogueStateTracker) (message : UserUttered)
    (state_dict : gmap string Qc) (warnings : list Warning)
    (x : string) (v : Qc) :
  latest_message tracker = Some message →
  get_parsing_states d tracker = Ok (state_dict, warnings) →
  state_dict !! ("entity_" +:+ x) = Some v
  ↔ v = 1%Qc
    ∧ truthy (intent_name (msg_intent message)) = true
    ∧ (∃ entity, entity ∈ msg_entities message
                 ∧ entity !! "entity" = Some x)
    ∧ match from_option use_entities UseAll
              (intent_config d (intent_name (msg_intent message))) with
      | UseAll => True
      | UseList included => x ∈ included
      end
    ∧ x ∉ from_option ignore_entities []
            (intent_config d (intent_name (msg_intent message))).
Proof.
  intros Hmsg Hget.
  rewrite (get_parsing_states_entity d tracker message state_dict warnings x
             Hmsg Hget).
  rewrite <- featurized_entities_elem_of.
  destruct (truthy _); cbn [andb].
  - case_bool_decide as Hx.
    + split.
      * intros Heq. assert (v = 1%Qc) as -> by congruence. done.
      * by intros (-> & _).
    + split; [done|]. by intros (_ & _ & ?).
  - split; [done|]. by intros (_ & ? & _).
Qed.

Lemma entity_state_is_set_for_featurized_entities_witness :
  match get_parsing_states example_constructed_domain example_tracker with
  | Ok (state_dict, _) =>
      state_dict !! ("entity_" +:+ "name") = Some 1%Qc
      ↔ 1%Qc = 1%Qc
        ∧ truthy (intent_name (msg_intent example_message)) = true
        ∧ (∃ entity, entity ∈ msg_entities example_message
                     ∧ entity !! "entity" = Some "name")
        ∧ match from_option use_entities UseAll
                  (intent_config example_constructed_domain
                     (intent_name (msg_intent example_message))) with
          | UseAll => True
          | UseList included => "name" ∈ included
          end
        ∧ "name" ∉ from_option ignore_entities []
                     (intent_config example_constructed_domain
                        (intent_name (msg_intent example_message)))
  | Raise _ => False
  end.
Proof.
  destruct (get_parsing_states example_constructed_domain example_tracker)
    as [[state_dict ws]|e] eqn:E; [|vm_compute in E; discriminate].
  exact (entity_state_is_set_for_featurized_entities
           example_constructed_domain example_tracker example_message
           state_dict ws "name" 1%Qc eq_refl E).
Defined.

Lemma set_slot_features_origin (key : string) (features : list (nat * Qc))
    (state_dict : gmap string Qc) (k : string) (v : Qc) :
  foldl (λ (sd' : gmap string Qc) iv,
           if decide (iv.2 ≠ 0%Qc)
           then <["slot_" +:+ key +:+ "_" +:+ pretty iv.1 := iv.2]> sd'
           else sd')
        state_dict features !! k = Some v →
  state_dict !! k = Some v
  ∨ ∃ i, (i, v) ∈ features ∧ v ≠ 0%Qc
         ∧ k = "slot_" +:+ key +:+ "_" +:+ pretty i.
Proof.
  revert state_dict.
  induction features as [|[i x] features IH]; intros state_dict; simpl.
  - by left.
  - intros Hk. apply IH in Hk as [Hk|(j & Hj & Hv & ->)].
    + case_decide as Hx; [|by left].
      destruct (decide ("slot_" +:+ key +:+ "_" +:+ pretty i = k))
        as [<-|Hne].
      * rewrite lookup_insert_eq in Hk. injection Hk as ->.
        right. exists i. split_and!; [left|done|done].
      * rewrite lookup_insert_ne in Hk by done. by left.
    + right. exists j. split_and!; [by right|done|done].
Qed.

Lemma set_slot_states_origin
    (tracker_slots : list (string * option (list Qc)))
    (state_dict : gmap string Qc) (k : string) (v : Qc) :
  set_slot_states tracker_slots state_dict !! k = Some v →
  state_dict !! k = Some v
  ∨ ∃ key features i,
      (key, Some features) ∈ tracker_slots
      ∧ features !! i = Some v ∧ v ≠ 0%Qc
      ∧ k = "slot_" +:+ key +:+ "_" +:+ pretty i.
Proof.
  unfold set_slot_states. revert state_dict.
  induction tracker_slots as [|[key [features|]] tracker_slots IH];
    intros state_dict; cbn [foldl snd fst].
  - by left.
  - intros Hk. apply IH in Hk as [Hk|(key' & fs & i & Hin & Hi & Hv & ->)].
    + apply set_slot_features_origin in Hk as [Hk|(i & Hi & Hv & ->)];
        [by left|].
      right. exists key, features, i. split_and!; [left| |done|done].
      unfold enumerate in Hi. by apply elem_of_lookup_imap in Hi
        as (i' & v' & [= <- <-] & Hi).
    + right. exists key', fs, i. split_and!; [by right|done..].
  - intros Hk. apply IH in Hk as [Hk|(key' & fs & i & Hin & Hi & Hv & ->)];
      [by left|].
    right. exists key', fs, i. split_and!; [by right|done..].
Qed.

(** X13: the slot states of a tracker are sparse and come from the
    tracker: whenever [get_parsing_states] holds a state ["slot_" + k], its
    value is non-zero and is the feature at some position [i] of a set
    slot [key] of the tracker, with [k = key + "_" + i]; features equal to
    0 and unset slots leave no state. *)
Theorem slot_state_is_nonzero_feature
    (d : Domain) (tracker : DialogueStateTracker)
    (state_dict : gmap string Qc) (warnings : list Warning)
    (k : string) (v : Qc) :
  get_parsing_states d tracker = Ok (state_dict, warnings) →
  state_dict !! ("slot_" +:+ k) = Some v →
  v ≠ 0%Qc
  ∧ ∃ key features i,
      (key, Some features) ∈ tracker_slots tracker
      ∧ features !! i = Some v
      ∧ k = key +:+ "_" +:+ pretty i.
Proof.
  unfold get_parsing_states.
  destruct (latest_message tracker) as [message|];
    [|intros [= <- _]; by rewrite lookup_empty].
  assert (Hintent : ∀ s, "intent_" +:+ s ≠ "slot_" +:+ k) by done.
  assert (∀ sd0 : gmap string Qc,
            sd0 !! ("slot_" +:+ k) = None →
            set_slot_states (tracker_slots tracker) sd0 !! ("slot_" +:+ k)
            = Some v →
            v ≠ 0%Qc
            ∧ ∃ key features i,
                (key, Some features) ∈ tracker_slots tracker
                ∧ features !! i = Some v
                ∧ k = key +:+ "_" +:+ pretty i) as Hslots.
  { intros sd0 Hnone Hk.
    apply set_slot_states_origin in Hk
      as [Hk|(key & fs & i & Hin & Hi & Hv & Heq)]; [congruence|].
    split; [done|]. exists key, fs, i. split_and!; [done..|].
    by apply String.app_inj in Heq. }
  destruct (_get_featurized_entities d message) as [names ws0].
  assert (set_entity_states (elements names) ∅ !! ("slot_" +:+ k) = None)
    as Hent.
  { rewrite set_entity_states_lookup by done. apply lookup_empty. }
  destruct (truthy (intent_name (msg_intent message)));
    destruct (msg_intent_ranking message) as [ranking|]; simpl.
  - destruct (set_ranking_states ranking _) as [sd|] eqn:Hr; simpl; [|done].
    intros [= <- _].
    rewrite (set_ranking_states_lookup _ _ _ _ Hintent Hr).
    by apply Hslots.
  - intros [= <- _]. rewrite lookup_insert_ne by done. by apply Hslots.
  - destruct (set_ranking_states ranking _) as [sd|] eqn:Hr; simpl; [|done].
    intros [= <- _].
    rewrite (set_ranking_states_lookup _ _ _ _ Hintent Hr).
    apply Hslots. apply lookup_empty.
  - intros [= <- _]. apply Hslots. apply lookup_empty.
Qed.

Lemma slot_state_is_nonzero_feature_witness :
  match get_parsing_states example_constructed_domain example_form_tracker
  with
  | Ok (state_dict, _) =>
      state_dict !! ("slot_" +:+ "mood_1") = Some 1%Qc
      ∧ 1%Qc ≠ 0%Qc
      ∧ ∃ key features i,
          (key, Some features) ∈ tracker_slots example_form_tracker
          ∧ features !! i = Some 1%Qc
          ∧ "mood_1" = key +:+ "_" +:+ pretty i
  | Raise _ => False
  end.
Proof.
  destruct (get_parsing_states example_constructed_domain
              example_form_tracker)
    as [[state_dict ws]|e] eqn:E; [|vm_compute in E; discriminate].
  assert (state_dict !! ("slot_" +:+ "mood_1") = Some 1%Qc) as Hk.
  { vm_compute in E. injection E as <- _. vm_compute. reflexivity. }
  split; [exact Hk|].
  exact (slot_state_is_nonzero_feature example_constructed_domain
           example_form_tracker state_dict ws "mood_1" 1%Qc E Hk).
Defined.

(** X14: [get_active_states] lays the previous action and the active form
    over the parsing states: the state of the active form is set to 1.0
    whether or not the domain knows the form, the state of the latest
    action is set to 1.0 when that action is one of the domain, and every
    state of another kind is the one [get_parsing_states] computed. *)
Theorem get_active_states_overlays
    (d : Domain) (tracker : DialogueStateTracker)
    (state_dict : gmap string Qc) (warnings : list Warning) :
  get_active_states d tracker = Ok (state_dict, warnings) →
  (∀ form, active_form tracker = Some form →
     state_dict !! (ACTIVE_FORM_PREFIX +:+ form) = Some 1%Qc)
  ∧ (∀ a, latest_action_name tracker = Some a → a ≠ "" →
       a ∈ action_names d →
       state_dict !! (PREV_PREFIX +:+ a) = Some 1%Qc)
  ∧ ∃ parsing_states,
      get_parsing_states d tracker = Ok (parsing_states, warnings)
      ∧ ∀ k, (∀ s, PREV_PREFIX +:+ s ≠ k) →
             (∀ s, ACTIVE_FORM_PREFIX +:+ s ≠ k) →
             state_dict !! k = parsing_states !! k.
Proof.
  unfold get_active_states.
  destruct (get_parsing_states d tracker) as [[psd pws]|] eqn:Ep;
    simpl; [|done].
  intros [= <- <-]. unfold map_update. split_and!.
  - intros form Hform. unfold get_active_form. rewrite Hform.
    apply lookup_union_Some_l. apply lookup_singleton_eq.
  - intros a Ha Hne Hin.
    assert (get_active_form tracker !! (PREV_PREFIX +:+ a) = None) as Hf.
    { unfold get_active_form. destruct (active_form tracker); [|done].
      by apply lookup_singleton_ne. }
    rewrite lookup_union_r by done.
    apply lookup_union_Some_l. unfold get_prev_action_states.
    rewrite Ha. cbn [truthy default].
    assert (String.eqb a "" = false) as -> by by apply String.eqb_neq.
    cbn [negb]. rewrite decide_True; [apply lookup_singleton_eq|].
    apply state_map_lookup_is_Some. unfold input_states.
    rewrite !elem_of_app. right. right. right. left.
    unfold prev_action_states. apply list_elem_of_fmap. by exists a.
  - exists psd. split; [done|]. intros k Hprev Hform.
    rewrite lookup_union_r.
    + rewrite lookup_union_r; [done|].
      unfold get_prev_action_states. destruct (truthy _); [|done].
      case_decide; [|done]. apply lookup_singleton_ne. apply Hprev.
    + unfold get_active_form. destruct (active_form tracker); [|done].
      apply lookup_singleton_ne. apply Hform.
Qed.

Lemma get_active_states_overlays_witness :
  match get_active_states example_domain example_form_tracker with
  | Ok (state_dict, warnings) =>
      (∀ form, active_form example_form_tracker = Some form →
         state_dict !! (ACTIVE_FORM_PREFIX +:+ form) = Some 1%Qc)
      ∧ (∀ a, latest_action_name example_form_tracker = Some a → a ≠ "" →
           a ∈ action_names example_domain →
           state_dict !! (PREV_PREFIX +:+ a) = Some 1%Qc)
      ∧ ∃ parsing_states,
          get_parsing_states example_domain example_form_tracker
          = Ok (parsing_states, warnings)
          ∧ ∀ k, (∀ s, PREV_PREFIX +:+ s ≠ k) →
                 (∀ s, ACTIVE_FORM_PREFIX +:+ s ≠ k) →
                 state_dict !! k = parsing_states !! k
  | Raise _ => False
  end.
Proof.
  destruct (get_active_states example_domain example_form_tracker)
    as [[state_dict ws]|e] eqn:E; [|vm_compute in E; discriminate].
  exact (get_active_states_overlays example_domain example_form_tracker
           state_dict ws E).
Defined.

(** ** Ensemble: names of the policies *)

Lemma policy_name_inj (i j : nat) (p q : Policy) :
  policy_name i p = policy_name j q → i = j ∧ type_name p = type_name q.
Proof.
  unfold policy_name. intros Heq. apply String.app_inj in Heq.
  apply underscore_split_first in Heq as [Hi Ht];
    [|apply pretty_nat_no_underscore..].
  by apply pretty_nat_inj in Hi.
Qed.

(** X15: [persist] gives every policy of the ensemble a directory of its
    own: the names ["policy_{i}_{class}"] are pairwise distinct, also for
    policies of the same class, and a name determines both the position
    and the class name. *)
Theorem persist_dir_names_are_distinct (policies : list Policy) :
  NoDup (persist_dir_names policies)
  ∧ length (persist_dir_names policies) = length policies
  ∧ ∀ i j p q,
      policies !! i = Some p → policies !! j = Some q →
      policy_name i p = policy_name j q →
      i = j ∧ p = q.
Proof.
  unfold persist_dir_names. split_and!.
  - apply NoDup_alt. intros i j x Hi Hj.
    apply list_lookup_imap_Some in Hi as (p & Hp & ->).
    apply list_lookup_imap_Some in Hj as (q & Hq & Heq).
    by apply policy_name_inj in Heq as [-> _].
  - apply length_imap.
  - intros i j p q Hp Hq Heq. apply policy_name_inj in Heq as [-> _].
    split; [done|]. congruence.
Qed.

Lemma append_assoc (a b c : string) : (a +:+ b) +:+ c = a +:+ (b +:+ c).
Proof.
  induction a as [|x a IH]; [done|]. by rewrite !append_cons, IH.
Qed.

Lemma String_eqb_cons (c1 c2 : Ascii.ascii) (s1 s2 : string) :
  String.eqb (String c1 s1) (String c2 s2)
  = Ascii.eqb c1 c2 && String.eqb s1 s2.
Proof. simpl. by destruct (Ascii.eqb c1 c2). Qed.

Lemma endswith_cons (c : Ascii.ascii) (s suffix : string) :
  endswith (String c s) suffix
  = String.eqb (String c s) suffix || endswith s suffix.
Proof. reflexivity. Qed.

Lemma endswith_after_separator (prefix class_name memo : string) :
  has_char underscore memo = false →
  endswith (prefix +:+ "_" +:+ class_name) ("_" +:+ memo)
  = String.eqb class_name memo || endswith class_name ("_" +:+ memo).
Proof.
  intros Hmemo.
  change ("_" +:+ memo) with (String underscore memo).
  change ("_" +:+ class_name) with (String underscore class_name).
  induction prefix as [|c prefix IH].
  - rewrite append_nil_l, endswith_cons, String_eqb_cons.
    by rewrite Ascii.eqb_refl.
  - rewrite append_cons, endswith_cons, String_eqb_cons, IH.
    destruct (String.eqb (prefix +:+ String underscore class_name) memo)
      eqn:E.
    + apply String.eqb_eq in E. rewrite <- E in Hmemo.
      rewrite has_char_app in Hmemo. simpl in Hmemo.
      by rewrite orb_true_r in Hmemo.
    + by rewrite andb_false_r.
Qed.

(** X16: whether the ensemble takes the winning policy for a memoization
    policy depends on its class name alone, not on its position:
    [is_not_memo_policy] is false on the name of policy [p] exactly when
    the class name of [p] is [MemoizationPolicy] or
    [AugmentedMemoizationPolicy], or ends with an underscore followed by
    one of the two. *)
Theorem is_not_memo_policy_of_policy_name (i : nat) (p : Policy) :
  is_not_memo_policy (policy_name i p)
  = negb (String.eqb (type_name p) "MemoizationPolicy"
          || endswith (type_name p) "_MemoizationPolicy"
          || (String.eqb (type_name p) "AugmentedMemoizationPolicy"
              || endswith (type_name p) "_AugmentedMemoizationPolicy")).
Proof.
  unfold is_not_memo_policy, policy_name.
  rewrite <- !(append_assoc "policy_" (pretty i)).
  by rewrite !endswith_after_separator by reflexivity.
Qed.

(** *** The name returned with the prediction *)

(** X17: what [probabilities_using_best_policy] returns is either
    [(None, None)], or a distribution together with the name of a policy of
    the ensemble, built from the position of that policy and its class
    name; it never returns a distribution without a name, a name without a
    distribution, or the name of a policy that is not in the ensemble. *)
Theorem returned_policy_is_of_the_ensemble
    (ACTION_LISTEN_NAME : string) (policies : list Policy)
    (tracker : DialogueStateTracker) (domain : Domain)
    (result : option (list Qc)) (best_policy_name' : option string) :
  probabilities_using_best_policy ACTION_LISTEN_NAME policies tracker domain
  = Ok (result, best_policy_name') →
  (result = None ∧ best_policy_name' = None)
  ∨ ∃ probabilities i p,
      result = Some probabilities
      ∧ policies !! i = Some p
      ∧ best_policy_name' = Some (policy_name i p).
Proof.
  unfold probabilities_using_best_policy.
  destruct (select_loop tracker domain Best_init 0 policies) as [best|]
    eqn:Hl; simpl; [|done].
  assert (select_invariant tracker domain policies best) as Hinv.
  { apply (select_loop_Ok_invariant tracker domain policies [] Best_init);
      [|done].
    unfold select_invariant. simpl. split; [done|].
    intros j q e Hj. by rewrite lookup_nil in Hj. }
  unfold select_invariant in Hinv.
  destruct (result_ best) as [probabilities|] eqn:Hres.
  - destruct Hinv as (i & p & (Hi & _) & Hname). rewrite Hname.
    destruct (list_index _ _) as [ri|]; simpl; [|done].
    destruct (index_for_action _ _) as [li|]; simpl; [|done].
    assert (∀ r n, Ok (Some probabilities, Some (policy_name i p))
                   = Ok (r, n) →
              (r = None ∧ n = None)
              ∨ ∃ probabilities i p,
                  r = Some probabilities ∧ policies !! i = Some p
                  ∧ n = Some (policy_name i p)) as Hplain.
    { intros r n [= <- <-]. right. by exists probabilities, i, p. }
    destruct (bool_decide (ri = li) && _); simpl; [|by apply Hplain].
    destruct (is_not_memo_policy (policy_name i p)); [|by apply Hplain].
    destruct (fallback_idx_policy policies) as [|[k fp] rest] eqn:Hfb;
      [by apply Hplain|].
    destruct (fallback_scores _ _) as [scores|]; simpl; [|done].
    intros [= <- <-]. right. exists scores, k, fp. split_and!; [done| |done].
    assert ((k, fp) ∈ fallback_idx_policy policies) as Hin
      by (rewrite Hfb; left).
    by apply fallback_idx_policy_elem in Hin as [? _].
  - destruct Hinv as [-> _]. intros [= <- <-]. by left.
Qed.

Lemma returned_policy_is_of_the_ensemble_witness :
  match probabilities_using_best_policy "action_listen" example_ensemble
          example_tracker example_domain with
  | Ok (result, best_policy_name') =>
      (result = None ∧ best_policy_name' = None)
      ∨ ∃ probabilities i p,
          result = Some probabilities
          ∧ example_ensemble !! i = Some p
          ∧ best_policy_name' = Some (policy_name i p)
  | Raise _ => False
  end.
Proof.
  destruct (probabilities_using_best_policy "action_listen" example_ensemble
              example_tracker example_domain)
    as [[result name]|e] eqn:E; [|vm_compute in E; discriminate].
  exact (returned_policy_is_of_the_ensemble "action_listen" example_ensemble
           example_tracker example_domain result name E).
Defined.

(** ** Ensemble: the check of the priorities *)

Lemma defaultdict_get_append (d : list (Z * list string)) (k k' : Z)
    (v : string) :
  defaultdict_get (defaultdict_append d k v) k'
  = if decide (k' = k) then defaultdict_get d k ++ [v]
    else defaultdict_get d k'.
Proof.
  induction d as [|[k0 vs] d IH]; simpl.
  - destruct (decide (k = k')) as [->|Hne].
    + by rewrite decide_True.
    + by rewrite decide_False by done.
  - destruct (decide (k0 = k)) as [->|Hne]; simpl.
    + destruct (decide (k = k')) as [->|Hne'].
      * by rewrite decide_True.
      * by rewrite decide_False by done.
    + destruct (decide (k0 = k')) as [->|Hne'].
      * by rewrite decide_False by done.
      * apply IH.
Qed.

Lemma defaultdict_append_keys (d : list (Z * list string)) (k : Z)
    (v : string) :
  (defaultdict_append d k v).*1
  = if decide (k ∈ d.*1) then d.*1 else d.*1 ++ [k].
Proof.
  induction d as [|[k0 vs] d IH]; [done|].
  cbn [defaultdict_append]. destruct (decide (k0 = k)) as [->|Hne].
  - rewrite !fmap_cons. cbn [fst]. by rewrite decide_True by left.
  - rewrite !fmap_cons. cbn [fst]. rewrite IH.
    destruct (decide (k ∈ d.*1)) as [Hin|Hnin].
    + by rewrite decide_True by (by right).
    + rewrite decide_False; [done|].
      intros Hin. apply elem_of_cons in Hin as [->|Hin]; done.
Qed.

Lemma defaultdict_get_elem_of (d : list (Z * list string)) (k : Z)
    (vs : list string) :
  NoDup d.*1 → (k, vs) ∈ d ↔ k ∈ d.*1 ∧ defaultdict_get d k = vs.
Proof.
  induction d as [|[k0 vs0] d IH]; intros Hnd.
  - split; [by intros H%elem_of_nil|]. by intros [H%elem_of_nil _].
  - rewrite fmap_cons in Hnd. apply list.NoDup_cons in Hnd as [Hk0 Hnd].
    simpl. rewrite !elem_of_cons. destruct (decide (k0 = k)) as [->|Hne].
    + split.
      * intros [[= <-]|Hin]; [by auto|]. destruct Hk0.
        apply list_elem_of_fmap. by exists (k, vs).
      * intros [_ ->]. by left.
    + rewrite (IH Hnd). split.
      * intros [[= -> _]|[Hin Hget]]; [done|]. by auto.
      * intros [[->|Hin] Hget]; [done|]. by auto.
Qed.

Lemma priority_dict_snoc (policies : list Policy) (p : Policy) :
  priority_dict (policies ++ [p])
  = defaultdict_append (priority_dict policies) (priority p) (type_name p).
Proof. unfold priority_dict. by rewrite foldl_app. Qed.

Lemma priority_dict_spec (policies : list Policy) :
  NoDup (priority_dict policies).*1
  ∧ (∀ k, k ∈ (priority_dict policies).*1 ↔ k ∈ priority <$> policies)
  ∧ ∀ k, defaultdict_get (priority_dict policies) k
         = type_names_with_priority k policies.
Proof.
  induction policies as [|p policies (Hnd & Hkeys & Hget)] using rev_ind.
  - split_and!; [apply NoDup_nil_2|done|done].
  - rewrite priority_dict_snoc. split_and!.
    + rewrite defaultdict_append_keys. case_decide as Hin; [done|].
      apply list.NoDup_app. split_and!; [done| |apply NoDup_singleton].
      intros x Hx Hx'. apply list_elem_of_singleton in Hx'. by subst.
    + intros k. rewrite defaultdict_append_keys, fmap_app, elem_of_app.
      rewrite <- Hkeys. simpl. rewrite list_elem_of_singleton.
      case_decide as Hin.
      * split; [by auto|]. intros [?| ->]; done.
      * by rewrite elem_of_app, list_elem_of_singleton.
    + intros k. rewrite defaultdict_get_append, Hget.
      unfold type_names_with_priority. rewrite list.filter_app, fmap_app.
      rewrite filter_cons, filter_nil.
      destruct (decide (k = priority p)) as [->|Hne].
      * by rewrite decide_True.
      * rewrite decide_False by done. by rewrite app_nil_r.
Qed.

Lemma NoDup_fmap_filter_length {A} (f : A → Z) (l : list A) :
  NoDup (f <$> l) ↔ ∀ k, (length (filter (λ x, f x = k) l) ≤ 1)%nat.
Proof.
  induction l as [|x l IH].
  - split; [simpl; intros; lia|intros; apply NoDup_nil_2].
  - rewrite fmap_cons, list.NoDup_cons, IH. split.
    + intros [Hx Hl] k. rewrite filter_cons. case_decide as Hk; [|done].
      simpl. assert (filter (λ y, f y = k) l = []) as ->; [|simpl; lia].
      apply filter_eq_nil. intros y Hy Hyk. apply Hx.
      apply list_elem_of_fmap. exists y. split; [congruence|done].
    + intros Hall. split.
      * intros Hin. apply list_elem_of_fmap in Hin as (y & Hy & Hin).
        specialize (Hall (f x)). rewrite filter_cons in Hall.
        rewrite decide_True in Hall by done. simpl in Hall.
        assert (y ∈ filter (λ z, f z = f x) l) as Hf
          by by apply list_elem_of_filter.
        destruct (filter _ l); [by apply elem_of_nil in Hf|simpl in Hall; lia].
      * intros k. specialize (Hall k). rewrite filter_cons in Hall.
        case_decide; [simpl in Hall; lia|done].
Qed.

Lemma _check_priorities_elem_of (policies : list Policy)
    (type_names : list string) (k : Z) :
  DuplicatePriorityWarning type_names k ∈ _check_priorities policies
  ↔ type_names = type_names_with_priority k policies
    ∧ (1 < length type_names)%nat.
Proof.
  destruct (priority_dict_spec policies) as (Hnd & Hkeys & Hget).
  unfold _check_priorities. rewrite list_elem_of_omap. split.
  - intros ([k' vs] & Hin & Hw). simpl in Hw.
    case_decide as Hlen; [|done]. injection Hw as <- <-.
    apply (defaultdict_get_elem_of _ _ _ Hnd) in Hin as [_ Hin].
    split; [|done]. by rewrite <- Hget.
  - intros [-> Hlen]. exists (k, type_names_with_priority k policies).
    split.
    + apply (defaultdict_get_elem_of _ _ _ Hnd). split; [|apply Hget].
      apply Hkeys. unfold type_names_with_priority in Hlen.
      destruct (filter _ policies) as [|p rest] eqn:Ef;
        [simpl in Hlen; lia|].
      assert (p ∈ filter (λ p, priority p = k) policies) as Hp
        by (rewrite Ef; left).
      apply list_elem_of_filter in Hp as [<- Hp].
      apply list_elem_of_fmap. by exists p.
    + simpl. by rewrite decide_True.
Qed.

(** X18: [_check_priorities] warns exactly about the priorities that more
    than one policy has: there is a warning for priority [k] precisely when
    at least two policies have it, and it lists the class names of all of
    them in ensemble order; an ensemble whose priorities are pairwise
    distinct raises no warning, and only such an ensemble. *)
Theorem _check_priorities_warns_about_shared_priorities
    (policies : list Policy) :
  (∀ type_names k,
     DuplicatePriorityWarning type_names k ∈ _check_priorities policies
     ↔ type_names = type_name <$> filter (λ p, priority p = k) policies
       ∧ (1 < length type_names)%nat)
  ∧ (_check_priorities policies = [] ↔ NoDup (priority <$> policies)).
Proof.
  split; [apply _check_priorities_elem_of|].
  rewrite NoDup_fmap_filter_length. split.
  - intros Hnil k.
    destruct (decide (1 < length (filter (λ p, priority p = k) policies))%nat)
      as [Hlen|]; [|lia].
    assert (DuplicatePriorityWarning (type_names_with_priority k policies) k
            ∈ _check_priorities policies) as Hin.
    { apply _check_priorities_elem_of. split; [done|].
      unfold type_names_with_priority. by rewrite length_fmap. }
    rewrite Hnil in Hin. by apply elem_of_nil in Hin.
  - intros Hall.
    destruct (_check_priorities policies) as [|[names k] rest] eqn:E; [done|].
    assert (DuplicatePriorityWarning names k ∈ _check_priorities policies)
      as Hin by (rewrite E; left).
    apply _check_priorities_elem_of in Hin as [-> Hlen].
    unfold type_names_with_priority in Hlen. rewrite length_fmap in Hlen.
    specialize (Hall k). lia.
Qed.

(** ** Evaluation store: merging *)

Lemma add_arg_list `{Truthy A} (attr l : list A) :
  add_arg attr (ArgList l) = attr ++ l.
Proof.
  unfold add_arg, is_truthy, StoreArg_truthy. case_bool_decide as Hl; [done|].
  assert (l = []) as -> by (by destruct l; [|destruct Hl]).
  by rewrite app_nil_r.
Qed.

Lemma merge_store_fields (self other : EvaluationStore) :
  merge_store self other
  = {| action_predictions := action_predictions self ++ action_predictions other;
       action_targets := action_targets self ++ action_targets other;
       intent_predictions := intent_predictions self ++ intent_predictions other;
       intent_targets := intent_targets self ++ intent_targets other;
       entity_predictions := entity_predictions self ++ entity_predictions other;
       entity_targets := entity_targets self ++ entity_targets other |}.
Proof. unfold merge_store, add_to_store. by rewrite !add_arg_list. Qed.

(** X19: [merge_store] appends the six lists of the other store to those of
    the store, also when some of them are empty; merging is therefore
    associative, and merging with a fresh store, on either side, changes
    nothing. *)
Theorem merge_store_is_concatenation (a b c : EvaluationStore) :
  action_predictions (merge_store a b)
    = action_predictions a ++ action_predictions b
  ∧ action_targets (merge_store a b) = action_targets a ++ action_targets b
  ∧ intent_predictions (merge_store a b)
    = intent_predictions a ++ intent_predictions b
  ∧ intent_targets (merge_store a b) = intent_targets a ++ intent_targets b
  ∧ entity_predictions (merge_store a b)
    = entity_predictions a ++ entity_predictions b
  ∧ entity_targets (merge_store a b) = entity_targets a ++ entity_targets b
  ∧ merge_store (merge_store a b) c = merge_store a (merge_store b c)
  ∧ merge_store a EvaluationStore_empty = a
  ∧ merge_store EvaluationStore_empty a = a.
Proof.
  rewrite !merge_store_fields. simpl. split_and!; try done.
  - by rewrite !app_assoc.
  - destruct a. simpl. by rewrite !app_nil_r.
  - by destruct a.
Qed.

(** X20: merging into a store whose predictions equal its targets keeps
    exactly the mismatch status of the store merged in: the result has a
    mismatch if and only if the other store has one. *)
Theorem merge_store_mismatch (self other : EvaluationStore) :
  has_prediction_target_mismatch self = false →
  has_prediction_target_mismatch (merge_store self other)
  = has_prediction_target_mismatch other.
Proof.
  unfold has_prediction_target_mismatch. intros Hself.
  apply orb_false_iff in Hself as [Hself Ha].
  apply orb_false_iff in Hself as [Hi He].
  apply bool_decide_eq_false in Hi, He, Ha.
  apply dec_stable in Hi, He, Ha.
  rewrite merge_store_fields. simpl. rewrite Hi, He, Ha.
  f_equal; [f_equal|]; apply bool_decide_ext;
    (split; intros Hne Heq; apply Hne;
     [by rewrite Heq|by apply app_inv_head in Heq]).
Qed.

Lemma merge_store_mismatch_witness :
  has_prediction_target_mismatch
    (merge_store
       {| action_predictions := [PyStr "utter_greet"];
          action_targets := [PyStr "utter_greet"];
          intent_predictions := []; intent_targets := [];
          entity_predictions := []; entity_targets := [] |}
       {| action_predictions := [PyStr "utter_bye"];
          action_targets := [PyStr "action_listen"];
          intent_predictions := []; intent_targets := [];
          entity_predictions := []; entity_targets := [] |})
  = has_prediction_target_mismatch
      {| action_predictions := [PyStr "utter_bye"];
         action_targets := [PyStr "action_listen"];
         intent_predictions := []; intent_targets := [];
         entity_predictions := []; entity_targets := [] |}.
Proof.
  apply (merge_store_mismatch
           {| action_predictions := [PyStr "utter_greet"];
              action_targets := [PyStr "utter_greet"];
              intent_predictions := []; intent_targets := [];
              entity_predictions := []; entity_targets := [] |}).
  vm_compute. reflexivity.
Defined.

(** a mismatch of the store is not kept in general: the lists of the two
    stores can make up for each other *)
Example merge_store_can_hide_a_mismatch :
  has_prediction_target_mismatch
    {| action_predictions := [PyStr "utter_greet"]; action_targets := [];
       intent_predictions := []; intent_targets := [];
       entity_predictions := []; entity_targets := [] |} = true
  ∧ has_prediction_target_mismatch
      (merge_store
         {| action_predictions := [PyStr "utter_greet"]; action_targets := [];
            intent_predictions := []; intent_targets := [];
            entity_predictions := []; entity_targets := [] |}
         {| action_predictions := []; action_targets := [PyStr "utter_greet"];
            intent_predictions := []; intent_targets := [];
            entity_predictions := []; entity_targets := [] |}) = false.
Proof. split; vm_compute; reflexivity. Qed.

(** ** Evaluation: cleaned entities *)

Lemma cleaned_entity_fold_lookup (r cleaned : EntityDict) (keys : list string)
    (k : string) :
  foldl (λ (cleaned : EntityDict) k,
           match r !! k with
           | Some v => <[k := v]> cleaned
           | None => cleaned
           end) cleaned keys !! k
  = if decide (k ∈ keys) then
      match r !! k with Some v => Some v | None => cleaned !! k end
    else cleaned !! k.
Proof.
  revert cleaned. induction keys as [|k0 keys IH]; intros cleaned; [done|].
  cbn [foldl]. rewrite IH.
  destruct (decide (k0 = k)) as [->|Hne].
  - rewrite (decide_True (P := k ∈ k :: keys)) by left.
    destruct (r !! k) as [v|] eqn:Hr.
    + rewrite lookup_insert_eq. by destruct (decide (k ∈ keys)).
    + by destruct (decide (k ∈ keys)).
  - assert ((<[k0 := default "" (r !! k0)]> cleaned : EntityDict) !! k
            = cleaned !! k) as Hins by by rewrite lookup_insert_ne.
    assert (match r !! k0 with
            | Some v => <[k0 := v]> cleaned
            | None => cleaned
            end !! k = cleaned !! k) as ->.
    { destruct (r !! k0); [by rewrite lookup_insert_ne|done]. }
    destruct (decide (k ∈ keys)) as [Hin|Hnin].
    + by rewrite decide_True by (by right).
    + rewrite decide_False; [done|].
      intros Hin. apply elem_of_cons in Hin as [->|Hin]; done.
Qed.

Lemma cleaned_entity_lookup (text : string) (r : EntityDict) (k : string) :
  cleaned_entity text r !! k
  = if decide (k = "text") then Some text
    else if decide (k ∈ ["start"; "end"; "entity"; "value"]) then r !! k
         else None.
Proof.
  unfold cleaned_entity. rewrite cleaned_entity_fold_lookup.
  destruct (decide (k = "text")) as [->|Hne].
  - rewrite decide_False; [apply lookup_singleton_eq|].
    rewrite !elem_of_cons, elem_of_nil. intros [?|[?|[?|[?|?]]]]; done.
  - rewrite lookup_singleton_ne by done.
    destruct (decide (k ∈ _)); [|done]. by destruct (r !! k).
Qed.

Lemma cleaned_entity_idempotent (text : string) (r : EntityDict) :
  cleaned_entity text (cleaned_entity text r) = cleaned_entity text r.
Proof.
  apply map_eq. intros k. rewrite !cleaned_entity_lookup.
  destruct (decide (k = "text")); [done|].
  by destruct (decide (k ∈ _)).
Qed.

(** X21: [_clean_entity_results] raises [TypeError] when it is handed
    [None]; otherwise it returns one dict per entity, in the same order,
    which holds the message text under ["text"] (whatever the entity had
    there), agrees with the entity on ["start"], ["end"], ["entity"] and
    ["value"], and has no other key; cleaning a cleaned list changes
    nothing. *)
Theorem _clean_entity_results_keeps_token_keys (text : string) :
  _clean_entity_results text None = Raise TypeError
  ∧ ∀ entity_results,
      ∃ cleaned,
        _clean_entity_results text (Some entity_results) = Ok cleaned
        ∧ length cleaned = length entity_results
        ∧ (∀ i r c k,
             entity_results !! i = Some r → cleaned !! i = Some c →
             c !! k
             = if decide (k = "text") then Some text
               else if decide (k ∈ ["start"; "end"; "entity"; "value"])
                    then r !! k
                    else None)
        ∧ _clean_entity_results text (Some cleaned) = Ok cleaned.
Proof.
  split; [done|]. intros entity_results.
  exists (cleaned_entity text <$> entity_results). split_and!.
  - done.
  - apply length_fmap.
  - intros i r c k Hr Hc. rewrite list_lookup_fmap, Hr in Hc.
    injection Hc as <-. apply cleaned_entity_lookup.
  - simpl. f_equal. rewrite <- list_fmap_compose.
    apply list_fmap_ext. intros i r _. apply cleaned_entity_idempotent.
Qed.

(** ** Evaluation: the fraction of memoized actions *)

Lemma length_filter_eq_Forall {A} (P : A → Prop) `{∀ x, Decision (P x)}
    (l : list A) :
  length (filter P l) = length l ↔ Forall P l.
Proof.
  induction l as [|x l IH].
  - split; [by constructor|done].
  - rewrite filter_cons. destruct (decide (P x)) as [HP|HnP].
    + simpl. rewrite list.Forall_cons. split.
      * intros [= Hlen]. split; [done|]. by apply IH.
      * intros [_ Hall]. f_equal. by apply IH.
    + split.
      * intros Hlen. pose proof (length_filter P l). simpl in Hlen. lia.
      * intros Hall. apply list.Forall_cons in Hall as [? _]. done.
Qed.

Lemma length_filter_0_Forall {A} (P : A → Prop) `{∀ x, Decision (P x)}
    (l : list A) :
  length (filter P l) = 0 ↔ Forall (λ x, ¬ P x) l.
Proof.
  rewrite list.Forall_forall, <- (filter_eq_nil P l).
  by destruct (filter P l).
Qed.

Lemma Q2Qc_le (p q : Q) : (Q2Qc p ≤ Q2Qc q)%Qc ↔ (p <= q)%Q.
Proof. unfold Qcle. simpl. by rewrite !Qred_correct. Qed.

(** X22: [_in_training_data_fraction] raises [ZeroDivisionError] on the
    empty action list; on every other list it returns a fraction between 0
    and 1, which is 1 exactly when every action was predicted by a
    memoization policy and 0 exactly when none was. *)
Theorem _in_training_data_fraction_bounds (action_list : list PredictedAction) :
  (action_list = [] →
   _in_training_data_fraction action_list = inl ZeroDivisionError)
  ∧ (action_list ≠ [] →
     ∃ fraction,
       _in_training_data_fraction action_list = inr fraction
       ∧ (0 ≤ fraction)%Qc ∧ (fraction ≤ 1)%Qc
       ∧ (fraction = 1%Qc
          ↔ Forall (λ a, predicted_by_memo_policy a = true) action_list)
       ∧ (fraction = 0%Qc
          ↔ Forall (λ a, predicted_by_memo_policy a ≠ true) action_list)).
Proof.
  split; [by intros ->|]. intros Hne. unfold _in_training_data_fraction.
  destruct (length action_list) as [|n] eqn:Hlen.
  { by destruct action_list. }
  eexists. split; [reflexivity|]. rewrite length_fmap.
  pose proof (length_filter (λ a, predicted_by_memo_policy a = true)
                action_list) as Hle.
  rewrite <- (length_filter_eq_Forall
                (λ a, predicted_by_memo_policy a = true)).
  rewrite <- (length_filter_0_Forall
                (λ a, predicted_by_memo_policy a = true)).
  rewrite Hlen in *. revert Hle.
  generalize (length (filter (λ a, predicted_by_memo_policy a = true)
                        action_list)).
  intros k Hle.
  change 0%Qc with (Q2Qc 0). change 1%Qc with (Q2Qc 1).
  rewrite !Q2Qc_le, !Q2Qc_eq_iff. unfold Qle, Qeq. simpl.
  rewrite Zpos_P_of_succ_nat. split_and!; lia.
Qed.

(** ** Evaluation: predictions for a user message *)

Lemma intent_stage_targets (event : EvaluatedUtterance) :
  intent_targets
    (add_to_store EvaluationStore_empty ArgNone ArgNone
       (if truthy (predicted_intent_name event)
        then ArgItem (PyStr (default "" (predicted_intent_name event)))
        else ArgList [PyNone])
       match true_intent event with
       | Some s => ArgItem (PyStr s)
       | None => ArgNone
       end ArgNone ArgNone)
  = if truthy (true_intent event)
    then [PyStr (default "" (true_intent event))] else [].
Proof. by destruct (true_intent event) as [[|c s]|]. Qed.

Lemma intent_stage_predictions (event : EvaluatedUtterance) :
  intent_predictions
    (add_to_store EvaluationStore_empty ArgNone ArgNone
       (if truthy (predicted_intent_name event)
        then ArgItem (PyStr (default "" (predicted_intent_name event)))
        else ArgList [PyNone])
       match true_intent event with
       | Some s => ArgItem (PyStr s)
       | None => ArgNone
       end ArgNone ArgNone)
  = if truthy (predicted_intent_name event)
    then [PyStr (default "" (predicted_intent_name event))] else [PyNone].
Proof. by destruct (predicted_intent_name event) as [[|c s]|]. Qed.

Lemma entity_stage_Ok (event : EvaluatedUtterance) (S1 S2 : EvaluationStore) :
  (if truthy_list (true_entities event)
      || truthy_list (predicted_entities event)
   then
     targets ← _clean_entity_results (event_text event) (true_entities event);
     predictions ← _clean_entity_results (event_text event)
                     (predicted_entities event);
     Ok (add_to_store S1 ArgNone ArgNone ArgNone ArgNone
           (ArgList predictions) (ArgList targets))
   else Ok S1) = Ok S2 →
  intent_predictions S2 = intent_predictions S1
  ∧ intent_targets S2 = intent_targets S1.
Proof.
  destruct (truthy_list _ || truthy_list _); [|by intros [= <-]].
  destruct (_clean_entity_results _ (true_entities event)); simpl; [|done].
  destruct (_clean_entity_results _ (predicted_entities event)); simpl;
    [|done].
  by intros [= <-].
Qed.

Lemma entity_stage_Raise (event : EvaluatedUtterance) (S1 : EvaluationStore)
    (e : PyError) :
  (if truthy_list (true_entities event)
      || truthy_list (predicted_entities event)
   then
     targets ← _clean_entity_results (event_text event) (true_entities event);
     predictions ← _clean_entity_results (event_text event)
                     (predicted_entities event);
     Ok (add_to_store S1 ArgNone ArgNone ArgNone ArgNone
           (ArgList predictions) (ArgList targets))
   else Ok S1) = Raise e
  ↔ e = TypeError
    ∧ (truthy_list (true_entities event) = true
       ∨ truthy_list (predicted_entities event) = true)
    ∧ (true_entities event = None ∨ predicted_entities event = None).
Proof.
  destruct (true_entities event) as [[|x l]|];
    destruct (predicted_entities event) as [[|x' l']|]; simpl;
    (split; [intros [= <-] || done|intros (-> & [?|?] & [?|?])]);
    try done; split_and!; auto.
Qed.

(** X23: an utterance without a true intent cannot be evaluated:
    [_collect_user_uttered_predictions] then never returns.  It raises
    [TypeError] when one of the two entity lists is missing while the
    other, or itself, is non-empty, and [IndexError] (from
    [WronglyClassifiedUserUtterance]) in every other case, whatever
    [fail_on_prediction_errors] is. *)
Theorem utterance_without_true_intent_raises
    (event : EvaluatedUtterance) (fail_on_prediction_errors : bool) :
  truthy (true_intent event) = false →
  ∃ e,
    _collect_user_uttered_predictions event fail_on_prediction_errors
    = Raise e
    ∧ (e = TypeError ∨ e = IndexError)
    ∧ (e = TypeError
       ↔ (truthy_list (true_entities event) = true
          ∨ truthy_list (predicted_entities event) = true)
         ∧ (true_entities event = None ∨ predicted_entities event = None)).
Proof.
  intros Hgold. unfold _collect_user_uttered_predictions.
  match goal with
  | |- context [add_to_store EvaluationStore_empty ?a ?b ?c ?d ?f ?g] =>
      pose proof (intent_stage_predictions event) as Hp;
      pose proof (intent_stage_targets event) as Ht;
      set (S1 := add_to_store EvaluationStore_empty a b c d f g) in *
  end.
  rewrite Hgold in Ht. clearbody S1.
  destruct (if truthy_list _ || truthy_list _ then _ else _)
    as [S2|e] eqn:E2.
  - pose proof (entity_stage_Ok _ _ _ E2) as [Hp2 Ht2]. simpl.
    rewrite Hp in Hp2. rewrite Ht in Ht2.
    assert (has_prediction_target_mismatch S2 = true) as ->.
    { unfold has_prediction_target_mismatch. rewrite Hp2, Ht2.
      by destruct (truthy (predicted_intent_name event)). }
    unfold WronglyClassifiedUserUtterance_init. rewrite Ht2. simpl.
    exists IndexError. split_and!; [done|by right|].
    split; [done|]. intros Hcond.
    assert (∃ e, Ok S2 = Raise e) as [e He]; [|done].
    exists TypeError. rewrite <- E2. apply entity_stage_Raise.
    by split.
  - simpl. apply entity_stage_Raise in E2 as (-> & Hcond).
    exists TypeError. split_and!; [done|by left|]. split; [done|by intros].
Qed.

Lemma utterance_without_true_intent_raises_witness :
  ∃ e,
    _collect_user_uttered_predictions
      {| event_text := "hello"; true_intent := None;
         predicted_intent_name := Some "greet";
         true_entities := None; predicted_entities := Some [] |} false
    = Raise e
    ∧ (e = TypeError ∨ e = IndexError)
    ∧ (e = TypeError
       ↔ (truthy_list (None : option (list EntityDict)) = true
          ∨ truthy_list (Some [] : option (list EntityDict)) = true)
         ∧ ((None : option (list EntityDict)) = None
            ∨ (Some [] : option (list EntityDict)) = None)).
Proof.
  apply (utterance_without_true_intent_raises
           {| event_text := "hello"; true_intent := None;
              predicted_intent_name := Some "greet";
              true_entities := None; predicted_entities := Some [] |} false).
  reflexivity.
Defined.

(** X24: what [_collect_user_uttered_predictions] returns.  If the store
    shows no mismatch, the predicted intent is the true intent and the
    tracker is updated with the end-to-end utterance; if it shows one,
    the function returns only when [fail_on_prediction_errors] is off, and
    the tracker is updated with a wrongly classified utterance that
    carries the true intent as target.  With [fail_on_prediction_errors]
    on, it returns only for a correct prediction. *)
Theorem collected_user_predictions
    (event : EvaluatedUtterance) (fail_on_prediction_errors : bool)
    (store : EvaluationStore) (update : EvaluationEvent) :
  _collect_user_uttered_predictions event fail_on_prediction_errors
  = Ok (store, update) →
  ∃ target,
    true_intent event = Some target ∧ target ≠ ""
    ∧ intent_targets store = [PyStr target]
    ∧ ((has_prediction_target_mismatch store = false
        ∧ predicted_intent_name event = Some target
        ∧ update = EndToEndUserUtterance (event_text event)
                     (predicted_intent_name event)
                     (predicted_entities event))
       ∨ (has_prediction_target_mismatch store = true
          ∧ fail_on_prediction_errors = false
          ∧ update = WronglyClassifiedUserUtterance (event_text event)
                       (PyStr target) (entity_targets store)
                       (if truthy (predicted_intent_name event)
                        then PyStr (default "" (predicted_intent_name event))
                        else PyNone)
                       (entity_predictions store))).
Proof.
  unfold _collect_user_uttered_predictions.
  match goal with
  | |- context [add_to_store EvaluationStore_empty ?a ?b ?c ?d ?f ?g] =>
      pose proof (intent_stage_predictions event) as Hp;
      pose proof (intent_stage_targets event) as Ht;
      set (S1 := add_to_store EvaluationStore_empty a b c d f g) in *
  end.
  clearbody S1.
  destruct (if truthy_list _ || truthy_list _ then _ else _)
    as [S2|e] eqn:E2; simpl; [|done].
  apply entity_stage_Ok in E2 as [Hp2 Ht2].
  rewrite Hp in Hp2. rewrite Ht in Ht2.
  destruct (has_prediction_target_mismatch S2) eqn:Hmis.
  - unfold WronglyClassifiedUserUtterance_init. rewrite Ht2, Hp2.
    destruct (true_intent event) as [target|] eqn:Hgold; [|done].
    destruct (truthy (Some target)) eqn:Htruthy; simpl; [|done].
    destruct fail_on_prediction_errors; [done|].
    intros [= <- <-]. exists target. split_and!; [done| |done|].
    + intros ->. done.
    + right. split_and!; [done..|].
      by destruct (truthy (predicted_intent_name event)).
  - intros [= <- <-]. pose proof Hmis as Hno.
    unfold has_prediction_target_mismatch in Hmis.
    apply orb_false_iff in Hmis as [Hmis _].
    apply orb_false_iff in Hmis as [Hi _].
    apply bool_decide_eq_false, dec_stable in Hi.
    rewrite Hp2, Ht2 in Hi.
    destruct (true_intent event) as [target|] eqn:Hgold;
      [|by destruct (truthy (predicted_intent_name event))].
    destruct (truthy (Some target)) eqn:Htruthy;
      [|by destruct (truthy (predicted_intent_name event))].
    destruct (predicted_intent_name event) as [name|] eqn:Hname; [|done].
    destruct (truthy (Some name)); [|done].
    simpl in Hi. injection Hi as ->.
    exists target. split_and!; [done| |done|].
    + intros ->. done.
    + left. by split_and!.
Qed.

Lemma collected_user_predictions_witness :
  match _collect_user_uttered_predictions example_utterance true with
  | Ok (store, update) =>
      ∃ target,
        true_intent example_utterance = Some target ∧ target ≠ ""
        ∧ intent_targets store = [PyStr target]
        ∧ ((has_prediction_target_mismatch store = false
            ∧ predicted_intent_name example_utterance = Some target
            ∧ update = EndToEndUserUtterance (event_text example_utterance)
                         (predicted_intent_name example_utterance)
                         (predicted_entities example_utterance))
           ∨ (has_prediction_target_mismatch store = true
              ∧ true = false
              ∧ update
                = WronglyClassifiedUserUtterance
                    (event_text example_utterance)
                    (PyStr target) (entity_targets store)
                    (if truthy (predicted_intent_name example_utterance)
                     then PyStr (default ""
                                   (predicted_intent_name example_utterance))
                     else PyNone)
                    (entity_predictions store)))
  | Raise _ => False
  end.
Proof.
  destruct (_collect_user_uttered_predictions example_utterance true)
    as [[store update]|e] eqn:E; [|vm_compute in E; discriminate].
  exact (collected_user_predictions example_utterance true store update E).
Defined.
